(** * clipFavGifSearch: indexing synchronisation and rank fusion

    A shallow embedding of the plugin's core (the later revision with
    per-account keys and dynamic model weights, and the places where the
    earlier revision [index.tsx] differs), with the properties of its
    specification stated and proved over it.

    Conventions of the embedding.
    - A JS string is a [string], each character one UTF-16 code unit
      below 256; [length], [startsWith], [indexOf], [substring],
      [endsWith], [===], [toLowerCase] and [encodeURIComponent] are
      defined on the sequence of code units.
    - The numbers of the fusion step (scores, weights, ranks, totals) are
      IEEE binary64 numbers, [float], with the arithmetic of the engine.
      The settings hold the weights as exact rationals [Q]: the
      synchronisation only compares them with 0, and the fusion step
      reads them as the binary64 number they are or are nearest to.
    - A [Record<string, T>] is the list of its entries in [Object.entries]
      order; a [Set<string>] that is only tested with [has] is a
      [gset string]; a [Set] that is enumerated is the list of its
      elements in insertion order; a [Map<string, number>] is a [gmap].
    - An object that the code keeps a reference to while others change
      it is followed by its identity: the state holds what the object
      contains now.
    - An [async] function is split at its [await]: the part that runs
      when it is called, and the part that runs when the awaited promise
      settles. *)

From Stdlib Require Import String Ascii ZArith QArith List Lia Lqa Permutation Sorted.
From Stdlib Require Import Floats Uint63.
From stdpp Require Import gmap strings list.
Import ListNotations.

Local Open Scope string_scope.
Local Open Scope Z_scope.

(** ** JS string primitives *)

Module JsString.

Fixpoint startsWith (s p : string) {struct p} : bool :=
  match p, s with
  | EmptyString, _ => true
  | String c p', String d s' => if Ascii.eqb c d then startsWith s' p' else false
  | String _ _, EmptyString => false
  end.

Fixpoint sdrop (n : nat) (s : string) : string :=
  match n, s with
  | O, _ => s
  | S n', String _ s' => sdrop n' s'
  | S _, EmptyString => EmptyString
  end.

Fixpoint stake (n : nat) (s : string) : string :=
  match n, s with
  | O, _ => EmptyString
  | S n', String c s' => String c (stake n' s')
  | S _, EmptyString => EmptyString
  end.

(** Position of the first [c] in [s], if any. *)
Fixpoint findChar (c : ascii) (s : string) : option nat :=
  match s with
  | EmptyString => None
  | String d s' => if Ascii.eqb d c then Some O else option_map S (findChar c s')
  end.

(** [s.indexOf(c, from)]: the first position at or after [from], or -1. *)
Definition indexOf (s : string) (c : ascii) (from : nat) : Z :=
  match findChar c (sdrop from s) with
  | Some i => Z.of_nat (from + i)
  | None => -1
  end.

Definition clampIndex (s : string) (i : Z) : nat :=
  Z.to_nat (Z.min (Z.max i 0) (Z.of_nat (String.length s))).

(** [s.substring(a, b)]: both indices are clamped to [0, length] and
    swapped when [a > b]. *)
Definition substring (s : string) (a b : Z) : string :=
  let a' := clampIndex s a in
  let b' := clampIndex s b in
  stake (Nat.max a' b' - Nat.min a' b') (sdrop (Nat.min a' b') s).

Definition endsWith (s suffix : string) : bool :=
  (String.length suffix <=? String.length s)%nat &&
  String.eqb (sdrop (String.length s - String.length suffix) s) suffix.

(** Truthiness of a string: [!s] holds exactly for the empty string. *)
Definition isEmpty (s : string) : bool :=
  match s with EmptyString => true | _ => false end.

(** [encodeURIComponent].  The characters it leaves as they are: *)
Definition unreserved (c : ascii) : bool :=
  let n := nat_of_ascii c in
  ((65 <=? n) && (n <=? 90) || (97 <=? n) && (n <=? 122) || (48 <=? n) && (n <=? 57))%nat
  || existsb (Ascii.eqb c) (list_ascii_of_string "-_.!~*'()").

Definition hexDigit (n : nat) : ascii :=
  match String.get n "0123456789ABCDEF" with
  | Some c => c
  | None => "0"%char
  end.

(** [%XX] for one octet. *)
Definition percent (octet : nat) : string :=
  String "%" (String (hexDigit (octet / 16)) (String (hexDigit (octet mod 16)) "")).

(** Any other character is replaced by the escapes of the octets of its
    UTF-8 encoding: one octet below U+0080, two from there to U+00FF. *)
Definition encodeChar (c : ascii) : string :=
  let n := nat_of_ascii c in
  if unreserved c then String c ""
  else if (n <? 128)%nat then percent n
  else percent (192 + n / 64) +:+ percent (128 + n mod 64).

Fixpoint encodeURIComponent (s : string) : string :=
  match s with
  | EmptyString => EmptyString
  | String c s' => encodeChar c +:+ encodeURIComponent s'
  end.

End JsString.

(** ** Items of the collection *)

Record Gif := mkGif {
  format : Z;
  src : string;
  width : Z;
  height : Z;
  order : Z;
  url : string
}.

(** ** Validator *)

Module Validator.
Import JsString.

(** The protocol test of the loop body: the offset at which the domain
    starts, or [None] when the body executes [continue]. *)
Definition domainOffset (s : string) : option nat :=
  if startsWith s "http://" then Some 7%nat
  else if startsWith s "https://" then Some 8%nat
  else None.

Definition domainAt (s : string) (offset : nat) : string :=
  let pathIdx := indexOf s "/"%char offset in
  let endIdx := if pathIdx =? -1 then Z.of_nat (String.length s) else pathIdx in
  substring s (Z.of_nat offset) endIdx.

Definition domainRejected (domain : string) : bool :=
  isEmpty domain
  || (256 <? String.length domain)%nat
  || (negb (endsWith domain ".discordapp.net") && negb (String.eqb domain "media.tenor.co")).

(** One iteration of the [for (const gif of favorites)] loop: [None]
    stands for [continue], [Some x] for the [push] of [x]. *)
Definition loopBody {A} (entry : Gif -> A) (gif : Gif) : option A :=
  let name := url gif in
  if (512 <? String.length name)%nat then None
  else if (2000 <? String.length (src gif))%nat then None
  else match domainOffset (src gif) with
       | None => None
       | Some offset =>
           if domainRejected (domainAt (src gif) offset) then None
           else Some (entry gif)
       end.

Definition runLoop {A} (entry : Gif -> A) (favorites : list Gif) : list A :=
  fold_left (fun acc gif =>
               match loopBody entry gif with
               | None => acc
               | Some x => (acc ++ [x])%list
               end) favorites [].

(** [getValidGifUrls]: the ids of the items that pass. *)
Definition getValidGifUrls (favorites : list Gif) : list string :=
  runLoop url favorites.

(** The validation loop of [sendIndexRequest]: [{ name, src }] pairs. *)
Definition validGifs (favorites : list Gif) : list (string * string) :=
  runLoop (fun gif => (url gif, src gif)) favorites.

(** The validator's rules as the specification words them.  The locator
    is [scheme ++ domain ++ rest] where the domain stops at the first
    slash or at the end of the string. *)
Definition noSlash (s : string) : Prop := findChar "/"%char s = None.

Definition Valid (g : Gif) : Prop :=
  (String.length (url g) <= 512)%nat /\
  (String.length (src g) <= 2000)%nat /\
  exists scheme domain rest,
    (scheme = "http://" \/ scheme = "https://") /\
    src g = (scheme ++ domain ++ rest)%string /\
    noSlash domain /\
    (rest = "" \/ exists r, rest = String "/"%char r) /\
    domain <> "" /\
    (String.length domain <= 256)%nat /\
    ((exists p, domain = (p ++ ".discordapp.net")%string) \/ domain = "media.tenor.co").

(** What one iteration decides for an item. *)
Definition accepted (gif : Gif) : bool :=
  match loopBody (fun g => g) gif with
  | Some _ => true
  | None => false
  end.

End Validator.


(** ** JS objects and numbers *)

Module Js.

(** [o[k]] on a record given by its entries: [None] is [undefined]. *)
Fixpoint getProp {T} (o : list (string * T)) (k : string) : option T :=
  match o with
  | [] => None
  | (k', v) :: o' => if String.eqb k' k then Some v else getProp o' k
  end.

(** [a > b] on numbers. *)
Definition gtb (a b : Q) : bool := negb (Qle_bool a b).

(** [xs.every((x, index) => p(x, index))]. *)
Fixpoint everyFrom {A} (p : A -> nat -> bool) (xs : list A) (index : nat) : bool :=
  match xs with
  | [] => true
  | x :: xs' => if p x index then everyFrom p xs' (S index) else false
  end.

Definition every {A} (p : A -> nat -> bool) (xs : list A) : bool :=
  everyFrom p xs 0%nat.

(** [x === ys[index]]: an index out of range reads [undefined], which is
    not a string. *)
Definition eqAt (ys : list string) (x : string) (index : nat) : bool :=
  match ys !! index with
  | Some y => String.eqb x y
  | None => false
  end.

(** [o[k] = v] on a record: the value is replaced where the key is, and
    the entry is appended when the key is new.  (A key that is an array
    index would be enumerated before the others; the properties below
    speak about lookups, not about the order.) *)
Fixpoint setProp {T} (o : list (string * T)) (k : string) (v : T) : list (string * T) :=
  match o with
  | [] => [(k, v)]
  | (k', v') :: o' =>
      if String.eqb k' k then (k', v) :: o' else (k', v') :: setProp o' k v
  end.

(** *** Numbers of the fusion step

    The engine computes in IEEE binary64, and so does the embedding of
    the fusion step: a score or a weight that enters the arithmetic is a
    [float].  The settings hold the weights as rationals (there they are
    only compared with 0); [toNumber q] is the binary64 number nearest to
    [q], ties to even, which is [q] itself when [q] is a binary64
    number. *)
Definition roundDiv (s : bool) (n d : positive) : spec_float :=
  let '(mz, ez, lz) := SFdiv_core_binary prec emax (Zpos n) 0 (Zpos d) 0 in
  binary_round_aux prec emax s mz ez lz.

Definition toNumber (q : Q) : float :=
  SF2Prim (match Qnum q with
           | Z0 => S754_zero false
           | Zpos n => roundDiv false n (Qden q)
           | Zneg n => roundDiv true n (Qden q)
           end).

(** [idx + 1] for an array index [idx]. *)
Definition ofNat (n : nat) : float := PrimFloat.of_uint63 (Uint63.of_Z (Z.of_nat n)).

(** *** Property lookup

    The objects of the fusion step are created by literals, by [{}] and
    by [JSON.parse]: their prototype is [Object.prototype], and [o[k]]
    for a key that is not an own property finds what [Object.prototype]
    has under that name, a function or an object. *)
Definition objectPrototype : list string :=
  [ "constructor"; "__defineGetter__"; "__defineSetter__"; "hasOwnProperty";
    "__lookupGetter__"; "__lookupSetter__"; "isPrototypeOf";
    "propertyIsEnumerable"; "toString"; "valueOf"; "__proto__";
    "toLocaleString" ].

(** What the fusion step finds where it expects a number. *)
Inductive Value :=
| Num (x : float)
| Inherited.

(** [o[k]]: [None] is [undefined]. *)
Definition get (o : list (string * Value)) (k : string) : option Value :=
  match getProp o k with
  | Some v => Some v
  | None => if existsb (String.eqb k) objectPrototype then Some Inherited else None
  end.

(** [o[k] = v] on an object created by [{}]: the name ["__proto__"] is
    the setter of [Object.prototype], which stores no property (it
    replaces the prototype when [v] is an object, and then no lookup
    of the object follows in the code). *)
Definition assign {T} (o : list (string * T)) (k : string) (v : T) : list (string * T) :=
  if String.eqb k "__proto__" then o else setProp o k v.

(** [x * v], with [ToNumber] of a function or an object: NaN. *)
Definition times (x : float) (v : Value) : float :=
  match v with
  | Num w => (x * w)%float
  | Inherited => (x * nan)%float
  end.

(** The value of [totalWeight]: [+=] with a function or an object
    concatenates strings, and the text that results (the digits of a
    number followed by the source of a function or ["[object Object]"])
    is not the text of a number. *)
Inductive Total :=
| TNum (x : float)
| TText.

(** [t += v]. *)
Definition plus (t : Total) (v : Value) : Total :=
  match t, v with
  | TNum x, Num w => TNum (x + w)%float
  | _, _ => TText
  end.

(** [t === 0]. *)
Definition isZero (t : Total) : bool :=
  match t with
  | TNum x => (x =? 0)%float
  | TText => false
  end.

(** [x / t]. *)
Definition over (x : float) (t : Total) : float :=
  match t with
  | TNum w => (x / w)%float
  | TText => (x / nan)%float
  end.






End Js.

(** The outcome of an awaited [fetch]: a response with its status, or a
    rejection (transport error). *)
Inductive FetchOutcome :=
| Responded (status : Z)
| Rejected.

(** [response.ok]: the status is in the range 200-299. *)
Definition responseOk (status : Z) : bool := (200 <=? status) && (status <=? 299).

(** The [try] block runs to its end: the promise resolved and the
    response is ok. *)
Definition succeeded (outcome : FetchOutcome) : bool :=
  match outcome with
  | Responded status => responseOk status
  | Rejected => false
  end.

(** ** Indexing synchronisation, later revision (per-account keys) *)

Module Sync.
Import Js.

Record Store := mkStore {
  api_url : string;
  accountKeys : option (list (string * string));
  modelWeights : option (list (string * Q))
}.

(** The module-level tracking variables. *)
Record Tracking := mkTracking {
  lastUserId : option string;
  lastIndexedFavorites : list string;
  indexedModels : gset string;
  pendingIndexRequest : bool;
  lastRankingWeights : list (string * Q)
}.

Definition initialTracking : Tracking :=
  mkTracking None [] ∅ false [].

Definition getModelWeights (st : Store) : list (string * Q) :=
  match modelWeights st with
  | Some w => w
  | None => []
  end.

(** [settings.store.accountKeys ??= {}]: the store afterwards, and [s]. *)
Definition initAccountKeys (st : Store) : Store * list (string * string) :=
  match accountKeys st with
  | Some s => (st, s)
  | None => (mkStore (api_url st) (Some []) (modelWeights st), [])
  end.

(** [s[id]?.length !== 32]. *)
Definition keyMissing (s : list (string * string)) (id : string) : bool :=
  match getProp s id with
  | Some key => negb (String.length key =? 32)%nat
  | None => true
  end.

(** The [for ... of Object.entries(modelWeights)] loop of [shouldIndex],
    with its two early returns. *)
Fixpoint weightsLoop (entries : list (string * Q)) (t : Tracking) : bool :=
  match entries with
  | [] => false
  | (model, weight) :: rest =>
      let last := match getProp (lastRankingWeights t) model with
                  | Some w => w
                  | None => 0%Q
                  end in
      if Qeq_bool last 0 && gtb weight 0
         && negb (bool_decide (model ∈ indexedModels t)) then true
      else if gtb weight 0 && negb (bool_decide (model ∈ indexedModels t)) then true
      else weightsLoop rest t
  end.

Definition shouldIndex (user : string) (st : Store) (t : Tracking)
    (favorites : list Gif) : bool :=
  if negb (bool_decide (lastUserId t = Some user)) then true
  else
    let currentValidUrls := Validator.getValidGifUrls favorites in
    if negb (length currentValidUrls =? length (lastIndexedFavorites t))%nat
       || negb (every (eqAt (lastIndexedFavorites t)) currentValidUrls)
    then true
    else weightsLoop (getModelWeights st) t.

Record IndexRequest := mkIndexRequest {
  endpoint : string;
  names : list string;
  media_srcs : list string;
  models : list string
}.

(** The variables of [sendIndexRequest] that are live across its
    [await].  Its [modelWeights] is a reference to the object of the
    settings; what the code reads of it after the [await] is the
    object as it is then, which [sendIndexRequest_settle] takes as an
    argument. *)
Record Continuation := mkContinuation {
  k_id : string;
  k_names : list string;
  k_models : list string
}.

Inductive CallResult :=
| Returned
| Awaiting (request : IndexRequest) (k : Continuation).

(** The models with a positive weight, in [Object.entries] order. *)
Definition positiveModels (weights : list (string * Q)) : list string :=
  fold_left (fun models '(name, weight) =>
               if gtb weight 0 then (models ++ [name])%list else models)
            weights [].

Definition setPending (b : bool) (t : Tracking) : Tracking :=
  mkTracking (lastUserId t) (lastIndexedFavorites t) (indexedModels t) b
             (lastRankingWeights t).

(** [sendIndexRequest] from its call to its [await]. *)
Definition sendIndexRequest_call (user : string) (favorites : list Gif)
    (st : Store) (t : Tracking) : Store * Tracking * CallResult :=
  let '(st1, s) := initAccountKeys st in
  if pendingIndexRequest t || keyMissing s user then (st1, t, Returned)
  else
    let valid := Validator.validGifs favorites in
    if (length valid =? 0)%nat then (st1, t, Returned)
    else
      let names := map fst valid in
      let srcs := map snd valid in
      let weights := getModelWeights st1 in
      let models := positiveModels weights in
      if (length models =? 0)%nat then (st1, t, Returned)
      else
        let key := match getProp s user with Some k => k | None => "" end in
        (st1, setPending true t,
         Awaiting (mkIndexRequest (api_url st1 +:+ "/" +:+ key +:+ "/index")
                                  names srcs models)
                  (mkContinuation user names models)).

(** [models.forEach(model => indexedModels.add(model))]. *)
Definition addModels (models : list string) (indexed : gset string) : gset string :=
  fold_left (fun acc model => {[model]} ∪ acc) models indexed.

(** [sendIndexRequest] from the settling of the [fetch] to its return:
    the update on success, [catch], and [finally].  [modelWeights] is
    the object that the call read from the settings, as it is when the
    response arrives; [{ ...modelWeights }] copies it. *)
Definition sendIndexRequest_settle (k : Continuation) (outcome : FetchOutcome)
    (modelWeights : list (string * Q)) (t : Tracking) : Tracking :=
  let t1 :=
    match outcome with
    | Responded status =>
        if responseOk status then
          mkTracking (Some (k_id k)) (k_names k)
                     (addModels (k_models k) (indexedModels t))
                     (pendingIndexRequest t) modelWeights
        else t
    | Rejected => t
    end in
  setPending false t1.

(** What can happen to the indexer between two of its steps.  A change
    of the settings either leaves [settings.store.modelWeights] the
    object it was ([sameWeights]: the keys or the URL were edited, or
    [start] added the server's defaults to the object in place) or puts
    a new object there (the weights editor). *)
Inductive Event :=
| Call (user : string) (favorites : list Gif)
| Settle (outcome : FetchOutcome)
| SetStore (st : Store) (sameWeights : bool).

(** [captured] is the object that the outstanding call read from the
    settings, as it is now, and [aliased] says that the settings still
    hold that very object.  ([getModelWeights] returns a new object when
    the settings hold none.) *)
Record World := mkWorld {
  store : Store;
  tracking : Tracking;
  inFlight : option Continuation;
  sent : list IndexRequest;
  captured : list (string * Q);
  aliased : bool
}.

Definition initialWorld (st : Store) : World :=
  mkWorld st initialTracking None [] [] false.

Definition hasWeights (st : Store) : bool :=
  match modelWeights st with Some _ => true | None => false end.

Definition step (w : World) (e : Event) : World :=
  match e with
  | Call user favorites =>
      match sendIndexRequest_call user favorites (store w) (tracking w) with
      | (st, t, Returned) => mkWorld st t (inFlight w) (sent w) (captured w) (aliased w)
      | (st, t, Awaiting request k) =>
          mkWorld st t (Some k) (sent w ++ [request]) (getModelWeights st) (hasWeights st)
      end
  | Settle outcome =>
      match inFlight w with
      | Some k =>
          mkWorld (store w) (sendIndexRequest_settle k outcome (captured w) (tracking w))
                  None (sent w) (captured w) false
      | None => w
      end
  | SetStore st sameWeights =>
      let aliased' := aliased w && sameWeights && hasWeights st in
      mkWorld st (tracking w) (inFlight w) (sent w)
              (if aliased' then getModelWeights st else captured w) aliased'
  end.

Definition run (w : World) (events : list Event) : World :=
  fold_left step events w.

(** The event is not the settling of a submission: a call of
    [sendIndexRequest], or a change of the settings meanwhile. *)
Definition isCall (e : Event) : bool :=
  match e with Settle _ => false | _ => true end.

(** The event does not take the [accountKeys] record away from the
    settings (nothing in the plugin does). *)
Definition keepsAccountKeys (e : Event) : bool :=
  match e with
  | SetStore st _ => match accountKeys st with Some _ => true | None => false end
  | _ => true
  end.

(** A two-account session: the favourites are indexed for account A
    with model m1 enabled; the user disables m1 and enables m2, switches
    to account B, and the favourites are indexed for B; then m1 is
    enabled again. *)
Definition demoKeyA : string := "ABCDEFGHIJKLMNOPQRSTUVWXYZ012345".
Definition demoKeyB : string := "abcdefghijklmnopqrstuvwxyz678901".

Definition demoGif : Gif :=
  mkGif 1 "https://media.tenor.co/x/y.gif" 100 100 0 "https://tenor.com/view/y".

Definition demoStore (w1 w2 : Q) : Store :=
  mkStore "https://gif-search.woodie.dev"
          (Some [("A", demoKeyA); ("B", demoKeyB)])
          (Some [("m1", w1); ("m2", w2)]).

(** The first request of that session and what its call keeps. *)
Definition demoRequest : IndexRequest :=
  mkIndexRequest "https://gif-search.woodie.dev/ABCDEFGHIJKLMNOPQRSTUVWXYZ012345/index"
                 ["https://tenor.com/view/y"] ["https://media.tenor.co/x/y.gif"]
                 ["m1"].

Definition demoContinuation : Continuation :=
  mkContinuation "A" ["https://tenor.com/view/y"] ["m1"].

Definition accountSwitch : list Event :=
  [ Call "A" [demoGif]; Settle (Responded 200);
    SetStore (demoStore 0 1) false;
    Call "B" [demoGif]; Settle (Responded 200);
    SetStore (demoStore 1 1) false ].




End Sync.

(** ** Indexing synchronisation, earlier revision (two fixed models) *)

Module SyncV1.
Import Js.

Record Store := mkStore {
  api_url : string;
  user_key : string;
  VideoCLIP_XL_v2_ranking : Q;
  X_CLIP_ranking : Q
}.

Record LastWeights := mkLastWeights {
  VideoCLIP_XL_v2 : Q;
  X_CLIP : Q
}.

Record Tracking := mkTracking {
  lastIndexedFavorites : list string;
  indexedModels : gset Z;
  pendingIndexRequest : bool;
  lastRankingWeights : LastWeights
}.

Definition shouldIndex (st : Store) (t : Tracking) (favorites : list Gif) : bool :=
  let currentValidUrls := Validator.getValidGifUrls favorites in
  if negb (length currentValidUrls =? length (lastIndexedFavorites t))%nat
     || negb (every (eqAt (lastIndexedFavorites t)) currentValidUrls)
  then true
  else
    let currentVideoCLIPWeight := VideoCLIP_XL_v2_ranking st in
    let currentXCLIPWeight := X_CLIP_ranking st in
    if Qeq_bool (VideoCLIP_XL_v2 (lastRankingWeights t)) 0
       && gtb currentVideoCLIPWeight 0
       && negb (bool_decide (0 ∈ indexedModels t)) then true
    else if Qeq_bool (X_CLIP (lastRankingWeights t)) 0
            && gtb currentXCLIPWeight 0
            && negb (bool_decide (1 ∈ indexedModels t)) then true
    else if gtb currentVideoCLIPWeight 0
            && negb (bool_decide (0 ∈ indexedModels t)) then true
    else if gtb currentXCLIPWeight 0
            && negb (bool_decide (1 ∈ indexedModels t)) then true
    else false.

Record IndexRequest := mkIndexRequest {
  endpoint : string;
  names : list string;
  media_srcs : list string;
  models : list Z
}.

Record Continuation := mkContinuation {
  k_names : list string;
  k_models : list Z
}.

Inductive CallResult :=
| Returned
| Awaiting (request : IndexRequest) (k : Continuation).

Definition setPending (b : bool) (t : Tracking) : Tracking :=
  mkTracking (lastIndexedFavorites t) (indexedModels t) b (lastRankingWeights t).

Definition sendIndexRequest_call (favorites : list Gif) (st : Store)
    (t : Tracking) : Tracking * CallResult :=
  if pendingIndexRequest t || String.eqb (user_key st) "UNSET"
     || negb (String.length (user_key st) =? 32)%nat
  then (t, Returned)
  else
    let valid := Validator.validGifs favorites in
    if (length valid =? 0)%nat then (t, Returned)
    else
      let names := map fst valid in
      let srcs := map snd valid in
      let models0 := if gtb (VideoCLIP_XL_v2_ranking st) 0 then [0] else [] in
      let models := if gtb (X_CLIP_ranking st) 0
                    then (models0 ++ [1])%list else models0 in
      if (length models =? 0)%nat then (t, Returned)
      else
        (setPending true t,
         Awaiting (mkIndexRequest (api_url st +:+ "/" +:+ user_key st +:+ "/index")
                                  names srcs models)
                  (mkContinuation names models)).

Definition addModels (models : list Z) (indexed : gset Z) : gset Z :=
  fold_left (fun acc model => {[model]} ∪ acc) models indexed.

(** The weights are read from the settings when the response arrives. *)
Definition sendIndexRequest_settle (k : Continuation) (outcome : FetchOutcome)
    (st : Store) (t : Tracking) : Tracking :=
  let t1 :=
    match outcome with
    | Responded status =>
        if responseOk status then
          mkTracking (k_names k) (addModels (k_models k) (indexedModels t))
                     (pendingIndexRequest t)
                     (mkLastWeights (VideoCLIP_XL_v2_ranking st) (X_CLIP_ranking st))
        else t
    | Rejected => t
    end in
  setPending false t1.

Definition initialTracking : Tracking :=
  mkTracking [] ∅ false (mkLastWeights (1 # 2) (1 # 2)).

Definition demoStore : Store :=
  mkStore "https://gif-search.woodie.dev" Sync.demoKeyA 1 0.

Definition demoRequest : IndexRequest :=
  mkIndexRequest "https://gif-search.woodie.dev/ABCDEFGHIJKLMNOPQRSTUVWXYZ012345/index"
                 ["https://tenor.com/view/y"] ["https://media.tenor.co/x/y.gif"]
                 [0].

Definition demoContinuation : Continuation :=
  mkContinuation ["https://tenor.com/view/y"] [0].

End SyncV1.

(** ** Rank fusion *)

Module Fusion.
Import Js.

(** [xs.sort(compare)].  The sort is stable, and for a comparator that is
    a consistent ordering its result is determined: it is computed here
    by insertion from the right, where an element goes behind the
    elements that [compare] puts strictly before it
    ([compare(x, y) > 0]) and stays in front of the others.  A
    comparator of the form [a - b] is a consistent ordering of numbers
    none of which is NaN; with a NaN among them the standard leaves the
    order to the engine. *)
Fixpoint insertSorted {A} (compare : A -> A -> float) (x : A) (sorted : list A) : list A :=
  match sorted with
  | [] => [x]
  | y :: rest =>
      if (0 <? compare x y)%float then y :: insertSorted compare x rest
      else x :: sorted
  end.

Definition sort {A} (compare : A -> A -> float) (xs : list A) : list A :=
  fold_right (insertSorted compare) [] xs.

(** [(a, b) => a[1] - b[1]]: ascending raw score. *)
Definition byScore (a b : string * float) : float := (snd a - snd b)%float.

(** [sorted.forEach(([url], idx) => map.set(url, idx + 1))]. *)
Fixpoint setRanks (sorted : list (string * float)) (idx : nat)
    (map : gmap string nat) : gmap string nat :=
  match sorted with
  | [] => map
  | (url, _) :: rest => setRanks rest (S idx) (<[url := S idx]> map)
  end.

Definition rankingMap (results : list (string * float)) : gmap string nat :=
  setRanks (sort byScore results) 0 ∅.

(** Step 1: [rankingMaps[modelId] = map] for every entry of the
    response, in its order. *)
Definition rankingMaps (modelResults : list (string * list (string * float)))
    : list (string * gmap string nat) :=
  fold_left (fun maps '(modelId, results) => assign maps modelId (rankingMap results))
            modelResults [].

(** [allUrls.add(url)] on a set kept in insertion order. *)
Definition setAdd (url : string) (seen : list string) : list string :=
  if existsb (String.eqb url) seen then seen else (seen ++ [url])%list.

(** Step 2: all locators, in the order they are first met. *)
Definition allUrls (modelResults : list (string * list (string * float))) : list string :=
  fold_left (fun seen '(_, results) =>
               fold_left (fun seen '(url, _) => setAdd url seen) results seen)
            modelResults [].

(** [weights[modelId] ?? 0.5]. *)
Definition weightOf (weights : list (string * Value)) (modelId : string) : Value :=
  match get weights modelId with
  | Some v => v
  | None => Num 0.5%float
  end.

(** [1 / rank]. *)
Definition reciprocal (rank : nat) : float := (1 / ofNat rank)%float.

(** One iteration of the loop over [Object.entries(rankingMaps)]; the
    accumulator is [(totalScore, totalWeight)]. *)
Definition accumulate (weights : list (string * Value)) (url : string)
    (acc : float * Total) (entry : string * gmap string nat) : float * Total :=
  let '(modelId, rankMap) := entry in
  let weight := weightOf weights modelId in
  match rankMap !! url with
  | Some rank =>
      let score := reciprocal rank in
      ((fst acc + times score weight)%float, plus (snd acc) weight)
  | None => acc
  end.

(** The callback of [Array.from(allUrls).map]: [None] is [null]. *)
Definition aggregate (weights : list (string * Value))
    (maps : list (string * gmap string nat)) (favCopy : list Gif)
    (u : string) : option (float * Gif) :=
  let totals := fold_left (accumulate weights u) maps (0%float, TNum 0%float) in
  if isZero (snd totals) then None
  else match find (fun g => String.eqb (url g) u) favCopy with
       | Some gif => Some (over (fst totals) (snd totals), gif)
       | None => None
       end.

(** [.filter(Boolean)] on an array of objects and [null]s. *)
Fixpoint filterBoolean {A} (xs : list (option A)) : list A :=
  match xs with
  | [] => []
  | Some x :: rest => x :: filterBoolean rest
  | None :: rest => filterBoolean rest
  end.

(** [(a, b) => b.combinedScore - a.combinedScore]: descending. *)
Definition byCombinedScore (a b : float * Gif) : float := (fst b - fst a)%float.

(** Step 3: the [aggregated] array before it is sorted. *)
Definition aggregated (weights : list (string * Value))
    (modelResults : list (string * list (string * float)))
    (favCopy : list Gif) : list (float * Gif) :=
  filterBoolean (map (aggregate weights (rankingMaps modelResults) favCopy)
                     (allUrls modelResults)).

(** The [aggregated] array after [aggregated.sort]. *)
Definition fuseScored (weights : list (string * Value))
    (modelResults : list (string * list (string * float)))
    (favCopy : list Gif) : list (float * Gif) :=
  sort byCombinedScore (aggregated weights modelResults favCopy).

(** [aggregated.map(e => e.gif)]: the new [props.favorites]. *)
Definition fuse (weights : list (string * Value))
    (modelResults : list (string * list (string * float)))
    (favCopy : list Gif) : list Gif :=
  map snd (fuseScored weights modelResults favCopy).

(** The weights of the earlier revision: the two sliders under the
    model ids "0" and "1". *)
Definition weightsV1 (st : SyncV1.Store) : list (string * Value) :=
  [("0", Num (toNumber (SyncV1.VideoCLIP_XL_v2_ranking st)));
   ("1", Num (toNumber (SyncV1.X_CLIP_ranking st)))].

(** The weights record of the settings as the fusion step reads it. *)
Definition numbers (modelWeights : list (string * Q)) : list (string * Value) :=
  map (fun '(name, weight) => (name, Num (toNumber weight))) modelWeights.

(** [toLowerCase].  A character of a [string] is a UTF-16 code unit
    below 256; the letters with a lower-case form among them are A to Z,
    U+00C0 to U+00D6 and U+00D8 to U+00DE, and the form is 32 above. *)
Definition lowerChar (c : ascii) : ascii :=
  let n := nat_of_ascii c in
  if ((65 <=? n) && (n <=? 90) || (192 <=? n) && (n <=? 214)
      || (216 <=? n) && (n <=? 222))%nat
  then ascii_of_nat (n + 32) else c.

Fixpoint toLowerCase (s : string) : string :=
  match s with
  | EmptyString => EmptyString
  | String c s' => String (lowerChar c) (toLowerCase s')
  end.

(** What the body of the loop over [Object.keys(modelResults)] of the
    later revision assigns to [weights[modelId]]: what the settings have
    under that name; else, under the first of their names that equals
    it up to case; else 0.5.  (A value that were [undefined] would be
    read as 0.5 by [weights[modelId] ?? 0.5].) *)
Definition resolved (modelWeights : list (string * Value)) (modelId : string) : Value :=
  match get modelWeights modelId with
  | Some v => v
  | None =>
      match find (fun k => String.eqb (toLowerCase k) (toLowerCase modelId))
                 (map fst modelWeights) with
      | Some found =>
          if JsString.isEmpty found then Num 0.5%float
          else match get modelWeights found with
               | Some v => v
               | None => Num 0.5%float
               end
      | None => Num 0.5%float
      end
  end.

(** The weights of the later revision, assigned to the new object
    [weights] for every model id of the response. *)
Definition resolveWeights (modelWeights : list (string * Value))
    (modelResults : list (string * list (string * float))) : list (string * Value) :=
  fold_left (fun weights '(modelId, _) =>
               assign weights modelId (resolved modelWeights modelId))
            modelResults [].

(** The words of the specification. *)

(** The models that ranked [url], each with the rank it gave, in the
    order of the response. *)
Definition rankedBy (modelResults : list (string * list (string * float)))
    (url : string) : list (string * nat) :=
  flat_map (fun '(modelId, results) =>
              match rankingMap results !! url with
              | Some rank => [(modelId, rank)]
              | None => []
              end) modelResults.

(** The number a weight is, when it is one. *)
Definition numberOf (v : Value) : float :=
  match v with
  | Num w => w
  | Inherited => nan
  end.

(** A sum of numbers, added up from 0 in the order of the list. *)
Definition sum (xs : list float) : float := fold_left PrimFloat.add xs 0%float.

(** The sum, over the models that ranked [url], of their weights. *)
Definition specTotalWeight (weights : list (string * Value))
    (modelResults : list (string * list (string * float))) (url : string) : float :=
  sum (map (fun '(modelId, _) => numberOf (weightOf weights modelId))
           (rankedBy modelResults url)).

(** The sum, over the models that ranked [url], of weight * 1/rank. *)
Definition specTotalScore (weights : list (string * Value))
    (modelResults : list (string * list (string * float))) (url : string) : float :=
  sum (map (fun '(modelId, rank) =>
              (numberOf (weightOf weights modelId) * (1 / ofNat rank))%float)
           (rankedBy modelResults url)).

Definition specCombinedScore (weights : list (string * Value))
    (modelResults : list (string * list (string * float))) (url : string) : float :=
  (specTotalScore weights modelResults url / specTotalWeight weights modelResults url)%float.


(** None of the numbers is NaN. *)
Definition noNaN (xs : list float) : Prop :=
  Forall (fun x => is_nan x = false) xs.


(** [url] is returned by some model. *)
Definition returned (modelResults : list (string * list (string * float)))
    (url : string) : Prop :=
  exists modelId results score,
    In (modelId, results) modelResults /\ In (url, score) results.

(** [a] is ranked above [b] in [out]. *)
Definition rankedAbove (out : list Gif) (a b : Gif) : Prop :=
  exists i j, out !! i = Some a /\ out !! j = Some b /\ (i < j)%nat.

(** The example of the specification: model A returns x, y, z with raw
    scores 1, 2, 3 and model B returns y, x with raw scores 1, 2; both
    weights are 1. *)
Definition exampleGif (name : string) : Gif :=
  mkGif 1 ("https://media.tenor.co/" +:+ name +:+ ".gif") 100 100 0 name.

Definition exampleFavCopy : list Gif :=
  [exampleGif "z"; exampleGif "w"; exampleGif "y"; exampleGif "x"].

Definition exampleA : string * list (string * float) :=
  ("A", [("x", 1%float); ("y", 2%float); ("z", 3%float)]).

Definition exampleB : string * list (string * float) :=
  ("B", [("y", 1%float); ("x", 2%float)]).

Definition exampleWeights : list (string * Value) :=
  [("A", Num 1%float); ("B", Num 1%float)].

(** Two locators whose combined scores are equal as rationals (7/24)
    and differ in binary64: u has the ranks 3 and 4, v the ranks 2 and
    12, both weights are 1.  Model A returns u first. *)
Definition roundingA : string * list (string * float) :=
  ("A", [("u", 3%float); ("v", 2%float); ("a1", 1%float)]).

Definition roundingB : string * list (string * float) :=
  ("B", [("b1", 1%float); ("b2", 2%float); ("b3", 3%float); ("u", 4%float);
         ("b5", 5%float); ("b6", 6%float); ("b7", 7%float); ("b8", 8%float);
         ("b9", 9%float); ("b10", 10%float); ("b11", 11%float); ("v", 12%float)]).

Definition roundingFavCopy : list Gif := [exampleGif "u"; exampleGif "v"].

(** A single model, A, that returns c, b, a with the raw scores 3, 2, 1,
    and the smallest positive binary64 number for its weight. *)
Definition smallest : float := 0x1p-1074%float.

Definition underflowA : string * list (string * float) :=
  ("A", [("c", 3%float); ("b", 2%float); ("a", 1%float)]).

Definition underflowFavCopy : list Gif :=
  [exampleGif "a"; exampleGif "b"; exampleGif "c"].

End Fusion.

(** ** Query orchestration (the [SearchBar] component)

    The component is a state machine whose steps are the handlers and
    callbacks the host, the timer and the network run: [onChange] and
    [onClear], the cleanup on unmount, the firing of the debounce timer
    and the settling of a search.  [onChange], [onClear], the cleanup and
    the [catch] block are the same in both revisions; the request and
    the weights are those of the later one.  A state update of
    [debouncedQuery] and the effect that depends on it are one step, and
    an aborted [fetch] rejects with an [AbortError].

    [performSearch] keeps two references across its [await]: [props],
    the object that [instance.props] was when the search started, and
    [modelWeights], the object of the settings.  The host gives the
    instance a new [props] object whenever it renders again, and the
    settings get a new weights object from the weights editor, so
    objects have identities here: a number each. *)

Module Orchestrator.
Import Js.

(** [instance.props]; [None] is [null] or [undefined]. *)
Record Props := mkProps {
  favCopy : option (list Gif);
  favorites : option (list Gif)
}.

Inductive ConsoleLine :=
| ConsoleLog (message : string)
| ConsoleError (message : string).

Definition isError (line : ConsoleLine) : bool :=
  match line with ConsoleError _ => true | ConsoleLog _ => false end.

(** What the network delivers for a search: a response with its status
    and, when it parses, the [results] of its body; or a transport
    error. *)
Inductive SearchOutcome :=
| SearchResponded (status : Z) (results : option (list (string * list (string * float))))
| SearchRejected.

(** A [fetch] of [performSearch] that has not settled, with the variables
    of [performSearch] that are live across the [await]:
    [r_modelWeights] is the weights object it read, as it is now, and
    [r_weightsObject] its identity ([None] for the new object that
    [getModelWeights] returns when the settings hold none); [r_props] is
    the identity of the [props] object it read and [r_favCopy] the
    [favCopy] of that object, which nothing assigns. *)
Record Request := mkRequest {
  controller : nat;
  requestUrl : string;
  r_modelWeights : list (string * Q);
  r_weightsObject : option nat;
  r_props : nat;
  r_favCopy : option (list Gif)
}.

Record State := mkState {
  query : string;
  debouncedQuery : string;
  (** [debounceTimeoutRef.current]: the id of the last timer set. *)
  debounceTimeoutRef : option nat;
  (** The timers that are set and have not fired: id and captured query. *)
  timers : list (nat * string);
  (** [abortControllerRef.current]: the last controller created. *)
  abortControllerRef : option nat;
  (** The controllers whose [abort()] has been called. *)
  aborted : gset nat;
  pending : list Request;
  (** The next timer or controller id. *)
  nextId : nat;
  props : Props;
  dead : bool;
  forceUpdates : nat;
  console : list ConsoleLine;
  store : Sync.Store;
  user : string;
  (** The identities of [instance.props] and of
      [settings.store.modelWeights]. *)
  propsObject : nat;
  weightsObject : nat
}.

Definition initial (st : Sync.Store) (user : string) (p : Props) : State :=
  mkState "" "" None [] None ∅ [] 0 p false 0 [] st user 0 0.

(** [if (ref.current) clearTimeout(ref.current)]. *)
Definition clearDebounce (s : State) : list (nat * string) :=
  match debounceTimeoutRef s with
  | Some id => List.filter (fun t => negb (fst t =? id)%nat) (timers s)
  | None => timers s
  end.

(** [if (ref.current) ref.current.abort()]. *)
Definition abortCurrent (s : State) : gset nat :=
  match abortControllerRef s with
  | Some c => {[c]} ∪ aborted s
  | None => aborted s
  end.

(** [models.join(",")]. *)
Definition encodeModels (weights : list (string * Q)) : string :=
  String.concat "," (Sync.positiveModels weights).

(** [performSearch] from its call to the [await] of [fetch]. *)
Definition performSearch_call (s : State) : State :=
  let '(st1, keys) := Sync.initAccountKeys (store s) in
  if Sync.keyMissing keys (user s) then
    mkState (query s) (debouncedQuery s) (debounceTimeoutRef s) (timers s)
            (abortControllerRef s) (aborted s) (pending s) (nextId s)
            (props s) (dead s) (forceUpdates s) (console s) st1 (user s)
            (propsObject s) (weightsObject s)
  else
    let c := nextId s in
    let weights := Sync.getModelWeights st1 in
    let key := match getProp keys (user s) with Some k => k | None => "" end in
    let request :=
      mkRequest c (Sync.api_url st1 +:+ "/" +:+ key +:+ "/search?text="
                   +:+ JsString.encodeURIComponent (debouncedQuery s)
                   +:+ "&models=" +:+ JsString.encodeURIComponent (encodeModels weights)
                   +:+ "&k=10000")
                weights
                (if Sync.hasWeights st1 then Some (weightsObject s) else None)
                (propsObject s) (favCopy (props s)) in
    mkState (query s) (debouncedQuery s) (debounceTimeoutRef s) (timers s)
            (Some c) (aborted s) (pending s ++ [request]) (S c)
            (props s) (dead s) (forceUpdates s) (console s) st1 (user s)
            (propsObject s) (weightsObject s).

(** [setDebouncedQuery(q)] and the effect that depends on
    [debouncedQuery]: it runs when the value changes, and starts a
    search unless the value is the empty string. *)
Definition setDebouncedQuery (q : string) (s : State) : State :=
  if String.eqb q (debouncedQuery s) then s
  else
    let s1 := mkState (query s) q (debounceTimeoutRef s) (timers s)
                      (abortControllerRef s) (aborted s) (pending s) (nextId s)
                      (props s) (dead s) (forceUpdates s) (console s)
                      (store s) (user s) (propsObject s) (weightsObject s) in
    if String.eqb q "" then s1 else performSearch_call s1.

Definition onChange (searchQuery : string) (s : State) : State :=
  let s1 := mkState searchQuery (debouncedQuery s) (debounceTimeoutRef s)
                    (clearDebounce s) (abortControllerRef s) (abortCurrent s)
                    (pending s) (nextId s) (props s) (dead s) (forceUpdates s)
                    (console s) (store s) (user s) (propsObject s) (weightsObject s) in
  if String.eqb searchQuery "" then
    let s2 := setDebouncedQuery "" s1 in
    mkState (query s2) (debouncedQuery s2) (debounceTimeoutRef s2) (timers s2)
            (abortControllerRef s2) (aborted s2) (pending s2) (nextId s2)
            (mkProps (favCopy (props s2)) (favCopy (props s2))) (dead s2)
            (S (forceUpdates s2)) (console s2) (store s2) (user s2) (propsObject s2) (weightsObject s2)
  else
    let id := nextId s1 in
    mkState (query s1) (debouncedQuery s1) (Some id)
            (timers s1 ++ [(id, searchQuery)]) (abortControllerRef s1)
            (aborted s1) (pending s1) (S id) (props s1) (dead s1)
            (forceUpdates s1) (console s1) (store s1) (user s1) (propsObject s1) (weightsObject s1).

Definition onClear (s : State) : State :=
  let s1 := mkState "" (debouncedQuery s) (debounceTimeoutRef s)
                    (clearDebounce s) (abortControllerRef s) (abortCurrent s)
                    (pending s) (nextId s) (props s) (dead s) (forceUpdates s)
                    (console s) (store s) (user s) (propsObject s) (weightsObject s) in
  let s2 := setDebouncedQuery "" s1 in
  match favCopy (props s2) with
  | Some fc =>
      mkState (query s2) (debouncedQuery s2) (debounceTimeoutRef s2) (timers s2)
              (abortControllerRef s2) (aborted s2) (pending s2) (nextId s2)
              (mkProps (Some fc) (Some fc)) (dead s2)
              (S (forceUpdates s2)) (console s2) (store s2) (user s2) (propsObject s2) (weightsObject s2)
  | None => s2
  end.

(** The cleanup of the component's last effect. *)
Definition unmount (s : State) : State :=
  mkState (query s) (debouncedQuery s) (debounceTimeoutRef s)
          (clearDebounce s) (abortControllerRef s) (abortCurrent s)
          (pending s) (nextId s) (props s) true (forceUpdates s)
          (console s) (store s) (user s) (propsObject s) (weightsObject s).

(** The debounce timer [id] fires, if it is still set. *)
Definition timerFires (id : nat) (s : State) : State :=
  match find (fun t => (fst t =? id)%nat) (timers s) with
  | Some (_, searchQuery) =>
      setDebouncedQuery searchQuery
        (mkState (query s) (debouncedQuery s) (debounceTimeoutRef s)
                 (List.filter (fun t => negb (fst t =? id)%nat) (timers s))
                 (abortControllerRef s) (aborted s) (pending s) (nextId s)
                 (props s) (dead s) (forceUpdates s) (console s)
                 (store s) (user s) (propsObject s) (weightsObject s))
  | None => s
  end.

(** Some locator reaches [props.favCopy.find]. *)
Definition reachesFind (weights : list (string * Value))
    (modelResults : list (string * list (string * float))) : bool :=
  existsb (fun u =>
             negb (isZero
                     (snd (fold_left (Fusion.accumulate weights u)
                                     (Fusion.rankingMaps modelResults)
                                     (0%float, TNum 0%float)))))
          (Fusion.allUrls modelResults).

(** What the body of the [try] block computes once the response is
    there, from the [favCopy] of the [props] object of the search: the
    array it assigns to [props.favorites], or [None] when it throws. *)
Definition applyResponse (r : Request) (outcome : SearchOutcome)
    (favCopy : option (list Gif)) : option (list Gif) :=
  match outcome with
  | SearchRejected => None
  | SearchResponded status body =>
      if responseOk status then
        match body with
        | None => None
        | Some modelResults =>
            let weights :=
              Fusion.resolveWeights (Fusion.numbers (r_modelWeights r)) modelResults in
            match favCopy with
            | Some fc => Some (Fusion.fuse weights modelResults fc)
            | None => if reachesFind weights modelResults then None else Some []
            end
        end
      else None
  end.

(** The [props] object of the search is still [instance.props]. *)
Definition sameProps (r : Request) (s : State) : bool :=
  (r_props r =? propsObject s)%nat.

(** [props.favCopy] of the [props] object of the search. *)
Definition favCopyOf (r : Request) (s : State) : option (list Gif) :=
  if sameProps r s then favCopy (props s) else r_favCopy r.

(** [performSearch] from the settling of its [fetch] to its return.  The
    promise of a request whose controller is aborted rejects with an
    [AbortError], whatever the network delivers.  The assignment to
    [props.favorites] changes [instance.props] when that is still the
    object of the search, and an object that the instance no longer has
    otherwise. *)
Definition performSearch_settle (r : Request) (outcome : SearchOutcome)
    (s : State) : State :=
  let rest := List.filter (fun r' => negb (controller r' =? controller r)%nat)
                          (pending s) in
  if bool_decide (controller r ∈ aborted s) then
    mkState (query s) (debouncedQuery s) (debounceTimeoutRef s) (timers s)
            (abortControllerRef s) (aborted s) rest (nextId s) (props s) (dead s)
            (forceUpdates s) (console s ++ [ConsoleLog "Fetch aborted"])
            (store s) (user s) (propsObject s) (weightsObject s)
  else
    match applyResponse r outcome (favCopyOf r s) with
    | Some out =>
        mkState (query s) (debouncedQuery s) (debounceTimeoutRef s) (timers s)
                (abortControllerRef s) (aborted s) rest (nextId s)
                (if sameProps r s then mkProps (favCopy (props s)) (Some out)
                 else props s)
                (dead s)
                (S (forceUpdates s)) (console s) (store s) (user s)
                (propsObject s) (weightsObject s)
    | None =>
        mkState (query s) (debouncedQuery s) (debounceTimeoutRef s) (timers s)
                (abortControllerRef s) (aborted s) rest (nextId s) (props s)
                (dead s) (S (forceUpdates s))
                (console s ++ [ConsoleError "Error fetching search results:"])
                (store s) (user s) (propsObject s) (weightsObject s)
    end.

(** A change of the weights object in place reaches the searches that
    hold the object. *)
Definition refresh (object : nat) (weights : list (string * Q)) (r : Request) : Request :=
  match r_weightsObject r with
  | Some o =>
      if (o =? object)%nat
      then mkRequest (controller r) (requestUrl r) weights (r_weightsObject r)
                     (r_props r) (r_favCopy r)
      else r
  | None => r
  end.

(** What happens to the component.  [HostSets]: the host renders again
    and gives the instance a new [props] object.  [StoreSets]: the
    settings change, and [settings.store.modelWeights] is the object it
    was ([sameWeights]) or a new one.  [UserSets]: another account
    becomes the current one. *)
Inductive Event :=
| OnChange (searchQuery : string)
| OnClear
| Unmount
| TimerFires (id : nat)
| SearchSettles (c : nat) (outcome : SearchOutcome)
| HostSets (p : Props)
| StoreSets (st : Sync.Store) (sameWeights : bool)
| UserSets (user : string).

Definition step (s : State) (e : Event) : State :=
  match e with
  | OnChange searchQuery => onChange searchQuery s
  | OnClear => onClear s
  | Unmount => unmount s
  | TimerFires id => timerFires id s
  | SearchSettles c outcome =>
      match find (fun r => (controller r =? c)%nat) (pending s) with
      | Some r => performSearch_settle r outcome s
      | None => s
      end
  | HostSets p =>
      mkState (query s) (debouncedQuery s) (debounceTimeoutRef s) (timers s)
              (abortControllerRef s) (aborted s) (pending s) (nextId s) p (dead s)
              (forceUpdates s) (console s) (store s) (user s)
              (S (propsObject s)) (weightsObject s)
  | StoreSets st sameWeights =>
      if sameWeights && Sync.hasWeights st then
        mkState (query s) (debouncedQuery s) (debounceTimeoutRef s) (timers s)
                (abortControllerRef s) (aborted s)
                (map (refresh (weightsObject s) (Sync.getModelWeights st)) (pending s))
                (nextId s) (props s) (dead s)
                (forceUpdates s) (console s) st (user s)
                (propsObject s) (weightsObject s)
      else
        mkState (query s) (debouncedQuery s) (debounceTimeoutRef s) (timers s)
                (abortControllerRef s) (aborted s) (pending s) (nextId s) (props s)
                (dead s) (forceUpdates s) (console s) st (user s)
                (propsObject s) (S (weightsObject s))
  | UserSets u =>
      mkState (query s) (debouncedQuery s) (debounceTimeoutRef s) (timers s)
              (abortControllerRef s) (aborted s) (pending s) (nextId s) (props s)
              (dead s) (forceUpdates s) (console s) (store s) u
              (propsObject s) (weightsObject s)
  end.

Definition run (s : State) (events : list Event) : State :=
  fold_left step events s.

(** The events that supersede the current search session. *)
Definition supersedes (e : Event) : bool :=
  match e with
  | OnChange _ | OnClear | Unmount => true
  | _ => false
  end.

(** The invariant of the component: every timer that is set is the one
    the ref names; a search that has not settled was aborted unless its
    controller is the one the ref names; and while a timer is set, every
    such search was aborted. *)
Definition invariant (s : State) : Prop :=
  (forall t, In t (timers s) -> debounceTimeoutRef s = Some (fst t)) /\
  (forall r, In r (pending s) ->
             controller r ∈ aborted s \/ abortControllerRef s = Some (controller r)) /\
  (timers s <> [] -> forall r, In r (pending s) -> controller r ∈ aborted s).

(** A session: "cat" is typed and its search starts; then "c" is typed
    and its search starts; then the response to "cat" arrives. *)
Definition demoProps : Props :=
  mkProps (Some Fusion.exampleFavCopy) (Some Fusion.exampleFavCopy).

Definition demoStart : State :=
  initial (Sync.demoStore 1 1) "A" demoProps.

Definition demoResponse : SearchOutcome :=
  SearchResponded 200 (Some [("m1", [("x", 1%float); ("y", 2%float)])]).

End Orchestrator.

(** ** Settings: weights, keys and their editors *)

Module Settings.
Import Js.


Definition setWeights (st : Sync.Store) (weights : list (string * Q)) : Sync.Store :=
  Sync.mkStore (Sync.api_url st) (Sync.accountKeys st) (Some weights).

(** [setModelWeight] of the weights editor: the component's [models] and
    the settings afterwards. *)
Definition setModelWeight (models : list (string * Q)) (name : string) (weight : Q)
    (st : Sync.Store) : list (string * Q) * Sync.Store :=
  let next := setProp models name weight in
  (next, setWeights st next).




(** [saveUserKey] of the key editor. *)
Definition saveUserKey (id newKey : string) (st : Sync.Store) : Sync.Store :=
  let '(st1, keys) := Sync.initAccountKeys st in
  Sync.mkStore (Sync.api_url st1) (Some (setProp keys id newKey)) (Sync.modelWeights st1).

Definition charset : string :=
  "ABCDEFGHIJKLMNOPQRSTUVWXYZabcdefghijklmnopqrstuvwxyz0123456789".

(** [s.charAt(i)]: the empty string when [i] is out of range. *)
Definition charAt (s : string) (i : nat) : string :=
  match String.get i s with
  | Some c => String c EmptyString
  | None => EmptyString
  end.

(** The key loop, from iteration [i], with [n] iterations to go;
    [draw i] is [Math.floor(Math.random() * charset.length)] of
    iteration [i]. *)
Fixpoint keyLoop (draw : nat -> nat) (i n : nat) (key : string) : string :=
  match n with
  | O => key
  | S n' => keyLoop draw (S i) n' (key +:+ charAt charset (draw i))
  end.

Definition generateKey (draw : nat -> nat) : string := keyLoop draw 0 32 "".

(** The characters a key is made of. *)
Definition alphanumeric (c : ascii) : bool :=
  let n := nat_of_ascii c in
  ((65 <=? n) && (n <=? 90) || (97 <=? n) && (n <=? 122)
   || (48 <=? n) && (n <=? 57))%nat.

Fixpoint allChars (p : ascii -> bool) (s : string) : bool :=
  match s with
  | EmptyString => true
  | String c s' => p c && allChars p s'
  end.

(** [Object.entries(w).filter(([, w]) => w > 0).map(([name]) => name)]:
    the models a search asks for. *)
Definition searchModels (weights : list (string * Q)) : list string :=
  map fst (List.filter (fun entry => gtb (snd entry) 0) weights).

End Settings.

(** ** The plugin object: [getFav] *)

Module Plugin.
Import Js.

(** [filteredFavorites != null && filteredFavorites?.length !==
    favorites.length ? filteredFavorites : favorites]. *)
Definition favoritesToReturn (filtered : option (list Gif)) (favorites : list Gif)
    : list Gif :=
  match filtered with
  | Some f => if negb (length f =? length favorites)%nat then f else favorites
  | None => favorites
  end.

(** [getFav] of the later revision.  [instance] is the host component
    the search bar was rendered for, if any; the result is what the host
    shows, the settings and tracking variables afterwards, and what the
    call of [sendIndexRequest] did, if it was made. *)
Definition getFav (instance : option Orchestrator.State) (draw : nat -> nat)
    (user : string) (favorites : list Gif) (st : Sync.Store) (t : Sync.Tracking)
    : list Gif * Sync.Store * Sync.Tracking * Sync.CallResult :=
  match instance with
  | None => (favorites, st, t, Sync.Returned)
  | Some i =>
      if Orchestrator.dead i then (favorites, st, t, Sync.Returned)
      else
        let favoritesToReturn :=
          favoritesToReturn (Orchestrator.favorites (Orchestrator.props i)) favorites in
        let '(st1, keys) := Sync.initAccountKeys st in
        let st2 :=
          match getProp keys user with
          | None =>
              Sync.mkStore (Sync.api_url st1)
                           (Some (setProp keys user (Settings.generateKey draw)))
                           (Sync.modelWeights st1)
          | Some _ => st1
          end in
        if Sync.shouldIndex user st2 t favorites then
          let '(st3, t3, result) := Sync.sendIndexRequest_call user favorites st2 t in
          (favoritesToReturn, st3, t3, result)
        else (favoritesToReturn, st2, t, Sync.Returned)
  end.

End Plugin.

(** ** Counting the indexer's traffic *)

Module Traffic.

Definition flag (w : Sync.World) : nat :=
  if Sync.pendingIndexRequest (Sync.tracking w) then 1%nat else 0%nat.

(** The responses and rejections among the events. *)
Definition settles (events : list Sync.Event) : nat :=
  length (List.filter (fun e => negb (Sync.isCall e)) events).

End Traffic.

(** ** More about the component's state *)

Module Liveness.
Import Orchestrator.

(** Ids are handed out in increasing order: every controller in use is
    below the next id, and no two searches share one. *)
Definition fresh (s : State) : Prop :=
  (forall r, In r (pending s) -> (controller r < nextId s)%nat) /\
  NoDup (map controller (pending s)) /\
  (forall c, abortControllerRef s = Some c -> (c < nextId s)%nat) /\
  (forall c, c ∈ aborted s -> (c < nextId s)%nat).

(** At most one debounce timer is set, and it carries a query that is
    not empty. *)
Definition debounced (s : State) : Prop :=
  (length (timers s) <= 1)%nat /\ forall t, In t (timers s) -> snd t <> "".

(** The searches that have not settled and were not aborted. *)
Definition live (s : State) : list Request :=
  List.filter (fun r => negb (bool_decide (controller r ∈ aborted s))) (pending s).


(** The URL of the search for [q] with the key [key]. *)
Definition searchUrl (st : Sync.Store) (key q : string) : string :=
  Sync.api_url st +:+ "/" +:+ key +:+ "/search?text="
  +:+ JsString.encodeURIComponent q +:+ "&models="
  +:+ JsString.encodeURIComponent
        (String.concat "," (Settings.searchModels (Sync.getModelWeights st)))
  +:+ "&k=10000".

(** The outcome makes the [try] block throw. *)
Definition failure (outcome : SearchOutcome) : bool :=
  match outcome with
  | SearchRejected => true
  | SearchResponded status body =>
      negb (responseOk status) || match body with None => true | Some _ => false end
  end.

End Liveness.

(** ** The order of binary64 numbers *)

Module Number.

(** The position of a number that is not NaN on a line of triples
    ordered lexicographically. *)
Definition place (x : spec_float) : Z * Z * Z :=
  match x with
  | S754_zero _ => (0, 0, 0)
  | S754_infinity s => (if s then -2 else 2, 0, 0)
  | S754_nan => (0, 0, 0)
  | S754_finite s m e => if s then (-1, - e, - Zpos m) else (1, e, Zpos m)
  end.

Definition lex (a b : Z * Z * Z) : comparison :=
  let '(a1, a2, a3) := a in
  let '(b1, b2, b3) := b in
  match a1 ?= b1 with
  | Eq => match a2 ?= b2 with
          | Eq => a3 ?= b3
          | c => c
          end
  | c => c
  end.

(** The sign of a number that is neither zero nor NaN. *)
Definition signed (s : bool) (x : spec_float) : Prop :=
  match x with
  | S754_finite s' _ _ | S754_infinity s' => s' = s
  | _ => False
  end.

End Number.

(** ** The order of binary64 numbers *)

Module NumberFacts.
Import Number.

Lemma SFcompare_place (x y : spec_float) :
  x <> S754_nan -> y <> S754_nan -> SFcompare x y = Some (lex (place x) (place y)).
Proof.
  intros Hx Hy.
  destruct x as [sx|sx| |sx mx ex], y as [sy|sy| |sy my ey]; try congruence;
    try (destruct sx; reflexivity); try (destruct sy; reflexivity);
    try (destruct sx, sy; reflexivity).
  destruct sx, sy; simpl; try reflexivity.
  rewrite Z.compare_opp, (Z.compare_antisym ex ey).
  destruct (ex ?= ey); reflexivity.
Qed.

(** Order facts, read off the places. *)
Lemma lex_refl (a : Z * Z * Z) : lex a a = Eq.
Proof. destruct a as [[a1 a2] a3]. simpl. now rewrite !Z.compare_refl. Qed.

Lemma lex_spec (a b : Z * Z * Z) :
  let '(a1, a2, a3) := a in
  let '(b1, b2, b3) := b in
  match lex a b with
  | Lt => a1 < b1 \/ (a1 = b1 /\ (a2 < b2 \/ (a2 = b2 /\ a3 < b3)))
  | Eq => a1 = b1 /\ a2 = b2 /\ a3 = b3
  | Gt => b1 < a1 \/ (a1 = b1 /\ (b2 < a2 \/ (a2 = b2 /\ b3 < a3)))
  end.
Proof.
  destruct a as [[a1 a2] a3], b as [[b1 b2] b3]. simpl.
  destruct (Z.compare_spec a1 b1), (Z.compare_spec a2 b2), (Z.compare_spec a3 b3); lia.
Qed.

(** Digits and shifts. *)
Lemma digits_bounds (m : positive) :
  2 ^ (Zpos (digits2_pos m) - 1) <= Zpos m < 2 ^ Zpos (digits2_pos m).
Proof.
  induction m as [m IH|m IH|]; cbn [digits2_pos].
  - rewrite Pos2Z.inj_succ, Z.pow_succ_r by lia.
    replace (Z.succ (Zpos (digits2_pos m)) - 1) with (Z.succ (Zpos (digits2_pos m) - 1)) by lia.
    rewrite Z.pow_succ_r by lia. lia.
  - rewrite Pos2Z.inj_succ, Z.pow_succ_r by lia.
    replace (Z.succ (Zpos (digits2_pos m)) - 1) with (Z.succ (Zpos (digits2_pos m) - 1)) by lia.
    rewrite Z.pow_succ_r by lia. lia.
  - simpl. lia.
Qed.

Lemma iter_xO (m d : positive) : Zpos (Pos.iter xO m d) = Zpos m * 2 ^ Zpos d.
Proof.
  induction d as [|d IH] using Pos.peano_ind.
  - simpl. lia.
  - rewrite Pos.iter_succ, Pos2Z.inj_succ, Z.pow_succ_r by lia.
    rewrite Pos2Z.inj_xO, IH. lia.
Qed.

Lemma shl_align_value (m : positive) (e e' : Z) :
  e' <= e ->
  Zpos (fst (shl_align m e e')) = Zpos m * 2 ^ (e - e') /\
  snd (shl_align m e e') = e'.
Proof.
  intros H. unfold shl_align. destruct (e' - e) as [|d|d] eqn:D; cbn [fst snd].
  - replace (e - e') with 0 by lia. rewrite Z.pow_0_r. split; lia.
  - lia.
  - rewrite iter_xO. replace (e - e') with (Zpos d) by lia. split; reflexivity.
Qed.

Lemma shr_1_m (r : shr_record) : 0 <= shr_m r -> shr_m (shr_1 r) = shr_m r / 2.
Proof.
  destruct r as [m r s]. cbn [shr_m]. intros H.
  destruct m as [|[m|m|]|m]; cbn [shr_1 shr_m]; try lia; try reflexivity.
  - apply Z.div_unique with 1; lia.
  - apply Z.div_unique with 0; lia.
Qed.

Lemma iter_shr_1_m (n : positive) (r : shr_record) :
  0 <= shr_m r -> shr_m (SpecFloat.iter_pos shr_1 n r) = shr_m r / 2 ^ Zpos n.
Proof.
  revert r; induction n as [n IH|n IH|]; intros r H; cbn [SpecFloat.iter_pos].
  - assert (H1 : 0 <= shr_m (shr_1 r)) by (rewrite shr_1_m by exact H; apply Z.div_pos; lia).
    assert (H2 : 0 <= shr_m (SpecFloat.iter_pos shr_1 n (shr_1 r)))
      by (rewrite IH by exact H1; apply Z.div_pos; [exact H1 | apply Z.pow_pos_nonneg; lia]).
    rewrite IH, IH, shr_1_m by assumption.
    rewrite !Z.div_div by (try apply Z.pow_pos_nonneg; lia).
    f_equal. rewrite Pos2Z.inj_xI, <- Z.pow_add_r, <- (Z.pow_1_r 2) at 1 by lia.
    rewrite <- Z.pow_add_r by lia. f_equal. lia.
  - assert (H2 : 0 <= shr_m (SpecFloat.iter_pos shr_1 n r))
      by (rewrite IH by exact H; apply Z.div_pos; [exact H | apply Z.pow_pos_nonneg; lia]).
    rewrite IH, IH by assumption.
    rewrite !Z.div_div by (try apply Z.pow_pos_nonneg; lia).
    f_equal. rewrite Pos2Z.inj_xO, <- Z.pow_add_r by lia. f_equal. lia.
  - rewrite shr_1_m by exact H. now rewrite Z.pow_1_r.
Qed.

Lemma shr_fexp_pos (m e : Z) (l : location) :
  0 < m -> emin <= e ->
  0 < shr_m (fst (shr_fexp prec emax m e l)) /\ emin <= snd (shr_fexp prec emax m e l).
Proof.
  intros Hm He. unfold shr_fexp, shr.
  assert (Hr : shr_m (shr_record_of_loc m l) = m) by (destruct l as [|[]]; reflexivity).
  destruct (fexp prec emax (Zdigits2 m + e) - e) as [|n|n] eqn:N; simpl; rewrite ?Hr;
    try (split; assumption).
  rewrite iter_shr_1_m by (rewrite Hr; lia). rewrite Hr.
  destruct m as [|m|m]; try lia. cbn [Zdigits2] in N.
  pose proof (digits_bounds m) as [Hd _].
  unfold fexp, SpecFloat.emin, FloatOps.prec, FloatOps.emax in *.
  assert (Hn : Zpos n = Zpos (digits2_pos m) - 53) by lia.
  split; [| lia].
  apply Z.lt_le_trans with (2 ^ 52 / 1); [reflexivity |].
  rewrite Z.div_1_r.
  apply Z.div_le_lower_bound; [apply Z.pow_pos_nonneg; lia |].
  rewrite Hn, Z.mul_comm, <- Z.pow_add_r by lia.
  replace (52 + (Zpos (digits2_pos m) - 53)) with (Zpos (digits2_pos m) - 1) by lia.
  exact Hd.
Qed.

Lemma binary_round_aux_signed (s : bool) (m e : Z) (l : location) :
  0 < m -> emin <= e -> signed s (binary_round_aux prec emax s m e l).
Proof.
  intros Hm He. unfold binary_round_aux.
  destruct (shr_fexp_pos m e l Hm He) as [H1 H2].
  destruct (shr_fexp prec emax m e l) as [r' e']. simpl in H1, H2.
  set (m' := round_nearest_even (shr_m r') (loc_of_shr_record r')).
  assert (Hm' : 0 < m').
  { subst m'. unfold round_nearest_even.
    destruct (loc_of_shr_record r') as [|[]]; try destruct (Z.even _); lia. }
  destruct (shr_fexp_pos m' e' loc_Exact Hm' H2) as [H3 _].
  destruct (shr_fexp prec emax m' e' loc_Exact) as [r'' e'']. simpl in H3.
  destruct (shr_m r'') as [|m''|m'']; try lia.
  destruct (e'' <=? emax - prec); reflexivity.
Qed.

Lemma binary_round_signed (s : bool) (m : positive) (e : Z) :
  emin <= e -> signed s (binary_round prec emax s m e).
Proof.
  intros He. unfold binary_round.
  destruct (shl_align m e (fexp prec emax (Zpos (digits2_pos m) + e))) as [mz ez] eqn:A.
  apply binary_round_aux_signed; [lia |].
  unfold shl_align in A.
  destruct (fexp prec emax (Zpos (digits2_pos m) + e) - e) eqn:D; inversion A; subst;
    try exact He.
  unfold fexp, SpecFloat.emin. lia.
Qed.

Lemma binary_normalize_signed (d e : Z) (z : bool) :
  d <> 0 -> emin <= e -> signed (d <? 0) (binary_normalize prec emax d e z).
Proof.
  intros Hd He. destruct d as [|d|d]; [congruence | |]; simpl;
    now apply binary_round_signed.
Qed.

Lemma SFltb_zero_signed (s : bool) (x : spec_float) :
  signed s x -> SFltb (S754_zero false) x = negb s.
Proof. destruct x as [| | |]; simpl; try tauto; intros ->; now destruct s. Qed.

Lemma bounded_inv (m : positive) (e : Z) :
  bounded prec emax m e = true ->
  emin <= e /\ Zpos (digits2_pos m) <= 53 /\ (e = emin \/ Zpos (digits2_pos m) = 53).
Proof.
  unfold bounded, canonical_mantissa, fexp, SpecFloat.emin, FloatOps.prec, FloatOps.emax.
  intros H. apply andb_prop in H as [H _]. apply Z.eqb_eq in H. lia.
Qed.

(** The magnitudes of two finite floats, aligned on the smaller exponent,
    compare as their exponents and mantissas do. *)
Lemma aligned_lt (m1 m2 : positive) (e1 e2 : Z) :
  bounded prec emax m1 e1 = true -> bounded prec emax m2 e2 = true -> e1 < e2 ->
  Zpos m1 * 2 ^ (e1 - Z.min e1 e2) < Zpos m2 * 2 ^ (e2 - Z.min e1 e2).
Proof.
  intros B1 B2 Hlt.
  apply bounded_inv in B1 as (L1 & D1 & _), B2 as (L2 & _ & D2).
  unfold SpecFloat.emin, FloatOps.prec, FloatOps.emax in *.
  rewrite Z.min_l by lia. replace (e1 - e1) with 0 by lia. rewrite Z.pow_0_r, Z.mul_1_r.
  pose proof (digits_bounds m1) as [_ U1]. pose proof (digits_bounds m2) as [U2 _].
  assert (H53 : Zpos (digits2_pos m2) = 53) by lia. rewrite H53 in U2.
  assert (Hm1 : Zpos m1 < 2 ^ 53).
  { eapply Z.lt_le_trans; [exact U1 |]. apply Z.pow_le_mono_r; lia. }
  assert (Hp : 2 ^ 1 <= 2 ^ (e2 - e1)) by (apply Z.pow_le_mono_r; lia).
  change (2 ^ (53 - 1)) with 4503599627370496 in U2.
  change (2 ^ 53) with 9007199254740992 in Hm1. change (2 ^ 1) with 2 in Hp.
  nia.
Qed.

Lemma aligned_compare (m1 m2 : positive) (e1 e2 : Z) :
  bounded prec emax m1 e1 = true -> bounded prec emax m2 e2 = true ->
  (Zpos (fst (shl_align m1 e1 (Z.min e1 e2))) ?= Zpos (fst (shl_align m2 e2 (Z.min e1 e2))))
  = match e1 ?= e2 with
    | Eq => Pos.compare_cont Eq m1 m2
    | c => c
    end.
Proof.
  intros B1 B2.
  destruct (shl_align_value m1 e1 (Z.min e1 e2)) as [-> _]; [lia |].
  destruct (shl_align_value m2 e2 (Z.min e1 e2)) as [-> _]; [lia |].
  destruct (Z.compare_spec e1 e2) as [-> | Hlt | Hgt].
  - rewrite Z.min_id, Z.sub_diag, Z.pow_0_r, !Z.mul_1_r. reflexivity.
  - apply Z.compare_lt_iff. now apply aligned_lt.
  - apply Z.compare_gt_iff. rewrite Z.min_comm. now apply aligned_lt.
Qed.

(** The sign of a difference is the order of its operands: for any two
    floats, NaN and the infinities included. *)
Lemma SFsub_positive (x y : spec_float) :
  valid_binary x = true -> valid_binary y = true ->
  SFltb (S754_zero false) (SF64sub x y) = SFltb y x.
Proof.
  intros Vx Vy.
  destruct x as [sx|sx| |sx mx ex], y as [sy|sy| |sy my ey];
    try reflexivity;
    try (destruct sx; reflexivity); try (destruct sy; reflexivity);
    try (destruct sx, sy; reflexivity).
  cbn [valid_binary] in Vx, Vy.
  unfold SF64sub, SFsub.
  pose proof (aligned_compare my mx ey ex Vy Vx) as Hc.
  rewrite (Z.min_comm ey ex) in Hc.
  set (X := Zpos (fst (shl_align mx ex (Z.min ex ey)))) in *.
  set (Y := Zpos (fst (shl_align my ey (Z.min ex ey)))) in *.
  assert (HX : 0 < X) by (subst X; lia). assert (HY : 0 < Y) by (subst Y; lia).
  assert (He : emin <= Z.min ex ey).
  { apply bounded_inv in Vx as [? _], Vy as [? _]. lia. }
  set (d := cond_Zopp sx X - cond_Zopp sy Y).
  assert (Hres : SFltb (S754_zero false) (binary_normalize prec emax d (Z.min ex ey) false)
                 = (0 <? d)).
  { destruct (Z.eq_dec d 0) as [-> | Hd]; [reflexivity |].
    rewrite (SFltb_zero_signed (d <? 0)) by now apply binary_normalize_signed.
    destruct (Z.ltb_spec d 0), (Z.ltb_spec 0 d); simpl; try reflexivity; lia. }
  rewrite Hres. unfold SFltb, SFcompare.
  destruct sx, sy; subst d; cbn [cond_Zopp].
  - destruct (ey ?= ex); [destruct (Pos.compare_cont Eq my mx) | |]; cbn [CompOpp];
      destruct (Z.compare_spec Y X); try discriminate;
      destruct (Z.ltb_spec 0 (- X - - Y)); try reflexivity; lia.
  - destruct (Z.ltb_spec 0 (X - - Y)); [reflexivity | lia].
  - destruct (Z.ltb_spec 0 (- X - Y)); [lia | reflexivity].
  - destruct (ey ?= ex); [destruct (Pos.compare_cont Eq my mx) | |];
      destruct (Z.compare_spec Y X); try discriminate;
      destruct (Z.ltb_spec 0 (X - Y)); try reflexivity; lia.
Qed.

(** The same facts on the primitive floats. *)
Lemma is_nan_spec (x : float) : is_nan x = false <-> Prim2SF x <> S754_nan.
Proof.
  unfold is_nan. rewrite FloatAxioms.eqb_spec. unfold SFeqb. split.
  - intros H E'. rewrite E' in H. discriminate.
  - intros H. rewrite (SFcompare_place _ _ H H), lex_refl. reflexivity.
Qed.

Lemma sub_positive (x y : float) : (0 <? x - y)%float = (y <? x)%float.
Proof.
  rewrite !FloatAxioms.ltb_spec, FloatAxioms.sub_spec.
  change (Prim2SF 0%float) with (S754_zero false).
  apply SFsub_positive; apply Prim2SF_valid.
Qed.

Lemma compare_cases (x y : float) :
  is_nan x = false -> is_nan y = false ->
  (x <? y)%float = match lex (place (Prim2SF x)) (place (Prim2SF y)) with
                   | Lt => true | _ => false end /\
  (x <=? y)%float = match lex (place (Prim2SF x)) (place (Prim2SF y)) with
                    | Gt => false | _ => true end /\
  (x =? y)%float = match lex (place (Prim2SF x)) (place (Prim2SF y)) with
                   | Eq => true | _ => false end.
Proof.
  intros Hx Hy. apply is_nan_spec in Hx, Hy.
  rewrite FloatAxioms.ltb_spec, FloatAxioms.leb_spec, FloatAxioms.eqb_spec. unfold SFltb, SFleb, SFeqb.
  rewrite (SFcompare_place _ _ Hx Hy).
  destruct (lex _ _); repeat split; reflexivity.
Qed.


Lemma eqb_not_nan (x y : float) :
  (x =? y)%float = true -> is_nan x = false /\ is_nan y = false.
Proof.
  rewrite FloatAxioms.eqb_spec, !is_nan_spec. unfold SFeqb. intros H.
  split; intros E'; rewrite E' in H; [| destruct (Prim2SF x)]; discriminate.
Qed.





(** Two numbers equal to a third are not in strict order. *)
Lemma eqb_not_ltb (x y q : float) :
  (x =? q)%float = true -> (y =? q)%float = true -> (y <? x)%float = false.
Proof.
  intros H1 H2. destruct (eqb_not_nan _ _ H1) as [Hx Hq].
  destruct (eqb_not_nan _ _ H2) as [Hy _]. revert H1 H2.
  destruct (compare_cases x q Hx Hq) as (_ & _ & ->).
  destruct (compare_cases y q Hy Hq) as (_ & _ & ->).
  destruct (compare_cases y x Hy Hx) as (-> & _ & _).
  pose proof (lex_spec (place (Prim2SF x)) (place (Prim2SF q))) as L1.
  pose proof (lex_spec (place (Prim2SF y)) (place (Prim2SF q))) as L2.
  pose proof (lex_spec (place (Prim2SF y)) (place (Prim2SF x))) as L3.
  destruct (place (Prim2SF x)) as [[a1 a2] a3], (place (Prim2SF q)) as [[b1 b2] b3],
    (place (Prim2SF y)) as [[c1 c2] c3].
  destruct (lex (a1, a2, a3) (b1, b2, b3)), (lex (c1, c2, c3) (b1, b2, b3)),
    (lex (c1, c2, c3) (a1, a2, a3)); try reflexivity; try discriminate; lia.
Qed.

(** Multiplication does not depend on the order of its operands. *)
Lemma SFmul_comm (x y : spec_float) : SF64mul x y = SF64mul y x.
Proof.
  unfold SF64mul, SFmul.
  destruct x as [sx|sx| |sx mx ex], y as [sy|sy| |sy my ey];
    try reflexivity; try (now rewrite xorb_comm).
  now rewrite xorb_comm, Pos.mul_comm, Z.add_comm.
Qed.

Lemma mul_comm (x y : float) : (x * y)%float = (y * x)%float.
Proof. apply Prim2SF_inj. rewrite !FloatAxioms.mul_spec. apply SFmul_comm. Qed.

End NumberFacts.
(** * Properties *)

(** ** Strings *)

Module JsStringFacts.
Import JsString.

#[local] Arguments String.append !_ _ / : simpl nomatch.

Lemma length_append (s t : string) :
  String.length (s ++ t)%string = (String.length s + String.length t)%nat.
Proof. induction s as [|c s IH]; simpl; [reflexivity | now rewrite IH]. Qed.

Lemma append_empty_r (s : string) : (s ++ "")%string = s.
Proof. induction s as [|c s IH]; simpl; [reflexivity | now rewrite IH]. Qed.

Lemma append_assoc (s t u : string) : ((s ++ t) ++ u)%string = (s ++ t ++ u)%string.
Proof. induction s as [|c s IH]; simpl; [reflexivity | now rewrite IH]. Qed.

Lemma startsWith_app (p r : string) : startsWith (p ++ r) p = true.
Proof.
  induction p as [|c p IH]; simpl; [reflexivity |].
  now rewrite Ascii.eqb_refl.
Qed.

Lemma startsWith_inv (s p : string) :
  startsWith s p = true -> s = (p ++ sdrop (String.length p) s)%string.
Proof.
  revert s; induction p as [|c p IH]; intros s H; simpl in *; [reflexivity |].
  destruct s as [|d s]; [discriminate |].
  destruct (Ascii.eqb c d) eqn:E; [| discriminate].
  apply Ascii.eqb_eq in E; subst d.
  f_equal. now apply IH.
Qed.

Lemma sdrop_app (p r : string) : sdrop (String.length p) (p ++ r) = r.
Proof. induction p as [|c p IH]; simpl; [reflexivity | exact IH]. Qed.

Lemma stake_sdrop (n : nat) (s : string) : (stake n s ++ sdrop n s)%string = s.
Proof.
  revert s; induction n as [|n IH]; intros [|c s]; simpl; try reflexivity.
  now rewrite IH.
Qed.

Lemma stake_all (n : nat) (s : string) :
  (String.length s <= n)%nat -> stake n s = s.
Proof.
  revert s; induction n as [|n IH]; intros [|c s] H; simpl in *; try reflexivity.
  - lia.
  - rewrite IH; [reflexivity | lia].
Qed.

Lemma stake_app (d r : string) : stake (String.length d) (d ++ r) = d.
Proof. induction d as [|c d IH]; simpl; [now destruct r | now rewrite IH]. Qed.

Lemma length_stake (n : nat) (s : string) :
  (n <= String.length s)%nat -> String.length (stake n s) = n.
Proof.
  revert s; induction n as [|n IH]; intros [|c s] H; simpl in *; try lia.
  rewrite IH; lia.
Qed.

(** The first occurrence splits the string around it. *)
Lemma findChar_Some (c : ascii) (s : string) (i : nat) :
  findChar c s = Some i ->
  (i < String.length s)%nat /\
  findChar c (stake i s) = None /\
  exists r, sdrop i s = String c r.
Proof.
  revert i; induction s as [|d s IH]; intros i H; simpl in H; [discriminate |].
  destruct (Ascii.eqb d c) eqn:E.
  - inversion H; subst i. apply Ascii.eqb_eq in E; subst d.
    simpl. repeat split; [lia | now exists s].
  - destruct (findChar c s) as [j|] eqn:F; simpl in H; [| discriminate].
    inversion H; subst i. destruct (IH j eq_refl) as (Hlt & Hnone & r & Hr).
    simpl. rewrite E, Hnone. repeat split; [lia | now exists r].
Qed.

Lemma findChar_app_hit (c : ascii) (d r : string) :
  findChar c d = None -> findChar c (d ++ String c r) = Some (String.length d).
Proof.
  induction d as [|e d IH]; simpl; intros H.
  - now rewrite Ascii.eqb_refl.
  - destruct (Ascii.eqb e c); [discriminate |].
    destruct (findChar c d); [discriminate |].
    now rewrite IH.
Qed.

Lemma endsWith_app (p suffix : string) : endsWith (p ++ suffix) suffix = true.
Proof.
  unfold endsWith. rewrite length_append.
  replace (String.length p + String.length suffix - String.length suffix)%nat
    with (String.length p) by lia.
  rewrite sdrop_app, String.eqb_refl.
  apply andb_true_intro; split; [apply Nat.leb_le; lia | reflexivity].
Qed.

Lemma endsWith_inv (s suffix : string) :
  endsWith s suffix = true -> exists p, s = (p ++ suffix)%string.
Proof.
  unfold endsWith. intros H. apply andb_prop in H as [_ H].
  apply String.eqb_eq in H.
  exists (stake (String.length s - String.length suffix) s).
  transitivity (stake (String.length s - String.length suffix) s
                ++ sdrop (String.length s - String.length suffix) s)%string.
  - symmetry. apply stake_sdrop.
  - now rewrite H.
Qed.

Lemma isEmpty_true (s : string) : isEmpty s = true <-> s = "".
Proof. destruct s; simpl; split; congruence. Qed.

End JsStringFacts.

(** ** Validator *)

Module ValidatorFacts.
Import JsString JsStringFacts Validator.

#[local] Arguments String.append !_ _ / : simpl nomatch.

Lemma substring_app (p rest : string) (n : nat) :
  (n <= String.length rest)%nat ->
  substring (p ++ rest) (Z.of_nat (String.length p)) (Z.of_nat (String.length p + n))
  = stake n rest.
Proof.
  intros Hn. unfold substring, clampIndex. rewrite length_append.
  replace (Z.to_nat (Z.min (Z.max (Z.of_nat (String.length p)) 0)
                           (Z.of_nat (String.length p + String.length rest))))
    with (String.length p) by lia.
  replace (Z.to_nat (Z.min (Z.max (Z.of_nat (String.length p + n)) 0)
                           (Z.of_nat (String.length p + String.length rest))))
    with (String.length p + n)%nat by lia.
  replace (Nat.min (String.length p) (String.length p + n)) with (String.length p) by lia.
  replace (Nat.max (String.length p) (String.length p + n) - String.length p)%nat
    with n by lia.
  now rewrite sdrop_app.
Qed.

(** The domain the code extracts is the text up to the first slash. *)
Lemma domainAt_app (p rest : string) :
  domainAt (p ++ rest) (String.length p)
  = match findChar "/"%char rest with
    | Some i => stake i rest
    | None => rest
    end.
Proof.
  unfold domainAt, indexOf. rewrite sdrop_app.
  destruct (findChar "/"%char rest) as [i|] eqn:F.
  - apply findChar_Some in F as (Hi & _ & _).
    replace (Z.of_nat (String.length p + i) =? -1) with false
      by (symmetry; apply Z.eqb_neq; lia).
    apply substring_app. lia.
  - replace (-1 =? -1) with true by reflexivity.
    rewrite length_append, substring_app by lia.
    now apply stake_all.
Qed.

Lemma domainAt_split (p rest : string) :
  exists tail,
    rest = (domainAt (p ++ rest) (String.length p) ++ tail)%string /\
    noSlash (domainAt (p ++ rest) (String.length p)) /\
    (tail = "" \/ exists r, tail = String "/"%char r).
Proof.
  rewrite domainAt_app. unfold noSlash.
  destruct (findChar "/"%char rest) as [i|] eqn:F.
  - destruct (findChar_Some _ _ _ F) as (_ & Hnone & r & Hr).
    exists (sdrop i rest). split; [symmetry; apply stake_sdrop |].
    split; [exact Hnone | right; now exists r].
  - exists "". split; [now rewrite append_empty_r | split; [exact F | now left]].
Qed.

Lemma domainAt_unique (p d tail : string) :
  noSlash d ->
  (tail = "" \/ exists r, tail = String "/"%char r) ->
  domainAt (p ++ d ++ tail) (String.length p) = d.
Proof.
  unfold noSlash. intros Hd Htail. rewrite domainAt_app.
  destruct Htail as [-> | [r ->]].
  - rewrite append_empty_r, Hd. reflexivity.
  - rewrite findChar_app_hit by exact Hd. apply stake_app.
Qed.

Lemma domainOffset_Some (s : string) (k : nat) :
  domainOffset s = Some k ->
  exists scheme, (scheme = "http://" \/ scheme = "https://") /\
                 k = String.length scheme /\
                 s = (scheme ++ sdrop k s)%string.
Proof.
  unfold domainOffset. intros H.
  destruct (startsWith s "http://") eqn:E1.
  - inversion H; subst k. exists "http://".
    split; [now left | split; [reflexivity | now apply startsWith_inv in E1]].
  - destruct (startsWith s "https://") eqn:E2; [| discriminate].
    inversion H; subst k. exists "https://".
    split; [now right | split; [reflexivity | now apply startsWith_inv in E2]].
Qed.

Lemma domainOffset_scheme (scheme rest : string) :
  scheme = "http://" \/ scheme = "https://" ->
  domainOffset (scheme ++ rest) = Some (String.length scheme).
Proof.
  unfold domainOffset. intros [-> | ->].
  - now rewrite startsWith_app.
  - rewrite startsWith_app.
    replace (startsWith ("https://" ++ rest) "http://") with false; reflexivity.
Qed.

Lemma domainRejected_false (d : string) :
  domainRejected d = false <->
  d <> "" /\ (String.length d <= 256)%nat /\
  ((exists p, d = (p ++ ".discordapp.net")%string) \/ d = "media.tenor.co").
Proof.
  unfold domainRejected. rewrite !orb_false_iff, andb_false_iff, !negb_false_iff.
  rewrite Nat.ltb_ge, String.eqb_eq. split.
  - intros [[He Hl] Hs]. split; [| split; [exact Hl |]].
    + intros ->. discriminate.
    + destruct Hs as [Hs | Hs]; [left; now apply endsWith_inv | now right].
  - intros (Hne & Hl & Hs). repeat split; [| exact Hl |].
    + destruct d; [congruence | reflexivity].
    + destruct Hs as [[p ->] | ->]; [left; apply endsWith_app | now right].
Qed.

Lemma accepted_Valid (g : Gif) : accepted g = true <-> Valid g.
Proof.
  unfold accepted, loopBody, Valid. split.
  - destruct (512 <? String.length (url g))%nat eqn:E1; [discriminate |].
    destruct (2000 <? String.length (src g))%nat eqn:E2; [discriminate |].
    apply Nat.ltb_ge in E1, E2.
    destruct (domainOffset (src g)) as [k|] eqn:E3; [| discriminate].
    destruct (domainOffset_Some _ _ E3) as (scheme & Hs & -> & Hsrc).
    destruct (domainRejected _) eqn:E4; [discriminate |]. intros _.
    rewrite Hsrc in E4. apply domainRejected_false in E4.
    destruct (domainAt_split scheme (sdrop (String.length scheme) (src g)))
      as (tail & Hsplit & Hno & Htail).
    split; [exact E1 | split; [exact E2 |]].
    exists scheme, (domainAt (scheme ++ sdrop (String.length scheme) (src g))
                             (String.length scheme)), tail.
    split; [exact Hs |]. split; [now rewrite <- Hsplit |].
    split; [exact Hno | split; [exact Htail | exact E4]].
  - intros (H1 & H2 & scheme & d & tail & Hs & Hsrc & Hno & Htail & Hd).
    apply Nat.ltb_ge in H1, H2. rewrite H1, H2, Hsrc.
    rewrite domainOffset_scheme by exact Hs.
    rewrite domainAt_unique by assumption.
    apply domainRejected_false in Hd. now rewrite Hd.
Qed.

Lemma loopBody_accepted {A} (entry : Gif -> A) (g : Gif) :
  loopBody entry g = if accepted g then Some (entry g) else None.
Proof.
  unfold accepted, loopBody.
  destruct (512 <? _)%nat; [reflexivity |].
  destruct (2000 <? _)%nat; [reflexivity |].
  destruct (domainOffset _); [| reflexivity].
  now destruct (domainRejected _).
Qed.

Lemma runLoop_filter {A} (entry : Gif -> A) (favorites : list Gif) :
  runLoop entry favorites = map entry (List.filter accepted favorites).
Proof.
  unfold runLoop.
  enough (G : forall acc,
             fold_left (fun acc gif =>
                          match loopBody entry gif with
                          | None => acc
                          | Some x => (acc ++ [x])%list
                          end) favorites acc
             = (acc ++ map entry (List.filter accepted favorites))%list)
    by apply (G []).
  induction favorites as [|g gs IH]; intros acc; simpl.
  - now rewrite app_nil_r.
  - rewrite IH, loopBody_accepted. destruct (accepted g); simpl.
    + now rewrite <- app_assoc.
    + reflexivity.
Qed.

(** C3.  The validator returns exactly the items that satisfy the rules
    (id of at most 512 characters, locator of at most 2000 characters
    that starts with http:// or https://, whose domain, the text between
    the scheme and the first slash or the end of the string, is not
    empty, has at most 256 characters and ends with .discordapp.net or
    is media.tenor.co), in input order and with duplicates kept; the
    same items are the ones the indexer submits.  Both functions are
    total. *)
Theorem getValidGifUrls_exact (favorites : list Gif) :
  getValidGifUrls favorites = map url (List.filter accepted favorites) /\
  validGifs favorites
  = map (fun g => (url g, src g)) (List.filter accepted favorites) /\
  forall g, accepted g = true <-> Valid g.
Proof.
  split; [apply runLoop_filter | split; [apply runLoop_filter |]].
  apply accepted_Valid.
Qed.

(** The examples of the specification. *)
Example tenor_accepted :
  accepted (mkGif 1 "https://media.tenor.co/x/y.gif" 0 0 0 "a") = true.
Proof. reflexivity. Qed.

Example evil_rejected :
  accepted (mkGif 1 "https://evil.example.com/x.gif" 0 0 0 "b") = false.
Proof. reflexivity. Qed.

Example validator_keeps_order_and_duplicates :
  getValidGifUrls
    [ mkGif 1 "https://media.tenor.co/x/y.gif" 0 0 0 "b";
      mkGif 1 "ftp://media.tenor.co/x/y.gif" 0 0 0 "c";
      mkGif 1 "http://cdn.discordapp.net" 0 0 0 "a";
      mkGif 1 "https:///x.gif" 0 0 0 "d";
      mkGif 1 "https://media.tenor.co/z.gif" 0 0 0 "b" ]
  = ["b"; "a"; "b"].
Proof. reflexivity. Qed.

End ValidatorFacts.

(** ** Change detection *)

Module SyncFacts.
Import Js.

Lemma gtb_lt (a b : Q) : gtb a b = true <-> (b < a)%Q.
Proof.
  unfold gtb. rewrite negb_true_iff. split.
  - intros H. apply Qnot_le_lt. intros Hle.
    apply Qle_bool_iff in Hle. congruence.
  - intros H. destruct (Qle_bool a b) eqn:E; [| reflexivity].
    apply Qle_bool_iff in E. exfalso. exact (Qlt_not_le _ _ H E).
Qed.

Lemma everyFrom_lookup (last cur : list string) (i : nat) :
  everyFrom (eqAt last) cur i = true <->
  forall j x, cur !! j = Some x -> last !! (i + j)%nat = Some x.
Proof.
  revert i; induction cur as [|c cur IH]; intros i; simpl.
  - split; [intros _ j x H; discriminate | reflexivity].
  - unfold eqAt at 1. split.
    + intros H j x Hj.
      destruct (last !! i) as [y|] eqn:E; [| discriminate].
      destruct (String.eqb c y) eqn:Ey; [| discriminate].
      apply String.eqb_eq in Ey; subst y.
      destruct j as [|j]; simpl in Hj.
      * inversion Hj; subst x. now rewrite Nat.add_0_r.
      * replace (i + S j)%nat with (S i + j)%nat by lia.
        now apply (proj1 (IH (S i))).
    + intros H. pose proof (H 0%nat c eq_refl) as H0.
      rewrite Nat.add_0_r in H0. rewrite H0, String.eqb_refl.
      apply IH. intros j x Hj.
      replace (S i + j)%nat with (i + S j)%nat by lia. now apply H.
Qed.

(** The length test together with [every] decides equality of the two
    sequences. *)
Lemma sameIds_eq (cur last : list string) :
  negb (length cur =? length last)%nat || negb (every (eqAt last) cur) = false
  <-> cur = last.
Proof.
  rewrite orb_false_iff, !negb_false_iff, Nat.eqb_eq. unfold every.
  rewrite everyFrom_lookup. split.
  - intros [Hlen H]. apply list_eq. intros j.
    destruct (cur !! j) as [x|] eqn:E.
    + symmetry. now apply (H j x).
    + symmetry. apply lookup_ge_None. apply lookup_ge_None in E. lia.
  - intros ->. split; [reflexivity | now intros j x H].
Qed.

(** Two sequences are different exactly when they differ in length or at
    some position. *)
Lemma differ_positional (cur last : list string) :
  cur <> last <->
  length cur <> length last \/ exists i x, cur !! i = Some x /\ last !! i <> Some x.
Proof.
  split.
  - intros Hne.
    destruct (decide (length cur = length last)) as [Hlen|]; [| now left].
    right.
    destruct (decide (Forall (fun i => cur !! i = last !! i) (seq 0 (length cur))))
      as [Hall | Hex].
    + exfalso. apply Hne, list_eq. intros i.
      destruct (decide (i < length cur)%nat) as [Hi | Hi].
      * rewrite Forall_forall in Hall. apply Hall.
        apply list_elem_of_In, in_seq. lia.
      * rewrite (proj2 (lookup_ge_None cur i)), (proj2 (lookup_ge_None last i));
          [reflexivity | lia | lia].
    + apply not_Forall_Exists in Hex; [| intros i; apply _].
      apply Exists_exists in Hex as (i & Hi & Hdiff).
      apply list_elem_of_In, in_seq in Hi.
      destruct (lookup_lt_is_Some_2 cur i) as [x Hx]; [lia |].
      exists i, x. split; [exact Hx | congruence].
  - intros [Hlen | (i & x & Hx & Hd)] ->; [now apply Hlen | now apply Hd].
Qed.

Lemma weightsLoop_existsb (entries : list (string * Q)) (t : Sync.Tracking) :
  Sync.weightsLoop entries t
  = existsb (fun '(model, weight) =>
               gtb weight 0 && negb (bool_decide (model ∈ Sync.indexedModels t)))
            entries.
Proof.
  induction entries as [|[model weight] rest IH]; simpl; [reflexivity |].
  rewrite IH.
  destruct (Qeq_bool _ 0), (gtb weight 0),
    (bool_decide (model ∈ Sync.indexedModels t)); reflexivity.
Qed.

Lemma weightsLoop_true (entries : list (string * Q)) (t : Sync.Tracking) :
  Sync.weightsLoop entries t = true <->
  exists model weight,
    In (model, weight) entries /\ (0 < weight)%Q /\ model ∉ Sync.indexedModels t.
Proof.
  rewrite weightsLoop_existsb, existsb_exists. split.
  - intros ([model weight] & Hin & H). apply andb_prop in H as [Hw Hm].
    exists model, weight. split; [exact Hin |]. split; [now apply gtb_lt |].
    apply negb_true_iff, bool_decide_eq_false in Hm. exact Hm.
  - intros (model & weight & Hin & Hw & Hm). exists (model, weight).
    split; [exact Hin |]. apply andb_true_intro. split; [now apply gtb_lt |].
    apply negb_true_iff, bool_decide_eq_false. exact Hm.
Qed.

Lemma shouldIndexV1_weights (st : SyncV1.Store) (t : SyncV1.Tracking) :
  (if Qeq_bool (SyncV1.VideoCLIP_XL_v2 (SyncV1.lastRankingWeights t)) 0
      && gtb (SyncV1.VideoCLIP_XL_v2_ranking st) 0
      && negb (bool_decide (0 ∈ SyncV1.indexedModels t)) then true
   else if Qeq_bool (SyncV1.X_CLIP (SyncV1.lastRankingWeights t)) 0
           && gtb (SyncV1.X_CLIP_ranking st) 0
           && negb (bool_decide (1 ∈ SyncV1.indexedModels t)) then true
   else if gtb (SyncV1.VideoCLIP_XL_v2_ranking st) 0
           && negb (bool_decide (0 ∈ SyncV1.indexedModels t)) then true
   else if gtb (SyncV1.X_CLIP_ranking st) 0
           && negb (bool_decide (1 ∈ SyncV1.indexedModels t)) then true
   else false)
  = (gtb (SyncV1.VideoCLIP_XL_v2_ranking st) 0
       && negb (bool_decide (0 ∈ SyncV1.indexedModels t)))
    || (gtb (SyncV1.X_CLIP_ranking st) 0
          && negb (bool_decide (1 ∈ SyncV1.indexedModels t))).
Proof.
  destruct (Qeq_bool (SyncV1.VideoCLIP_XL_v2 _) 0), (Qeq_bool (SyncV1.X_CLIP _) 0),
    (gtb (SyncV1.VideoCLIP_XL_v2_ranking st) 0), (gtb (SyncV1.X_CLIP_ranking st) 0),
    (bool_decide (0 ∈ SyncV1.indexedModels t)),
    (bool_decide (1 ∈ SyncV1.indexedModels t)); reflexivity.
Qed.

Lemma positiveModels_filter (weights : list (string * Q)) :
  Sync.positiveModels weights
  = map fst (List.filter (fun entry => gtb (snd entry) 0) weights).
Proof.
  unfold Sync.positiveModels.
  enough (G : forall acc,
             fold_left (fun models '(name, weight) =>
                          if gtb weight 0 then (models ++ [name])%list else models)
                       weights acc
             = (acc ++ map fst (List.filter (fun entry => gtb (snd entry) 0) weights))%list)
    by apply (G []).
  induction weights as [|[name weight] rest IH]; intros acc; simpl.
  - now rewrite app_nil_r.
  - rewrite IH. destruct (gtb weight 0); simpl; [now rewrite <- app_assoc | reflexivity].
Qed.

Lemma positiveModels_In (weights : list (string * Q)) (m : string) :
  In m (Sync.positiveModels weights) <-> exists w, In (m, w) weights /\ (0 < w)%Q.
Proof.
  rewrite positiveModels_filter, in_map_iff. split.
  - intros ([m' w] & Hm & Hin). simpl in Hm; subst m'.
    apply filter_In in Hin as [Hin Hw]. exists w. split; [exact Hin |].
    now apply gtb_lt.
  - intros (w & Hin & Hw). exists (m, w). split; [reflexivity |].
    apply filter_In. split; [exact Hin | now apply gtb_lt].
Qed.

(** C2.  [shouldIndex] answers true exactly when the caller's account
    differs from the recorded one, or the validated ids differ from the
    recorded ids in length or at some position, or some model with a
    positive weight is not in the set of indexed models; otherwise it
    answers false.  It reads the state and returns only the answer.  The
    earlier revision has no account and two fixed models, and decides
    the same way on the other two conditions. *)
Theorem shouldIndex_iff (user : string) (st : Sync.Store) (t : Sync.Tracking)
    (st1 : SyncV1.Store) (t1 : SyncV1.Tracking) (favorites : list Gif) :
  let validIds := Validator.getValidGifUrls favorites in
  (Sync.shouldIndex user st t favorites = true <->
     Sync.lastUserId t <> Some user \/
     (length validIds <> length (Sync.lastIndexedFavorites t) \/
      exists i id, validIds !! i = Some id /\
                   Sync.lastIndexedFavorites t !! i <> Some id) \/
     exists model weight,
       In (model, weight) (Sync.getModelWeights st) /\ (0 < weight)%Q /\
       model ∉ Sync.indexedModels t) /\
  (SyncV1.shouldIndex st1 t1 favorites = true <->
     (length validIds <> length (SyncV1.lastIndexedFavorites t1) \/
      exists i id, validIds !! i = Some id /\
                   SyncV1.lastIndexedFavorites t1 !! i <> Some id) \/
     ((0 < SyncV1.VideoCLIP_XL_v2_ranking st1)%Q /\ 0 ∉ SyncV1.indexedModels t1) \/
     ((0 < SyncV1.X_CLIP_ranking st1)%Q /\ 1 ∉ SyncV1.indexedModels t1)).
Proof.
  intros validIds. split.
  - unfold Sync.shouldIndex. fold validIds.
    rewrite <- differ_positional, <- weightsLoop_true.
    destruct (bool_decide (Sync.lastUserId t = Some user)) eqn:Eu; simpl.
    + apply bool_decide_eq_true in Eu.
      destruct (negb _ || negb _) eqn:Eids.
      * split; [intros _ | reflexivity]. right; left. intros Heq.
        apply sameIds_eq in Heq. congruence.
      * apply sameIds_eq in Eids. split.
        -- intros H. right; right. exact H.
        -- intros [H | [H | H]]; [contradiction | contradiction | exact H].
    + apply bool_decide_eq_false in Eu. split; [intros _; now left | reflexivity].
  - unfold SyncV1.shouldIndex. fold validIds.
    rewrite shouldIndexV1_weights, <- differ_positional.
    destruct (negb _ || negb _) eqn:Eids.
    + split; [intros _ | reflexivity]. left. intros Heq.
      apply sameIds_eq in Heq. congruence.
    + apply sameIds_eq in Eids.
      rewrite orb_true_iff, !andb_true_iff, !negb_true_iff, !gtb_lt,
        !bool_decide_eq_false.
      split; [intros H; right; exact H | intros [H | H]; [contradiction | exact H]].
Qed.

(** C10.  The answer of [shouldIndex] does not depend on the recorded
    weights: two states that agree on the account, the recorded ids and
    the set of indexed models get the same answer, in both revisions. *)
Theorem shouldIndex_ignores_lastRankingWeights
    (user : string) (st : Sync.Store) (t t' : Sync.Tracking)
    (st1 : SyncV1.Store) (t1 t1' : SyncV1.Tracking) (favorites : list Gif) :
  Sync.lastUserId t = Sync.lastUserId t' ->
  Sync.lastIndexedFavorites t = Sync.lastIndexedFavorites t' ->
  Sync.indexedModels t = Sync.indexedModels t' ->
  SyncV1.lastIndexedFavorites t1 = SyncV1.lastIndexedFavorites t1' ->
  SyncV1.indexedModels t1 = SyncV1.indexedModels t1' ->
  Sync.shouldIndex user st t favorites = Sync.shouldIndex user st t' favorites /\
  SyncV1.shouldIndex st1 t1 favorites = SyncV1.shouldIndex st1 t1' favorites.
Proof.
  intros Hu Hids Hm Hids1 Hm1. split.
  - unfold Sync.shouldIndex. rewrite !weightsLoop_existsb, Hu, Hids, Hm. reflexivity.
  - unfold SyncV1.shouldIndex. rewrite !shouldIndexV1_weights, Hids1, Hm1. reflexivity.
Qed.

Lemma shouldIndex_ignores_lastRankingWeights_witness :
  Sync.shouldIndex "A" (Sync.demoStore 1 0)
    (Sync.mkTracking (Some "A") ["https://tenor.com/view/y"] ∅ false []) [Sync.demoGif]
  = Sync.shouldIndex "A" (Sync.demoStore 1 0)
      (Sync.mkTracking (Some "A") ["https://tenor.com/view/y"] ∅ true [("m1", 0%Q)])
      [Sync.demoGif].
Proof.
  exact (proj1 (shouldIndex_ignores_lastRankingWeights
                  "A" (Sync.demoStore 1 0)
                  (Sync.mkTracking (Some "A") ["https://tenor.com/view/y"] ∅ false [])
                  (Sync.mkTracking (Some "A") ["https://tenor.com/view/y"] ∅ true
                                   [("m1", 0%Q)])
                  (SyncV1.mkStore "https://gif-search.woodie.dev" Sync.demoKeyA 1 0)
                  (SyncV1.mkTracking [] ∅ false (SyncV1.mkLastWeights 0 0))
                  (SyncV1.mkTracking [] ∅ false (SyncV1.mkLastWeights 1 1))
                  [Sync.demoGif] eq_refl eq_refl eq_refl eq_refl eq_refl)).
Defined.

(** The properties of the specification's section on change detection,
    on the two-model store: an unchanged, synchronised state needs no
    resync; a model that is enabled and was never indexed does. *)
Example shouldIndex_synced :
  Sync.shouldIndex "A" (Sync.demoStore 1 0)
    (Sync.mkTracking (Some "A") ["https://tenor.com/view/y"] {["m1"]} false
                     [("m1", 1%Q); ("m2", 0%Q)]) [Sync.demoGif] = false /\
  Sync.shouldIndex "A" (Sync.demoStore 1 1)
    (Sync.mkTracking (Some "A") ["https://tenor.com/view/y"] {["m1"]} false
                     [("m1", 1%Q); ("m2", 0%Q)]) [Sync.demoGif] = true.
Proof. split; vm_compute; reflexivity. Qed.

End SyncFacts.

(** ** Indexer *)

Module IndexerFacts.
Import Js.

Lemma fold_add_elem `{Countable K} (models : list K) (indexed : gset K) (m : K) :
  m ∈ fold_left (fun acc model => {[model]} ∪ acc) models indexed
  <-> m ∈ indexed \/ In m models.
Proof.
  revert indexed; induction models as [|x models IH]; intros indexed; simpl.
  - tauto.
  - rewrite IH, elem_of_union, elem_of_singleton. intuition congruence.
Qed.

Lemma names_validIds (favorites : list Gif) :
  map fst (Validator.validGifs favorites) = Validator.getValidGifUrls favorites.
Proof.
  unfold Validator.validGifs, Validator.getValidGifUrls.
  rewrite !ValidatorFacts.runLoop_filter, map_map. reflexivity.
Qed.

Lemma initAccountKeys_weights (st : Sync.Store) :
  Sync.getModelWeights (fst (Sync.initAccountKeys st)) = Sync.getModelWeights st.
Proof. unfold Sync.initAccountKeys. now destruct (Sync.accountKeys st). Qed.

(** What a call that reaches the [await] has sent and captured. *)
Lemma call_awaiting (user : string) (favorites : list Gif) (st st' : Sync.Store)
    (t t' : Sync.Tracking) (request : Sync.IndexRequest) (k : Sync.Continuation) :
  Sync.sendIndexRequest_call user favorites st t = (st', t', Sync.Awaiting request k) ->
  Sync.pendingIndexRequest t = false /\
  t' = Sync.setPending true t /\
  Sync.names request = Validator.getValidGifUrls favorites /\
  Sync.models request = Sync.positiveModels (Sync.getModelWeights st) /\
  k = Sync.mkContinuation user (Sync.names request) (Sync.models request).
Proof.
  unfold Sync.sendIndexRequest_call.
  pose proof (initAccountKeys_weights st) as Hw.
  destruct (Sync.initAccountKeys st) as [st1 s]. simpl in Hw.
  destruct (Sync.pendingIndexRequest t) eqn:Ep; simpl; [discriminate |].
  destruct (Sync.keyMissing s user); [discriminate |].
  destruct (length (Validator.validGifs favorites) =? 0)%nat; [discriminate |].
  destruct (length (Sync.positiveModels (Sync.getModelWeights st1)) =? 0)%nat;
    [discriminate |].
  intros H. inversion H; subst. simpl.
  rewrite names_validIds, Hw. repeat split.
Qed.



Lemma hasWeights_initAccountKeys (st : Sync.Store) :
  Sync.hasWeights (fst (Sync.initAccountKeys st)) = Sync.hasWeights st.
Proof. unfold Sync.initAccountKeys. now destruct (Sync.accountKeys st). Qed.






Lemma call_pending (user : string) (favorites : list Gif) (st : Sync.Store)
    (t : Sync.Tracking) :
  Sync.pendingIndexRequest t = true ->
  Sync.sendIndexRequest_call user favorites st t
  = (fst (Sync.initAccountKeys st), t, Sync.Returned).
Proof.
  intros Hp. unfold Sync.sendIndexRequest_call.
  destruct (Sync.initAccountKeys st) as [st1 s]. now rewrite Hp.
Qed.

(** While a submission is outstanding, calls and settings changes send
    nothing and leave the tracking variables alone. *)
Lemma run_pending (events : list Sync.Event) (w : Sync.World) :
  Forall (fun e => Sync.isCall e = true) events ->
  Sync.pendingIndexRequest (Sync.tracking w) = true ->
  Sync.sent (Sync.run w events) = Sync.sent w /\
  Sync.tracking (Sync.run w events) = Sync.tracking w /\
  Sync.inFlight (Sync.run w events) = Sync.inFlight w.
Proof.
  revert w; induction events as [|e events IH]; intros w Hall Hp; simpl.
  - repeat split.
  - inversion Hall as [|? ? He Hrest]; subst.
    destruct e as [user favorites | outcome | st same]; simpl in He; [| discriminate |].
    + simpl. rewrite call_pending by exact Hp.
      apply (IH (Sync.mkWorld _ _ _ _ _ _)); [exact Hrest | exact Hp].
    + apply (IH (Sync.mkWorld _ _ _ _ _ _)); [exact Hrest | exact Hp].
Qed.

Lemma run_calls_bound (events : list Sync.Event) (w : Sync.World) :
  Forall (fun e => Sync.isCall e = true) events ->
  (length (Sync.sent (Sync.run w events)) <= S (length (Sync.sent w)))%nat.
Proof.
  revert w; induction events as [|e events IH]; intros w Hall; simpl; [lia |].
  inversion Hall as [|? ? He Hrest]; subst.
  destruct e as [user favorites | outcome | st same]; simpl in He; [| discriminate |].
  - simpl.
    destruct (Sync.sendIndexRequest_call user favorites (Sync.store w) (Sync.tracking w))
      as [[st1 t1] [|request k]] eqn:Ecall.
    + etransitivity; [apply IH; exact Hrest | simpl; lia].
    + apply call_awaiting in Ecall as (_ & -> & _).
      destruct (run_pending events (Sync.mkWorld st1 (Sync.setPending true (Sync.tracking w))
                                                 (Some k) (Sync.sent w ++ [request])
                                                 (Sync.getModelWeights st1)
                                                 (Sync.hasWeights st1))
                            Hrest eq_refl) as (-> & _).
      simpl. rewrite length_app. simpl. lia.
  - etransitivity; [apply IH; exact Hrest | simpl; lia].
Qed.

(** While the flag is set the settings hold an [accountKeys] record: the
    call that set the flag has read a key from it. *)
Lemma pending_accountKeys (st : Sync.Store) (events : list Sync.Event) :
  Forall (fun e => Sync.keepsAccountKeys e = true) events ->
  let w := Sync.run (Sync.initialWorld st) events in
  Sync.pendingIndexRequest (Sync.tracking w) = true ->
  Sync.accountKeys (Sync.store w) <> None.
Proof.
  intros Hall.
  enough (G : forall w,
             (Sync.pendingIndexRequest (Sync.tracking w) = true ->
              Sync.accountKeys (Sync.store w) <> None) ->
             Sync.pendingIndexRequest (Sync.tracking (Sync.run w events)) = true ->
             Sync.accountKeys (Sync.store (Sync.run w events)) <> None)
    by (apply G; discriminate).
  induction Hall as [|e events He Hrest IH]; intros w Hw; [exact Hw |].
  simpl. apply IH. clear IH Hrest.
  destruct e as [user favorites | outcome | st' same]; simpl.
  - unfold Sync.sendIndexRequest_call, Sync.initAccountKeys.
    destruct (Sync.accountKeys (Sync.store w)) eqn:Ek;
      destruct (_ || _); simpl; try (rewrite ?Ek; discriminate);
      destruct (_ =? _)%nat; simpl; try (rewrite ?Ek; discriminate);
      destruct (_ =? _)%nat; simpl; rewrite ?Ek; discriminate.
  - destruct (Sync.inFlight w); [simpl; discriminate | exact Hw].
  - simpl in He. intros _. destruct (Sync.accountKeys st'); [discriminate | congruence].
Qed.

Lemma validGifs_filter (favorites : list Gif) :
  Validator.validGifs favorites
  = map (fun g => (url g, src g)) (List.filter Validator.accepted favorites).
Proof. apply ValidatorFacts.runLoop_filter. Qed.

Lemma filter_nil_iff {A} (p : A -> bool) (l : list A) :
  List.filter p l = [] <-> ~ exists x, In x l /\ p x = true.
Proof.
  split.
  - intros H (x & Hin & Hp).
    assert (Hx : In x (List.filter p l)) by (apply filter_In; now split).
    now rewrite H in Hx.
  - intros H. destruct (List.filter p l) as [|x xs] eqn:E; [reflexivity |].
    exfalso. apply H. exists x. apply filter_In. rewrite E. now left.
Qed.

Lemma keyMissing_false (keys : list (string * string)) (user : string) :
  Sync.keyMissing keys user = false <->
  exists key, getProp keys user = Some key /\ String.length key = 32%nat.
Proof.
  unfold Sync.keyMissing. destruct (getProp keys user) as [key|].
  - rewrite negb_false_iff, Nat.eqb_eq. split; [intros H; now exists key |].
    intros (key' & Hk & Hl). now inversion Hk; subst.
  - split; [discriminate | intros (key' & Hk & _); discriminate].
Qed.

(** A call whose four tests pass sends its request. *)
Lemma call_sends (user : string) (favorites : list Gif) (st : Sync.Store)
    (t : Sync.Tracking) (key : string) :
  Sync.pendingIndexRequest t = false ->
  getProp (snd (Sync.initAccountKeys st)) user = Some key ->
  String.length key = 32%nat ->
  (exists g, In g favorites /\ Validator.accepted g = true) ->
  (exists m weight, In (m, weight) (Sync.getModelWeights st) /\ (0 < weight)%Q) ->
  Sync.sendIndexRequest_call user favorites st t
  = (fst (Sync.initAccountKeys st), Sync.setPending true t,
     Sync.Awaiting
       (Sync.mkIndexRequest (Sync.api_url st +:+ "/" +:+ key +:+ "/index")
                            (Validator.getValidGifUrls favorites)
                            (map snd (Validator.validGifs favorites))
                            (Sync.positiveModels (Sync.getModelWeights st)))
       (Sync.mkContinuation user (Validator.getValidGifUrls favorites)
                            (Sync.positiveModels (Sync.getModelWeights st)))).
Proof.
  intros Hp Hkey Hlen (g & Hg & Hacc) (m & weight & Hm & Hpos).
  unfold Sync.sendIndexRequest_call.
  pose proof (initAccountKeys_weights st) as Hw.
  assert (Hurl : Sync.api_url (fst (Sync.initAccountKeys st)) = Sync.api_url st)
    by (unfold Sync.initAccountKeys; now destruct (Sync.accountKeys st)).
  destruct (Sync.initAccountKeys st) as [st1 keys]. cbn [fst snd] in *.
  rewrite Hp. cbn [orb].
  rewrite (proj2 (keyMissing_false keys user)) by (exists key; now split).
  assert (Hvalid : (length (Validator.validGifs favorites) =? 0)%nat = false).
  { rewrite validGifs_filter, length_map.
    destruct (List.filter Validator.accepted favorites) as [|g' gs] eqn:E;
      [| reflexivity].
    exfalso. apply filter_nil_iff in E. apply E. now exists g. }
  rewrite Hvalid, Hw.
  assert (Hmodels : (length (Sync.positiveModels (Sync.getModelWeights st)) =? 0)%nat
                    = false).
  { destruct (Sync.positiveModels (Sync.getModelWeights st)) as [|m' ms] eqn:E;
      [| reflexivity].
    assert (Hin : In m (Sync.positiveModels (Sync.getModelWeights st)))
      by (apply SyncFacts.positiveModels_In; now exists weight).
    now rewrite E in Hin. }
  rewrite Hmodels, Hkey, Hurl, names_validIds. reflexivity.
Qed.

(** C6.  A call made while the in-flight flag is set returns at once: it
    sends nothing and leaves the tracking variables, the flag included,
    as they are; of the settings it could only initialise a missing
    [accountKeys] to the empty record, and in every state the plugin
    reaches the record is there while the flag is set, so the settings
    are left as they are too.  So, as long as no response has arrived,
    any number of calls send at most one request, none once the flag is
    set, and exactly the request of the call that set the flag.  A call
    made while the flag is clear, for an account with a key of 32
    characters, with a favourite that passes the validator and a model
    of positive weight, does send: it and any number of calls after it,
    before the response, make exactly one request, which carries the
    validated ids and the models of positive weight to the index of
    that key, and leave the flag set.  When the submission settles, by a
    2xx response, another response or a rejection, the flag is
    cleared. *)
Theorem single_flight :
  (forall user favorites st t,
     Sync.pendingIndexRequest t = true ->
     Sync.sendIndexRequest_call user favorites st t
     = (fst (Sync.initAccountKeys st), t, Sync.Returned) /\
     (Sync.accountKeys st <> None -> fst (Sync.initAccountKeys st) = st)) /\
  (forall st events user favorites,
     Forall (fun e => Sync.keepsAccountKeys e = true) events ->
     let w := Sync.run (Sync.initialWorld st) events in
     Sync.pendingIndexRequest (Sync.tracking w) = true ->
     Sync.sendIndexRequest_call user favorites (Sync.store w) (Sync.tracking w)
     = (Sync.store w, Sync.tracking w, Sync.Returned)) /\
  (forall w events,
     Forall (fun e => Sync.isCall e = true) events ->
     (length (Sync.sent (Sync.run w events)) <= S (length (Sync.sent w)))%nat /\
     (Sync.pendingIndexRequest (Sync.tracking w) = true ->
      Sync.sent (Sync.run w events) = Sync.sent w /\
      Sync.tracking (Sync.run w events) = Sync.tracking w)) /\
  (forall w user favorites st t request k events,
     Sync.sendIndexRequest_call user favorites (Sync.store w) (Sync.tracking w)
     = (st, t, Sync.Awaiting request k) ->
     Forall (fun e => Sync.isCall e = true) events ->
     Sync.sent (Sync.run w (Sync.Call user favorites :: events))
     = (Sync.sent w ++ [request])%list) /\
  (forall w user favorites key events,
     Sync.pendingIndexRequest (Sync.tracking w) = false ->
     getProp (snd (Sync.initAccountKeys (Sync.store w))) user = Some key ->
     String.length key = 32%nat ->
     (exists g, In g favorites /\ Validator.accepted g = true) ->
     (exists m weight,
        In (m, weight) (Sync.getModelWeights (Sync.store w)) /\ (0 < weight)%Q) ->
     Forall (fun e => Sync.isCall e = true) events ->
     let w' := Sync.run w (Sync.Call user favorites :: events) in
     exists request,
       Sync.sent w' = (Sync.sent w ++ [request])%list /\
       length (Sync.sent w') = S (length (Sync.sent w)) /\
       Sync.endpoint request
       = Sync.api_url (Sync.store w) +:+ "/" +:+ key +:+ "/index" /\
       Sync.names request = Validator.getValidGifUrls favorites /\
       Sync.names request <> [] /\
       Sync.models request = Sync.positiveModels (Sync.getModelWeights (Sync.store w)) /\
       Sync.models request <> [] /\
       Sync.pendingIndexRequest (Sync.tracking w') = true) /\
  (forall k outcome object t,
     Sync.pendingIndexRequest (Sync.sendIndexRequest_settle k outcome object t) = false).
Proof.
  split; [| split; [| split; [| split; [| split]]]].
  - intros user favorites st t Hp. split; [now apply call_pending |].
    unfold Sync.initAccountKeys. destruct (Sync.accountKeys st); [reflexivity | congruence].
  - intros st events user favorites Hall w Hp.
    pose proof (pending_accountKeys st events Hall Hp) as Hk. fold w in Hk.
    rewrite call_pending by exact Hp. unfold Sync.initAccountKeys.
    destruct (Sync.accountKeys (Sync.store w)); [reflexivity | congruence].
  - intros w events Hall. split; [now apply run_calls_bound |].
    intros Hp. destruct (run_pending events w Hall Hp) as (H1 & H2 & _). now split.
  - intros w user favorites st t request k events Hcall Hall. simpl. rewrite Hcall.
    apply call_awaiting in Hcall as (_ & -> & _).
    now destruct (run_pending events (Sync.mkWorld st (Sync.setPending true (Sync.tracking w))
                                               (Some k) (Sync.sent w ++ [request])
                                               (Sync.getModelWeights st)
                                               (Sync.hasWeights st))
                              Hall eq_refl) as (-> & _).
  - intros w user favorites key events Hp Hkey Hlen Hvalid Hmodels Hall w'.
    pose proof (call_sends user favorites (Sync.store w) (Sync.tracking w) key
                           Hp Hkey Hlen Hvalid Hmodels) as Hcall.
    subst w'. cbn [Sync.run fold_left Sync.step]. rewrite Hcall.
    match goal with |- context [fold_left Sync.step events ?w1] =>
      destruct (run_pending events w1 Hall eq_refl) as (Hsent & Htr & _);
      change (fold_left Sync.step events w1) with (Sync.run w1 events)
    end.
    eexists. rewrite Hsent, Htr. cbn.
    split; [reflexivity |].
    split; [rewrite length_app; simpl; lia |].
    split; [reflexivity |]. split; [reflexivity |].
    split.
    { destruct Hvalid as (g & Hg & Hacc). intros Hnil. cbn [Sync.names] in Hnil.
      unfold Validator.getValidGifUrls in Hnil.
      rewrite ValidatorFacts.runLoop_filter in Hnil.
      apply map_eq_nil in Hnil. apply filter_nil_iff in Hnil. apply Hnil. now exists g. }
    split; [reflexivity |].
    split; [| reflexivity].
    destruct Hmodels as (m & weight & Hm & Hpos). intros Hnil.
    assert (Hin : In m (Sync.positiveModels (Sync.getModelWeights (Sync.store w))))
      by (apply SyncFacts.positiveModels_In; now exists weight).
    cbn [Sync.models] in Hnil. now rewrite Hnil in Hin.
  - intros k outcome object t. reflexivity.
Qed.

Lemma single_flight_witness :
  exists request,
    Sync.sent (Sync.run (Sync.initialWorld (Sync.demoStore 1 0))
                        [Sync.Call "A" [Sync.demoGif]; Sync.Call "A" [Sync.demoGif];
                         Sync.SetStore (Sync.demoStore 1 1) false;
                         Sync.Call "B" [Sync.demoGif]])
    = [request] /\
    Sync.models request = ["m1"].
Proof.
  destruct (proj1 (proj2 (proj2 (proj2 (proj2 single_flight))))
              (Sync.initialWorld (Sync.demoStore 1 0)) "A" [Sync.demoGif] Sync.demoKeyA
              [Sync.Call "A" [Sync.demoGif]; Sync.SetStore (Sync.demoStore 1 1) false;
               Sync.Call "B" [Sync.demoGif]]
              eq_refl eq_refl eq_refl
              (ex_intro _ Sync.demoGif (conj (or_introl eq_refl) eq_refl))
              (ex_intro _ "m1" (ex_intro _ 1%Q (conj (or_introl eq_refl) eq_refl))))
    as (request & Hsent & _ & _ & _ & _ & Hmodels & _).
  - repeat constructor.
  - exists request. split; [exact Hsent | exact Hmodels].
Defined.

(** The set of indexed models never loses an element, whatever happens
    and whichever account is current. *)
Lemma indexedModels_grows (w : Sync.World) (e : Sync.Event) :
  Sync.indexedModels (Sync.tracking w) ⊆ Sync.indexedModels (Sync.tracking (Sync.step w e)).
Proof.
  destruct e as [user favorites | outcome | st same]; simpl.
  - destruct (Sync.sendIndexRequest_call user favorites (Sync.store w) (Sync.tracking w))
      as [[st1 t1] [|request k]] eqn:Ecall; simpl.
    + unfold Sync.sendIndexRequest_call in Ecall.
      destruct (Sync.initAccountKeys _) as [st2 s].
      destruct (_ || _); [now inversion Ecall |].
      destruct (_ =? _)%nat; [now inversion Ecall |].
      destruct (_ =? _)%nat; [now inversion Ecall | discriminate].
    + apply call_awaiting in Ecall as (_ & -> & _). reflexivity.
  - destruct (Sync.inFlight w) as [k|]; simpl; [| reflexivity].
    unfold Sync.sendIndexRequest_settle.
    destruct outcome as [status|]; simpl; [| reflexivity].
    destruct (responseOk status); simpl; [| reflexivity].
    intros m Hm. apply fold_add_elem. now left.
  - reflexivity.
Qed.

(** A session in which three calls are made before the response to the
    first arrives: one request is sent. *)
Example three_calls_one_request :
  let w := Sync.run (Sync.initialWorld (Sync.demoStore 1 0))
                    [Sync.Call "A" [Sync.demoGif]; Sync.Call "A" [Sync.demoGif];
                     Sync.SetStore (Sync.demoStore 1 1) false;
                     Sync.Call "A" [Sync.demoGif]] in
  Sync.sent w = [Sync.demoRequest] /\
  Sync.pendingIndexRequest (Sync.tracking w) = true /\
  Sync.pendingIndexRequest
    (Sync.tracking (Sync.step w (Sync.Settle Rejected))) = false.
Proof. vm_compute. repeat split. Qed.

(** C7.  After the account switch of [accountSwitch], the tracking
    variables say that account B is synchronised, yet the set of indexed
    models still holds m1, which was submitted for account A only (the
    request for B names m2 alone); with m1 enabled again, [shouldIndex]
    answers false for B, so m1 is never submitted for B. *)
Theorem indexedModels_survive_account_switch :
  let w := Sync.run (Sync.initialWorld (Sync.demoStore 1 0)) Sync.accountSwitch in
  Sync.lastUserId (Sync.tracking w) = Some "B" /\
  map Sync.models (Sync.sent w) = [["m1"]; ["m2"]] /\
  "m1" ∈ Sync.indexedModels (Sync.tracking w) /\
  Sync.getModelWeights (Sync.store w) = [("m1", 1%Q); ("m2", 1%Q)] /\
  Sync.shouldIndex "B" (Sync.store w) (Sync.tracking w) [Sync.demoGif] = false.
Proof.
  vm_compute. repeat split. 
Qed.

End IndexerFacts.

(** ** Sorting *)

Module SortFacts.
Import Js Fusion.

Section Sort.
Context {A : Type} (compare : A -> A -> float).

Lemma insertSorted_perm (x : A) (l : list A) :
  Permutation (insertSorted compare x l) (x :: l).
Proof.
  induction l as [|y l IH]; simpl; [reflexivity |].
  destruct (0 <? compare x y)%float; [| reflexivity].
  rewrite IH. apply perm_swap.
Qed.

Lemma sort_perm (l : list A) : Permutation (sort compare l) l.
Proof.
  induction l as [|x l IH]; simpl; [reflexivity |].
  rewrite insertSorted_perm. now apply perm_skip.
Qed.

(** [before a b]: the comparator puts [a] strictly before [b]. *)
Context (before : A -> A -> bool).
Hypothesis compare_before : forall x y, (0 <? compare x y)%float = before y x.

Section Sorted.
Context (ok : A -> Prop) (le : A -> A -> Prop).
Hypothesis before_le : forall x y, before x y = true -> le x y.
Hypothesis le_total : forall x y, ok x -> ok y -> before y x = false -> le x y.
Hypothesis le_trans : forall x y z, le x y -> le y z -> le x z.



End Sorted.

(** Stability: the elements of a class no two of which the comparator
    puts in strict order keep their relative order. *)
Section Stable.
Context (p : A -> bool).
Hypothesis class : forall x y, p x = true -> p y = true -> before y x = false.

Lemma insertSorted_stable (x : A) (l : list A) :
  List.filter p (insertSorted compare x l) = List.filter p (x :: l).
Proof.
  induction l as [|y l IH]; [reflexivity |].
  cbn [insertSorted]. rewrite compare_before.
  destruct (before y x) eqn:E; [| reflexivity].
  cbn [List.filter] in *. rewrite IH.
  destruct (p x) eqn:Ex, (p y) eqn:Ey; try reflexivity.
  rewrite (class x y Ex Ey) in E. discriminate.
Qed.

Lemma sort_stable (l : list A) :
  List.filter p (sort compare l) = List.filter p l.
Proof.
  induction l as [|x l IH]; [reflexivity |].
  cbn [sort fold_right]. fold (sort compare l).
  rewrite insertSorted_stable. cbn [List.filter]. now rewrite IH.
Qed.

End Stable.

End Sort.

Lemma sort_map {A B} (f : A -> B) (compare : B -> B -> float) (l : list A) :
  sort compare (map f l) = map f (sort (fun a b => compare (f a) (f b)) l).
Proof.
  induction l as [|x l IH]; [reflexivity |].
  cbn [map sort fold_right]. fold (sort compare (map f l)).
  fold (sort (fun a b => compare (f a) (f b)) l). rewrite IH.
  generalize (sort (fun a b => compare (f a) (f b)) l). intros s.
  induction s as [|y s IHs]; [reflexivity |].
  cbn [map insertSorted]. destruct (0 <? compare (f x) (f y))%float; [| reflexivity].
  cbn [map]. now rewrite IHs.
Qed.


(** [b.combinedScore - a.combinedScore] puts [b] strictly before [a]
    exactly when the combined score of [b] is higher. *)
Lemma byCombinedScore_before {B} (x y : float * B) :
  (0 <? fst y - fst x)%float = (fst x <? fst y)%float.
Proof. apply NumberFacts.sub_positive. Qed.




Lemma sort_byCombinedScore_stable {B} (cmp : float * B -> float * B -> float)
    (q : float) (entries : list (float * B)) :
  (forall a b, cmp a b = (fst b - fst a)%float) ->
  List.filter (fun e => (fst e =? q)%float) (sort cmp entries)
  = List.filter (fun e => (fst e =? q)%float) entries.
Proof.
  intros Hcmp.
  apply (sort_stable cmp (fun a b => (fst b <? fst a)%float)
                     (fun x y => eq_trans (f_equal (PrimFloat.ltb 0) (Hcmp x y))
                                          (byCombinedScore_before x y))).
  intros x y Hx Hy. now apply (NumberFacts.eqb_not_ltb _ _ q).
Qed.

End SortFacts.

(** ** Rank fusion *)

Module FusionFacts.
Import Js Fusion SortFacts.



Lemma setRanks_None (l : list (string * float)) (idx : nat) (m : gmap string nat)
    (u : string) :
  setRanks l idx m !! u = None <-> m !! u = None /\ ~ In u (map fst l).
Proof.
  revert idx m; induction l as [|[v s] l IH]; intros idx m; simpl.
  - tauto.
  - rewrite IH, lookup_insert_None. tauto.
Qed.



Lemma rankingMap_None (results : list (string * float)) (u : string) :
  rankingMap results !! u = None <-> ~ In u (map fst results).
Proof.
  unfold rankingMap. rewrite setRanks_None, lookup_empty.
  assert (Hp : Permutation (map fst (sort byScore results)) (map fst results))
    by apply Permutation_map, sort_perm.
  split.
  - intros [_ H] Hin. apply H. now apply (Permutation_in _ (Permutation_sym Hp)).
  - intros H. split; [reflexivity |]. intros Hin. apply H.
    now apply (Permutation_in _ Hp).
Qed.

Lemma rankingMap_is_Some (results : list (string * float)) (u : string) :
  (exists r, rankingMap results !! u = Some r) <-> exists s, In (u, s) results.
Proof.
  destruct (rankingMap results !! u) as [r|] eqn:E.
  - split; [intros _ | intros _; now exists r].
    destruct (in_dec string_dec u (map fst results)) as [Hin | Hnot].
    + apply in_map_iff in Hin as ([u' s] & Hu & Hin). simpl in Hu; subst u'.
      now exists s.
    + apply rankingMap_None in Hnot. congruence.
  - split; [intros [r Hr]; discriminate |].
    intros [s Hs]. apply rankingMap_None in E. exfalso. apply E.
    apply in_map_iff. now exists (u, s).
Qed.

(** The set of all locators. *)
Lemma setAdd_In (x u : string) (seen : list string) :
  In u (setAdd x seen) <-> u = x \/ In u seen.
Proof.
  unfold setAdd. destruct (existsb (String.eqb x) seen) eqn:E.
  - apply existsb_exists in E as (y & Hy & Hxy). apply String.eqb_eq in Hxy; subst y.
    split; [tauto | intros [-> | H]; assumption].
  - rewrite in_app_iff. simpl. intuition congruence.
Qed.

Lemma setAdd_NoDup (x : string) (seen : list string) :
  NoDup seen -> NoDup (setAdd x seen).
Proof.
  intros Hnd. unfold setAdd. destruct (existsb (String.eqb x) seen) eqn:E; [exact Hnd |].
  apply NoDup_app. split; [exact Hnd |]. split; [| apply NoDup_singleton].
  intros y Hy Hyx. apply list_elem_of_In in Hy.
  apply list_elem_of_In in Hyx. destruct Hyx as [<- | []].
  assert (existsb (String.eqb x) seen = true); [| congruence].
  apply existsb_exists. exists x. split; [exact Hy | apply String.eqb_refl].
Qed.

Lemma addResults_spec (results : list (string * float)) (seen : list string) :
  let seen' := fold_left (fun seen '(url, _) => setAdd url seen) results seen in
  (NoDup seen -> NoDup seen') /\
  forall u, In u seen' <-> In u seen \/ exists s, In (u, s) results.
Proof.
  revert seen; induction results as [|[v s] results IH]; intros seen; simpl.
  - split; [tauto |]. intros u. split; [tauto | intros [H | [s []]]; exact H].
  - destruct (IH (setAdd v seen)) as [Hnd Hin]. split.
    + intros H. now apply Hnd, setAdd_NoDup.
    + intros u. rewrite Hin, setAdd_In. split.
      * intros [[-> | H] | [s' H]]; [right; exists s; now left | now left |].
        right. exists s'. now right.
      * intros [H | [s' [H | H]]]; [tauto | | right; now exists s'].
        inversion H; subst. tauto.
Qed.

Lemma allUrls_spec (modelResults : list (string * list (string * float))) :
  NoDup (allUrls modelResults) /\
  forall u, In u (allUrls modelResults) <-> returned modelResults u.
Proof.
  unfold allUrls, returned.
  enough (G : forall seen,
             let seen' := fold_left
                            (fun seen '(_, results) =>
                               fold_left (fun seen '(url, _) => setAdd url seen) results seen)
                            modelResults seen in
             (NoDup seen -> NoDup seen') /\
             forall u, In u seen' <->
                       In u seen \/
                       exists modelId results score,
                         In (modelId, results) modelResults /\ In (u, score) results).
  { destruct (G []) as [Hnd Hin]. split; [apply Hnd; constructor |].
    intros u. rewrite Hin. simpl. tauto. }
  induction modelResults as [|[modelId results] rest IH]; intros seen; simpl.
  - split; [tauto |]. intros u. split; [tauto |].
    intros [H | (? & ? & ? & [] & _)]; exact H.
  - destruct (addResults_spec results seen) as [Hnd1 Hin1].
    destruct (IH (fold_left (fun seen '(url, _) => setAdd url seen) results seen))
      as [Hnd Hin].
    split; [intros H; now apply Hnd, Hnd1 |].
    intros u. rewrite Hin, Hin1. split.
    + intros [[H | [s H]] | (m & rs & s & Hm & Hs)].
      * now left.
      * right. exists modelId, results, s. split; [now left | exact H].
      * right. exists m, rs, s. split; [now right | exact Hs].
    + intros [H | (m & rs & s & [Hm | Hm] & Hs)].
      * left. now left.
      * inversion Hm; subst. left. right. now exists s.
      * right. exists m, rs, s. now split.
Qed.

Lemma filterBoolean_map_In {A B} (f : A -> option B) (l : list A) (y : B) :
  In y (filterBoolean (map f l)) <-> exists x, In x l /\ f x = Some y.
Proof.
  induction l as [|x l IH]; simpl.
  - split; [tauto | intros (? & [] & _)].
  - destruct (f x) as [z|] eqn:E; simpl; rewrite IH; split.
    + intros [<- | (x' & H1 & H2)]; [exists x; tauto | exists x'; tauto].
    + intros (x' & [<- | H1] & H2); [left; congruence | right; now exists x'].
    + intros (x' & H1 & H2). exists x'; tauto.
    + intros (x' & [<- | H1] & H2); [congruence | now exists x'].
Qed.

(** The surviving locators with their entries, in union order. *)
Lemma survivors_spec {B} (f : string -> option B) (urls : list string) :
  let tagged := filterBoolean (map (fun u => option_map (pair u) (f u)) urls) in
  map snd tagged = filterBoolean (map f urls) /\
  (NoDup urls -> NoDup (map fst tagged)) /\
  forall u e, In (u, e) tagged <-> In u urls /\ f u = Some e.
Proof.
  induction urls as [|v urls IH]; simpl.
  - split; [reflexivity |]. split; [intros _; constructor | tauto].
  - destruct IH as (IH1 & IH2 & IH3). destruct (f v) as [e|] eqn:E; simpl.
    + split; [now rewrite IH1 |]. split.
      * intros Hnd. inversion Hnd as [|? ? Hv Hrest]; subst.
        constructor; [| now apply IH2].
        intros Hin. apply list_elem_of_In, in_map_iff in Hin as ([u' e'] & Hu & Hin).
        simpl in Hu; subst u'. apply IH3 in Hin as [Hin _].
        apply Hv, list_elem_of_In, Hin.
      * intros u e'. rewrite IH3. split.
        -- intros [H | [H1 H2]]; [inversion H; subst; tauto | tauto].
        -- intros [[<- | H1] H2]; [left; congruence | tauto].
    + split; [exact IH1 |]. split.
      * intros Hnd. inversion Hnd; subst. now apply IH2.
      * intros u e'. rewrite IH3. split; [tauto |].
        intros [[<- | H1] H2]; [congruence | tauto].
Qed.


Lemma StronglySorted_impl {A} (R R' : A -> A -> Prop) (l : list A) :
  (forall a b, R a b -> R' a b) -> StronglySorted R l -> StronglySorted R' l.
Proof.
  intros HR. induction 1 as [|x l Hl IH Hx]; constructor; [exact IH |].
  revert Hx. apply List.Forall_impl. intros y. apply HR.
Qed.














(** Entries with one combined score keep the order in which the union
    enumerates their locators. *)
Lemma fuseScored_stable (weights : list (string * Value))
    (modelResults : list (string * list (string * float))) (favCopy : list Gif)
    (q : float) :
  List.filter (fun e => (fst e =? q)%float) (fuseScored weights modelResults favCopy)
  = List.filter (fun e => (fst e =? q)%float)
      (filterBoolean (map (aggregate weights (rankingMaps modelResults) favCopy)
                          (allUrls modelResults))).
Proof. unfold fuseScored. now apply sort_byCombinedScore_stable. Qed.

(** The example of the specification, evaluated: with the list of A
    enumerated first the union is x, y, z. *)
Lemma example_union :
  allUrls [exampleA; exampleB] = ["x"; "y"; "z"] /\
  allUrls [exampleB; exampleA] = ["y"; "x"; "z"].
Proof. split; reflexivity. Qed.

(** Rounding decides where the rationals tie: in [roundingA] and
    [roundingB] the locator u has the ranks 3 and 4 and v the ranks 2
    and 12, so both combined scores are 7/24 as rationals, and the
    union enumerates u before v; in binary64 the score of v is the
    greater one, and v is output first. *)
Example example_rounding_decides :
  take 2 (allUrls [roundingA; roundingB]) = ["u"; "v"] /\
  (rankingMap (snd roundingA) !! "u", rankingMap (snd roundingB) !! "u")
  = (Some 3%nat, Some 4%nat) /\
  (rankingMap (snd roundingA) !! "v", rankingMap (snd roundingB) !! "v")
  = (Some 2%nat, Some 12%nat) /\
  map (fun e => url (snd e)) (fuseScored exampleWeights [roundingA; roundingB] roundingFavCopy)
  = ["v"; "u"] /\
  match map fst (fuseScored exampleWeights [roundingA; roundingB] roundingFavCopy) with
  | [scoreV; scoreU] => (scoreU <? scoreV)%float = true
  | _ => False
  end.
Proof. vm_compute. repeat split. Qed.

(** Model ids that are names of [Object.prototype], which the
    hypotheses of the fusion theorem exclude.  For the id
    ["constructor"] the weight read is a function: the total weight is
    a text, not 0, and the combined score is NaN.  The id ["__proto__"]
    gets no ranking map, so a locator that only it returned has the
    total weight 0 and is dropped. *)
Example example_inherited_names :
  weightOf [] "constructor" = Inherited /\
  map (fun e => (url (snd e), is_nan (fst e)))
      (fuseScored [] [("constructor", [("x", 1%float)])] exampleFavCopy)
  = [("x", true)] /\
  rankingMaps [("__proto__", [("x", 1%float)])] = [] /\
  allUrls [("__proto__", [("x", 1%float)])] = ["x"] /\
  fuse [] [("__proto__", [("x", 1%float)])] exampleFavCopy = [].
Proof. vm_compute. repeat split; reflexivity. Qed.

(** C4, as stated: in the fused output of the example, y is not ranked
    above x. *)
Lemma example_y_not_above_x :
  ~ (rankedAbove (fuse exampleWeights [exampleA; exampleB] exampleFavCopy)
                 (exampleGif "y") (exampleGif "x") /\
     rankedAbove (fuse exampleWeights [exampleA; exampleB] exampleFavCopy)
                 (exampleGif "x") (exampleGif "z")).
Proof.
  intros [(i & j & Hi & Hj & Hlt) _].
  assert (Hout : fuse exampleWeights [exampleA; exampleB] exampleFavCopy
                 = [exampleGif "x"; exampleGif "y"; exampleGif "z"])
    by (vm_compute; reflexivity).
  rewrite Hout in Hi, Hj.
  destruct j as [|[|[|j]]]; simpl in Hj; try discriminate; try lia;
    destruct i as [|[|[|i]]]; simpl in Hi; try discriminate; try lia.
Qed.

(** C4, amended.  In the example x and y both get the combined score
    3/4 and z gets 1/3, in binary64 0.75 and the number nearest to 1/3;
    the tie between x and y is broken by the order in which the union
    enumerates them, so the fused order is x, y, z when the list of A
    comes first in the response and y, x, z when the list of B comes
    first.  The weights resolved by the later revision give the same.
    In general, the entries of one combined score are output in the
    order in which the union enumerates them (the scores not being
    NaN). *)
Theorem example_tie_broken_by_union_order :
  let ab := fuseScored exampleWeights [exampleA; exampleB] exampleFavCopy in
  let ba := fuseScored exampleWeights [exampleB; exampleA] exampleFavCopy in
  (forall weights modelResults favCopy q,
     noNaN (map fst (aggregated weights modelResults favCopy)) ->
     List.filter (fun e => (fst e =? q)%float) (fuseScored weights modelResults favCopy)
     = List.filter (fun e => (fst e =? q)%float)
         (filterBoolean (map (aggregate weights (rankingMaps modelResults) favCopy)
                             (allUrls modelResults)))) /\
  allUrls [exampleA; exampleB] = ["x"; "y"; "z"] /\
  allUrls [exampleB; exampleA] = ["y"; "x"; "z"] /\
  map snd ab = [exampleGif "x"; exampleGif "y"; exampleGif "z"] /\
  map fst ab = [0.75; 0.75; 1 / 3]%float /\
  map snd ba = [exampleGif "y"; exampleGif "x"; exampleGif "z"] /\
  map fst ba = [0.75; 0.75; 1 / 3]%float /\
  fuse (resolveWeights exampleWeights [exampleA; exampleB])
       [exampleA; exampleB] exampleFavCopy
  = [exampleGif "x"; exampleGif "y"; exampleGif "z"] /\
  fuse (resolveWeights exampleWeights [exampleB; exampleA])
       [exampleB; exampleA] exampleFavCopy
  = [exampleGif "y"; exampleGif "x"; exampleGif "z"] /\
  rankedAbove (map snd ab) (exampleGif "x") (exampleGif "y") /\
  rankedAbove (map snd ab) (exampleGif "y") (exampleGif "z") /\
  rankedAbove (map snd ba) (exampleGif "y") (exampleGif "x") /\
  rankedAbove (map snd ba) (exampleGif "x") (exampleGif "z").
Proof.
  intros ab ba.
  split; [intros weights modelResults favCopy q _; apply fuseScored_stable |].
  split; [reflexivity |]. split; [reflexivity |].
  assert (Hab : map snd ab = [exampleGif "x"; exampleGif "y"; exampleGif "z"])
    by (vm_compute; reflexivity).
  assert (Hba : map snd ba = [exampleGif "y"; exampleGif "x"; exampleGif "z"])
    by (vm_compute; reflexivity).
  split; [exact Hab |].
  split; [vm_compute; reflexivity |].
  split; [exact Hba |].
  split; [vm_compute; reflexivity |].
  split; [vm_compute; reflexivity |].
  split; [vm_compute; reflexivity |].
  rewrite Hab, Hba. unfold rankedAbove.
  split; [exists 0%nat, 1%nat | split; [exists 1%nat, 2%nat |
    split; [exists 0%nat, 1%nat | exists 1%nat, 2%nat]]];
    (split; [reflexivity | split; [reflexivity | lia]]).
Qed.

End FusionFacts.

(** ** Query orchestration *)

Module OrchestratorFacts.
Import Js Orchestrator.

(** What starting a search changes: the settings may get an empty
    [accountKeys], and at most one request is added, whose controller is
    then the one the ref names. *)
Lemma performSearch_call_spec (s : State) :
  let s' := performSearch_call s in
  query s' = query s /\ debouncedQuery s' = debouncedQuery s /\
  debounceTimeoutRef s' = debounceTimeoutRef s /\ timers s' = timers s /\
  aborted s' = aborted s /\ props s' = props s /\ dead s' = dead s /\
  forceUpdates s' = forceUpdates s /\ console s' = console s /\
  ((pending s' = pending s /\ abortControllerRef s' = abortControllerRef s) \/
   exists r, pending s' = (pending s ++ [r])%list /\
             abortControllerRef s' = Some (controller r)).
Proof.
  unfold performSearch_call. destruct (Sync.initAccountKeys (store s)) as [st1 keys].
  destruct (Sync.keyMissing keys (user s)); simpl; repeat split; auto.
  right. eexists. split; reflexivity.
Qed.

Lemma setDebouncedQuery_spec (q : string) (s : State) :
  let s' := setDebouncedQuery q s in
  query s' = query s /\
  debounceTimeoutRef s' = debounceTimeoutRef s /\ timers s' = timers s /\
  aborted s' = aborted s /\ props s' = props s /\ dead s' = dead s /\
  forceUpdates s' = forceUpdates s /\ console s' = console s /\
  (q = "" -> debouncedQuery s' = "" /\ pending s' = pending s /\
             abortControllerRef s' = abortControllerRef s) /\
  ((pending s' = pending s /\ abortControllerRef s' = abortControllerRef s) \/
   exists r, pending s' = (pending s ++ [r])%list /\
             abortControllerRef s' = Some (controller r)).
Proof.
  unfold setDebouncedQuery. destruct (String.eqb q (debouncedQuery s)) eqn:E.
  - apply String.eqb_eq in E. repeat split; auto. now rewrite <- E.
  - destruct (String.eqb q "") eqn:E0.
    + simpl. apply String.eqb_eq in E0. repeat split; auto.
    + apply String.eqb_neq in E0.
      match goal with |- context [performSearch_call ?s1] =>
        destruct (performSearch_call_spec s1)
          as (H1 & H2 & H3 & H4 & H5 & H6 & H7 & H8 & H9 & H10)
      end.
      simpl in *. repeat split; auto; try contradiction.
Qed.

Lemma clearDebounce_nil (s : State) :
  (forall t, In t (timers s) -> debounceTimeoutRef s = Some (fst t)) ->
  clearDebounce s = [].
Proof.
  intros Ha. unfold clearDebounce. destruct (debounceTimeoutRef s) as [id|] eqn:E.
  - induction (timers s) as [|t ts IH]; [reflexivity |]. simpl.
    assert (Ht : Some id = Some (fst t)) by (apply Ha; now left).
    inversion Ht; subst id. rewrite Nat.eqb_refl. simpl.
    apply IH. intros t' Ht'. apply Ha. now right.
  - destruct (timers s) as [|t ts]; [reflexivity |].
    discriminate (Ha t (or_introl eq_refl)).
Qed.

Lemma abortCurrent_covers (s : State) (r : Request) :
  (controller r ∈ aborted s \/ abortControllerRef s = Some (controller r)) ->
  controller r ∈ abortCurrent s.
Proof.
  unfold abortCurrent. intros [H | H].
  - destruct (abortControllerRef s); set_solver.
  - rewrite H. set_solver.
Qed.

Lemma abortCurrent_mono (s : State) : aborted s ⊆ abortCurrent s.
Proof. unfold abortCurrent. destruct (abortControllerRef s); set_solver. Qed.

Lemma refresh_controller (object : nat) (weights : list (string * Q)) (r : Request) :
  controller (refresh object weights r) = controller r.
Proof.
  unfold refresh. destruct (r_weightsObject r) as [o|]; [| reflexivity].
  now destruct (o =? object)%nat.
Qed.

Lemma In_map_refresh (object : nat) (weights : list (string * Q)) (r : Request)
    (l : list Request) :
  In r (map (refresh object weights) l) ->
  exists r', In r' l /\ controller r' = controller r.
Proof.
  intros H. apply in_map_iff in H as (r' & <- & Hr'). exists r'.
  split; [exact Hr' | now rewrite refresh_controller].
Qed.

(** After an input change, a clear or the teardown, no timer of an
    earlier input is set and every search that has not settled is
    aborted. *)
Lemma supersede_aborts (s : State) (e : Event) :
  invariant s -> supersedes e = true ->
  (forall r, In r (pending (step s e)) -> controller r ∈ aborted (step s e)) /\
  pending (step s e) = pending s /\
  (e = OnChange "" \/ e = OnClear -> timers (step s e) = [] /\
                                     debouncedQuery (step s e) = "").
Proof.
  intros (Ha & Hb & Hc) He.
  pose proof (clearDebounce_nil s Ha) as Hclear.
  assert (Hab : forall r, In r (pending s) -> controller r ∈ abortCurrent s)
    by (intros r Hr; now apply abortCurrent_covers, Hb).
  destruct e as [q | | | id | c o | p0 | st same | u0]; try discriminate; simpl.
  - unfold onChange. destruct (String.eqb q "") eqn:E.
    + match goal with |- context [setDebouncedQuery "" ?s1] =>
        destruct (setDebouncedQuery_spec "" s1)
          as (_ & _ & Ht & Hab' & _ & _ & _ & _ & H0 & _)
      end.
      destruct (H0 eq_refl) as (Hdq & Hp & _). simpl in *.
      rewrite Hab', Hp, Ht, Hdq, Hclear. repeat split; auto.
    + apply String.eqb_neq in E. simpl.
      split; [exact Hab | split; [reflexivity |]].
      intros [Heq | Heq]; [inversion Heq; congruence | discriminate].
  - unfold onClear.
    match goal with |- context [setDebouncedQuery "" ?s1] =>
      destruct (setDebouncedQuery_spec "" s1)
        as (_ & _ & Ht & Hab' & _ & _ & _ & _ & H0 & _)
    end.
    destruct (H0 eq_refl) as (Hdq & Hp & _). simpl in *.
    destruct (favCopy (props (setDebouncedQuery "" _))); simpl;
      rewrite ?Hab', ?Hp, ?Ht, ?Hdq, ?Hclear; repeat split; auto.
  - split; [exact Hab | split; [reflexivity |]].
    intros [Heq | Heq]; discriminate.
Qed.

Lemma filter_pending_In (c : nat) (l : list Request) (r : Request) :
  In r (List.filter (fun r' => negb (controller r' =? c)%nat) l) -> In r l.
Proof. intros H. now apply filter_In in H as [H _]. Qed.

Lemma step_invariant (s : State) (e : Event) :
  invariant s -> invariant (step s e).
Proof.
  intros Hinv. pose proof Hinv as (Ha & Hb & Hc).
  pose proof (clearDebounce_nil s Ha) as Hclear.
  destruct e as [q | | | id | c o | p0 | st same | u0].
  - destruct (supersede_aborts s (OnChange q) Hinv eq_refl) as (Hall & Hp & _).
    simpl in *. split; [| split; [intros r Hr; left; now apply Hall | intros _; exact Hall]].
    unfold onChange. destruct (String.eqb q "") eqn:E.
    + match goal with |- context [setDebouncedQuery "" ?s1] =>
        destruct (setDebouncedQuery_spec "" s1) as (_ & _ & Ht & _)
      end.
      simpl in *. rewrite Ht, Hclear. intros t [].
    + simpl. rewrite Hclear. intros t [<- | []]. reflexivity.
  - destruct (supersede_aborts s OnClear Hinv eq_refl) as (Hall & Hp & Ht).
    destruct (Ht (or_intror eq_refl)) as [Ht0 _].
    simpl in *. split; [| split; [intros r Hr; left; now apply Hall | intros _; exact Hall]].
    rewrite Ht0. intros t [].
  - destruct (supersede_aborts s Unmount Hinv eq_refl) as (Hall & Hp & _).
    simpl in *. split; [| split; [intros r Hr; left; now apply Hall | intros _; exact Hall]].
    unfold unmount. simpl. rewrite Hclear. intros t [].
  - simpl. unfold timerFires.
    destruct (find (fun t => (fst t =? id)%nat) (timers s)) as [[id' q]|] eqn:F;
      [| exact Hinv].
    apply find_some in F as [Hin Hid]. simpl in Hid. apply Nat.eqb_eq in Hid; subst id'.
    assert (Hne : timers s <> []) by (intros H; rewrite H in Hin; destruct Hin).
    assert (Hrest : List.filter (fun t => negb (fst t =? id)%nat) (timers s) = []).
    { pose proof (Ha _ Hin) as Hid. simpl in Hid.
      pose proof Hclear as Hcl. unfold clearDebounce in Hcl. now rewrite Hid in Hcl. }
    match goal with |- invariant (setDebouncedQuery q ?s1) => set (s1' := s1) end.
    destruct (setDebouncedQuery_spec q s1')
      as (_ & _ & Ht & Hab' & _ & _ & _ & _ & _ & Hpend).
    change (timers s1') with
      (List.filter (fun t => negb (fst t =? id)%nat) (timers s)) in Ht.
    change (aborted s1') with (aborted s) in Hab'.
    change (pending s1') with (pending s) in Hpend.
    unfold invariant. rewrite Ht, Hab', Hrest.
    split; [intros t [] | split; [| intros H; now contradiction H]].
    intros r Hr. destruct Hpend as [[Hp Hc'] | (r' & Hp & Hc')]; rewrite Hp in Hr.
    + left. now apply Hc.
    + apply in_app_iff in Hr as [Hr | [<- | []]]; [left; now apply Hc | now right].
  - simpl. destruct (find (fun r => (controller r =? c)%nat) (pending s)) as [r|];
      [| exact Hinv].
    unfold performSearch_settle.
    destruct (bool_decide _); [| destruct (applyResponse _ _ _)]; simpl;
      (split; [exact Ha | split; intros; [apply Hb | apply Hc; [assumption |]];
               eapply filter_pending_In; eassumption]).
  - exact Hinv.
  - simpl. destruct (same && Sync.hasWeights st); [| exact Hinv].
    split; [exact Ha | split].
    + intros r Hr. simpl in Hr. apply In_map_refresh in Hr as (r' & Hr' & <-).
      now apply Hb.
    + intros Hne r Hr. simpl in Hr. apply In_map_refresh in Hr as (r' & Hr' & <-).
      now apply Hc.
  - exact Hinv.
Qed.

Lemma run_invariant (events : list Event) (s : State) :
  invariant s -> invariant (run s events).
Proof.
  revert s; induction events as [|e events IH]; intros s H; [exact H |].
  simpl. apply IH. now apply step_invariant.
Qed.

Lemma initial_invariant (st : Sync.Store) (u : string) (p : Props) :
  invariant (initial st u p).
Proof. split; [| split]; simpl; intros; try contradiction. Qed.

(** An aborted controller stays aborted. *)
Lemma step_aborted_mono (s : State) (e : Event) : aborted s ⊆ aborted (step s e).
Proof.
  pose proof (abortCurrent_mono s) as Hm.
  destruct e as [q | | | id | c o | p0 | st same | u0]; simpl.
  - unfold onChange. destruct (String.eqb q ""); simpl; [| exact Hm].
    match goal with |- context [setDebouncedQuery "" ?s1] =>
      destruct (setDebouncedQuery_spec "" s1) as (_ & _ & _ & Hab & _)
    end. simpl in *. now rewrite Hab.
  - unfold onClear.
    match goal with |- context [setDebouncedQuery "" ?s1] =>
      destruct (setDebouncedQuery_spec "" s1) as (_ & _ & _ & Hab & _)
    end. simpl in *.
    destruct (favCopy (props (setDebouncedQuery "" _))); simpl; now rewrite ?Hab.
  - exact Hm.
  - unfold timerFires. destruct (find _ (timers s)) as [[id' q]|]; [| reflexivity].
    match goal with |- context [setDebouncedQuery q ?s1] =>
      destruct (setDebouncedQuery_spec q s1) as (_ & _ & _ & Hab & _)
    end. simpl in *. now rewrite Hab.
  - destruct (find _ (pending s)) as [r|]; [| reflexivity].
    unfold performSearch_settle.
    destruct (bool_decide _); [| destruct (applyResponse _ _ _)]; reflexivity.
  - reflexivity.
  - simpl. now destruct (same && Sync.hasWeights st).
  - reflexivity.
Qed.

Lemma run_aborted_mono (events : list Event) (s : State) :
  aborted s ⊆ aborted (run s events).
Proof.
  revert s; induction events as [|e events IH]; intros s; [reflexivity |].
  simpl. etransitivity; [apply step_aborted_mono | apply IH].
Qed.

(** The response to a request whose controller is aborted is dropped:
    only the line "Fetch aborted" is logged. *)
Lemma settle_aborted (s : State) (c : nat) (outcome : SearchOutcome) :
  c ∈ aborted s ->
  let s' := step s (SearchSettles c outcome) in
  props s' = props s /\ forceUpdates s' = forceUpdates s /\
  List.filter isError (console s') = List.filter isError (console s) /\
  query s' = query s /\ debouncedQuery s' = debouncedQuery s /\
  timers s' = timers s /\ debounceTimeoutRef s' = debounceTimeoutRef s /\
  abortControllerRef s' = abortControllerRef s /\ aborted s' = aborted s /\
  dead s' = dead s /\ store s' = store s /\ user s' = user s.
Proof.
  intros Hc. simpl.
  destruct (find (fun r => (controller r =? c)%nat) (pending s)) as [r|] eqn:F.
  - apply find_some in F as [_ Hr]. apply Nat.eqb_eq in Hr. subst c.
    unfold performSearch_settle. rewrite bool_decide_eq_true_2 by exact Hc.
    simpl. rewrite List.filter_app. simpl. rewrite app_nil_r. repeat split.
  - repeat split.
Qed.

(** C8.  An input change to the empty string, and a clear, restore the
    view at once to the snapshot [favCopy] (for the clear: a snapshot
    that is there, as the [Instance] interface declares it): no timer is
    left or set, the debounced query is empty, no request is issued,
    every search that has not settled is aborted, and whatever then
    arrives for one of them leaves the view as it is. *)
Theorem empty_query_restores_favCopy (st : Sync.Store) (u : string) (p : Props)
    (events : list Event) (e : Event) (fc : list Gif) :
  e = OnChange "" \/ e = OnClear ->
  let s := run (initial st u p) events in
  favCopy (props s) = Some fc ->
  let s' := step s e in
  favorites (props s') = Some fc /\ favCopy (props s') = Some fc /\
  query s' = "" /\ debouncedQuery s' = "" /\ timers s' = [] /\
  pending s' = pending s /\
  (forall r, In r (pending s') -> controller r ∈ aborted s') /\
  (forall c outcome, props (step s' (SearchSettles c outcome)) = props s').
Proof.
  intros He s Hfc s'.
  assert (Hinv : invariant s) by apply run_invariant, initial_invariant.
  assert (Hsup : supersedes e = true) by (destruct He as [-> | ->]; reflexivity).
  destruct (supersede_aborts s e Hinv Hsup) as (Hall & Hp & Ht).
  destruct (Ht He) as [Ht0 Hdq]. fold s' in Hall, Hp, Ht0, Hdq.
  assert (Hview : favorites (props s') = Some fc /\ favCopy (props s') = Some fc /\
                  query s' = "").
  { subst s'. destruct He as [-> | ->]; simpl.
    - unfold onChange. simpl.
      match goal with |- context [setDebouncedQuery "" ?s1] =>
        destruct (setDebouncedQuery_spec "" s1) as (Hq & _ & _ & _ & Hpr & _)
      end. simpl in *. rewrite Hpr, Hq, Hfc. repeat split.
    - unfold onClear.
      match goal with |- context [setDebouncedQuery "" ?s1] =>
        destruct (setDebouncedQuery_spec "" s1) as (Hq & _ & _ & _ & Hpr & _)
      end. simpl in *. rewrite Hpr, Hfc. simpl. rewrite Hq. repeat split. }
  destruct Hview as (Hv1 & Hv2 & Hv3).
  repeat split; try assumption.
  intros c outcome. simpl.
  destruct (find (fun r => (controller r =? c)%nat) (pending s')) as [r|] eqn:F;
    [| reflexivity].
  apply find_some in F as [Hin Hr]. apply Hall in Hin.
  unfold performSearch_settle. now rewrite bool_decide_eq_true_2.
Qed.

Lemma empty_query_restores_favCopy_witness :
  let s := run (initial (Sync.demoStore 1 1) "A" demoProps)
               [OnChange "cat"; TimerFires 0] in
  map controller (pending s) = [1%nat] /\
  favorites (props (step s (OnChange ""))) = Some Fusion.exampleFavCopy /\
  props (step (step s (OnChange "")) (SearchSettles 1 demoResponse))
  = props (step s (OnChange "")).
Proof.
  intros s. split; [vm_compute; reflexivity |].
  destruct (empty_query_restores_favCopy
              (Sync.demoStore 1 1) "A" demoProps [OnChange "cat"; TimerFires 0]
              (OnChange "") Fusion.exampleFavCopy (or_introl eq_refl) eq_refl)
    as (H1 & _ & _ & _ & _ & _ & _ & H2).
  split; [exact H1 | exact (H2 1%nat demoResponse)].
Defined.

(** C9.  Once an input change, a clear or the teardown has superseded a
    search that had not settled, whatever arrives for that search
    afterwards is dropped: the view, the count of forced updates and
    every other variable of the component are left as they are, and no
    error is logged. *)
Theorem superseded_response_dropped (st : Sync.Store) (u : string) (p : Props)
    (before after : list Event) (e : Event) (c : nat) (outcome : SearchOutcome) :
  supersedes e = true ->
  let s1 := run (initial st u p) before in
  In c (map controller (pending s1)) ->
  let s3 := run (step s1 e) after in
  let s4 := step s3 (SearchSettles c outcome) in
  props s4 = props s3 /\ forceUpdates s4 = forceUpdates s3 /\
  List.filter isError (console s4) = List.filter isError (console s3) /\
  query s4 = query s3 /\ debouncedQuery s4 = debouncedQuery s3 /\
  timers s4 = timers s3 /\ debounceTimeoutRef s4 = debounceTimeoutRef s3 /\
  abortControllerRef s4 = abortControllerRef s3 /\ aborted s4 = aborted s3 /\
  dead s4 = dead s3 /\ store s4 = store s3 /\ user s4 = user s3.
Proof.
  intros He s1 Hc s3 s4.
  assert (Hinv : invariant s1) by apply run_invariant, initial_invariant.
  destruct (supersede_aborts s1 e Hinv He) as (Hall & Hp & _).
  apply in_map_iff in Hc as (r & <- & Hr). rewrite <- Hp in Hr.
  apply Hall in Hr. apply (run_aborted_mono after) in Hr.
  now apply settle_aborted.
Qed.

Lemma superseded_response_dropped_witness :
  let s1 := run (initial (Sync.demoStore 1 1) "A" demoProps)
                [OnChange "cat"; TimerFires 0] in
  let s3 := run (step s1 (OnChange "c")) [TimerFires 2] in
  map controller (pending s1) = [1%nat] /\
  props (step s3 (SearchSettles 1 demoResponse)) = props s3 /\
  List.filter isError (console (step s3 (SearchSettles 1 demoResponse)))
  = List.filter isError (console s3).
Proof.
  intros s1 s3. split; [vm_compute; reflexivity |].
  destruct (superseded_response_dropped
              (Sync.demoStore 1 1) "A" demoProps [OnChange "cat"; TimerFires 0]
              [TimerFires 2] (OnChange "c") 1%nat demoResponse eq_refl
              (or_introl eq_refl))
    as (H1 & _ & H2 & _).
  split; [exact H1 | exact H2].
Defined.

(** A response that is not superseded is applied. *)
Example response_applied :
  option_map (map url)
    (favorites (props (run demoStart [OnChange "cat"; TimerFires 0;
                                      SearchSettles 1 demoResponse])))
  = Some ["x"; "y"].
Proof. vm_compute. reflexivity. Qed.

End OrchestratorFacts.

(** ** Records, weights and keys *)

Module SettingsFacts.
Import Js Settings.

Lemma getProp_setProp {T} (o : list (string * T)) (k k' : string) (v : T) :
  getProp (setProp o k v) k' = if String.eqb k k' then Some v else getProp o k'.
Proof.
  induction o as [|[k0 v0] o IH]; simpl.
  - destruct (String.eqb k k'); reflexivity.
  - destruct (String.eqb k0 k) eqn:E; simpl.
    + apply String.eqb_eq in E; subst k0. now destruct (String.eqb k k').
    + rewrite IH. destruct (String.eqb k0 k') eqn:E'; [| reflexivity].
      apply String.eqb_eq in E'; subst k0. now rewrite String.eqb_sym, E.
Qed.

Lemma setProp_In {T} (o : list (string * T)) (k : string) (v : T) :
  In (k, v) (setProp o k v).
Proof.
  induction o as [|[k0 v0] o IH]; simpl; [now left |].
  destruct (String.eqb k0 k) eqn:E.
  - apply String.eqb_eq in E; subst k0. now left.
  - now right.
Qed.


(** X1.  The models a search asks for are the models an index request
    submits, in the same order: the models of the weights record whose
    weight is positive. *)
Theorem searchModels_positiveModels (weights : list (string * Q)) :
  searchModels weights = Sync.positiveModels weights /\
  forall m, In m (Sync.positiveModels weights) <->
            exists w, In (m, w) weights /\ (0 < w)%Q.
Proof.
  split; [symmetry; apply SyncFacts.positiveModels_filter | apply SyncFacts.positiveModels_In].
Qed.






Lemma weightsLoop_setProp_indexed (ws : list (string * Q)) (name : string)
    (weight : Q) (t : Sync.Tracking) :
  name ∈ Sync.indexedModels t ->
  Sync.weightsLoop (setProp ws name weight) t = Sync.weightsLoop ws t.
Proof.
  intros Hin. rewrite !SyncFacts.weightsLoop_existsb.
  assert (Hname : forall w, gtb w 0 && negb (bool_decide (name ∈ Sync.indexedModels t))
                            = false).
  { intros w. rewrite bool_decide_eq_true_2 by exact Hin. apply andb_false_r. }
  induction ws as [|[k0 w0] ws IH]; simpl.
  - now rewrite Hname.
  - destruct (String.eqb k0 name) eqn:E; simpl.
    + apply String.eqb_eq in E; subst k0. now rewrite !Hname.
    + now rewrite IH.
Qed.

(** X4.  Moving the slider of a model that is already indexed, to any
    weight, does not change the answer of [shouldIndex]; giving a
    positive weight to a model that is not indexed makes it answer
    true. *)
Theorem setModelWeight_shouldIndex (models : list (string * Q)) (name : string)
    (weight : Q) (user : string) (st : Sync.Store) (t : Sync.Tracking)
    (favorites : list Gif) :
  Sync.getModelWeights st = models ->
  let st' := snd (setModelWeight models name weight st) in
  (name ∈ Sync.indexedModels t ->
   Sync.shouldIndex user st' t favorites = Sync.shouldIndex user st t favorites) /\
  ((0 < weight)%Q -> name ∉ Sync.indexedModels t ->
   Sync.shouldIndex user st' t favorites = true).
Proof.
  intros Hst st'. subst st'. unfold setModelWeight, Sync.shouldIndex. cbn [snd].
  change (Sync.getModelWeights (setWeights st ?w)) with w. rewrite Hst. split.
  - intros Hin. now rewrite weightsLoop_setProp_indexed.
  - intros Hw Hnot. destruct (negb (bool_decide _)); [reflexivity |].
    destruct (negb _ || negb _); [reflexivity |].
    apply SyncFacts.weightsLoop_true. exists name, weight.
    split; [apply setProp_In | now split].
Qed.

Lemma setModelWeight_shouldIndex_witness :
  Sync.shouldIndex "A"
    (snd (setModelWeight [("m1", 1%Q); ("m2", 0%Q)] "m2" 1%Q (Sync.demoStore 1 0)))
    (Sync.mkTracking (Some "A") ["https://tenor.com/view/y"] {["m1"]} false [])
    [Sync.demoGif] = true.
Proof.
  refine (proj2 (setModelWeight_shouldIndex
                   [("m1", 1%Q); ("m2", 0%Q)] "m2" 1%Q "A" (Sync.demoStore 1 0)
                   (Sync.mkTracking (Some "A") ["https://tenor.com/view/y"] {["m1"]}
                                    false [])
                   [Sync.demoGif] eq_refl) _ _).
  - reflexivity.
  - set_solver.
Defined.

End SettingsFacts.

(** ** The indexer and the change detector together *)

Module SyncExtra.
Import Js.

Lemma length_zero_iff {A} (l : list A) : (length l =? 0)%nat = true <-> l = [].
Proof. destruct l; simpl; split; congruence. Qed.

(** X5.  [sendIndexRequest] sends a request exactly when no submission
    is outstanding, the current account has a key of 32 characters, at
    least one favourite passes the validator and at least one model has
    a positive weight; in every other case it returns with the tracking
    variables as they were. *)
Theorem sendIndexRequest_sends_iff (user : string) (favorites : list Gif)
    (st : Sync.Store) (t : Sync.Tracking) :
  let outcome := Sync.sendIndexRequest_call user favorites st t in
  (snd outcome <> Sync.Returned <->
     Sync.pendingIndexRequest t = false /\
     (exists key, getProp (snd (Sync.initAccountKeys st)) user = Some key /\
                  String.length key = 32%nat) /\
     (exists g, In g favorites /\ Validator.accepted g = true) /\
     (exists m w, In (m, w) (Sync.getModelWeights st) /\ (0 < w)%Q)) /\
  (snd outcome = Sync.Returned -> snd (fst outcome) = t) /\
  fst (fst outcome) = fst (Sync.initAccountKeys st).
Proof.
  unfold Sync.sendIndexRequest_call.
  pose proof (IndexerFacts.initAccountKeys_weights st) as Hw.
  destruct (Sync.initAccountKeys st) as [st1 keys]. cbn [fst snd] in *.
  assert (Hkey : Sync.keyMissing keys user = false <->
                 exists key, getProp keys user = Some key /\ String.length key = 32%nat).
  { unfold Sync.keyMissing. destruct (getProp keys user) as [key|].
    - rewrite negb_false_iff, Nat.eqb_eq. split; [intros H; now exists key |].
      intros (key' & Hk & Hl). now inversion Hk; subst.
    - split; [discriminate | intros (key' & Hk & _); discriminate]. }
  assert (Hvalid : (length (Validator.validGifs favorites) =? 0)%nat = false <->
                   exists g, In g favorites /\ Validator.accepted g = true).
  { rewrite IndexerFacts.validGifs_filter, length_map.
    destruct (List.filter Validator.accepted favorites) as [|g gs] eqn:E; simpl.
    - apply IndexerFacts.filter_nil_iff in E. split; [discriminate | intros H; now destruct E].
    - split; [intros _ | reflexivity]. exists g. apply filter_In. rewrite E. now left. }
  assert (Hmodels : (length (Sync.positiveModels (Sync.getModelWeights st1)) =? 0)%nat
                    = false <->
                    exists m w, In (m, w) (Sync.getModelWeights st) /\ (0 < w)%Q).
  { rewrite Hw.
    destruct (Sync.positiveModels (Sync.getModelWeights st)) as [|m ms] eqn:E; simpl.
    - split; [discriminate |]. intros (m & w & Hin & Hpos).
      assert (Hm : In m (Sync.positiveModels (Sync.getModelWeights st)))
        by (apply SyncFacts.positiveModels_In; now exists w).
      now rewrite E in Hm.
    - split; [intros _ | reflexivity].
      assert (Hm : In m (Sync.positiveModels (Sync.getModelWeights st)))
        by (rewrite E; now left).
      apply SyncFacts.positiveModels_In in Hm as (w & Hin & Hpos).
      now exists m, w. }
  destruct (Sync.pendingIndexRequest t); cbn [orb].
  { cbn [fst snd]. split; [| split; [reflexivity | reflexivity]].
    split; [congruence | intros (H & _); discriminate]. }
  destruct (Sync.keyMissing keys user).
  { cbn [fst snd]. split; [| split; [reflexivity | reflexivity]].
    split; [congruence |]. intros (_ & H & _). apply Hkey in H. discriminate. }
  destruct (length (Validator.validGifs favorites) =? 0)%nat.
  { cbn [fst snd]. split; [| split; [reflexivity | reflexivity]].
    split; [congruence |]. intros (_ & _ & H & _). apply Hvalid in H. discriminate. }
  destruct (length (Sync.positiveModels (Sync.getModelWeights st1)) =? 0)%nat.
  { cbn [fst snd]. split; [| split; [reflexivity | reflexivity]].
    split; [congruence |]. intros (_ & _ & _ & H). apply Hmodels in H. discriminate. }
  cbn [fst snd]. split; [| split; [discriminate | reflexivity]].
  split; [intros _ | discriminate].
  split; [reflexivity |]. split; [now apply Hkey |].
  split; [now apply Hvalid | now apply Hmodels].
Qed.

(** X6.  A request that is sent carries, position by position, the id
    and the locator of the favourites that pass the validator, in their
    order, and so only items that satisfy the validator's rules; its
    models are the models with a positive weight, at least one; and it
    goes to the index of the current account's key, which has 32
    characters. *)
Theorem indexRequest_wellformed (user : string) (favorites : list Gif)
    (st st' : Sync.Store) (t t' : Sync.Tracking) (request : Sync.IndexRequest)
    (k : Sync.Continuation) :
  Sync.sendIndexRequest_call user favorites st t = (st', t', Sync.Awaiting request k) ->
  combine (Sync.names request) (Sync.media_srcs request)
  = map (fun g => (url g, src g)) (List.filter Validator.accepted favorites) /\
  length (Sync.names request) = length (Sync.media_srcs request) /\
  Sync.names request <> [] /\
  (forall name locator,
     In (name, locator) (combine (Sync.names request) (Sync.media_srcs request)) ->
     exists g, In g favorites /\ Validator.Valid g /\ url g = name /\ src g = locator) /\
  Sync.models request <> [] /\
  (forall m, In m (Sync.models request) <->
             exists w, In (m, w) (Sync.getModelWeights st) /\ (0 < w)%Q) /\
  exists key, getProp (snd (Sync.initAccountKeys st)) user = Some key /\
              String.length key = 32%nat /\
              Sync.endpoint request = Sync.api_url st +:+ "/" +:+ key +:+ "/index".
Proof.
  unfold Sync.sendIndexRequest_call.
  pose proof (IndexerFacts.initAccountKeys_weights st) as Hw.
  assert (Hurl : Sync.api_url (fst (Sync.initAccountKeys st)) = Sync.api_url st)
    by (unfold Sync.initAccountKeys; now destruct (Sync.accountKeys st)).
  destruct (Sync.initAccountKeys st) as [st1 keys]. cbn [fst snd] in *.
  destruct (Sync.pendingIndexRequest t); [discriminate |]. cbn [orb].
  destruct (Sync.keyMissing keys user) eqn:Ek; [discriminate |].
  destruct (length (Validator.validGifs favorites) =? 0)%nat eqn:Ev; [discriminate |].
  destruct (length (Sync.positiveModels (Sync.getModelWeights st1)) =? 0)%nat eqn:Em;
    [discriminate |].
  intros H. inversion H; subst; clear H. cbn [Sync.names Sync.media_srcs Sync.models
                                             Sync.endpoint].
  assert (Hcombine : forall l : list (string * string),
             combine (map fst l) (map snd l) = l).
  { induction l as [|[a b] l IH]; simpl; [reflexivity | now rewrite IH]. }
  rewrite Hcombine, IndexerFacts.validGifs_filter.
  split; [reflexivity |].
  split; [now rewrite !length_map |].
  split.
  { intros Hnil. rewrite IndexerFacts.validGifs_filter in Ev.
    destruct (List.filter Validator.accepted favorites);
      [discriminate Ev | discriminate Hnil]. }
  split.
  { intros name locator Hin.
    apply in_map_iff in Hin as (g & Hg & Hin). inversion Hg; subst.
    apply filter_In in Hin as [Hin Hacc]. exists g.
    split; [exact Hin |]. split; [now apply ValidatorFacts.accepted_Valid |].
    now split. }
  split.
  { intros Hnil. rewrite Hnil in Em. discriminate. }
  split; [intros m; rewrite Hw; apply SyncFacts.positiveModels_In |].
  destruct (proj1 (IndexerFacts.keyMissing_false keys user) Ek) as (key & Hk & Hl).
  exists key. rewrite Hk, Hurl. repeat split; assumption.
Qed.

Lemma indexRequest_wellformed_witness :
  Sync.models Sync.demoRequest <> [] /\
  length (Sync.names Sync.demoRequest) = length (Sync.media_srcs Sync.demoRequest).
Proof.
  destruct (indexRequest_wellformed
              "A" [Sync.demoGif] (Sync.demoStore 1 0) (Sync.demoStore 1 0)
              Sync.initialTracking (Sync.setPending true Sync.initialTracking)
              Sync.demoRequest Sync.demoContinuation eq_refl)
    as (_ & H1 & _ & _ & H2 & _).
  split; [exact H2 | exact H1].
Defined.

Lemma addModels_In (models : list string) (indexed : gset string) (m : string) :
  In m models -> m ∈ Sync.addModels models indexed.
Proof. intros H. apply IndexerFacts.fold_add_elem. now right. Qed.

(** X7.  After a submission has succeeded, [shouldIndex] answers false
    for the same account, favourites and weights, whatever the tracking
    variables were when the response arrived: nothing is sent again
    until something changes.  In both revisions. *)
Theorem synced_after_success
    (user : string) (favorites : list Gif) (outcome : FetchOutcome)
    (st st' : Sync.Store) (t t' now : Sync.Tracking)
    (request : Sync.IndexRequest) (k : Sync.Continuation)
    (object : list (string * Q))
    (st1 : SyncV1.Store) (t1 t1' now1 : SyncV1.Tracking)
    (request1 : SyncV1.IndexRequest) (k1 : SyncV1.Continuation) :
  Sync.sendIndexRequest_call user favorites st t = (st', t', Sync.Awaiting request k) ->
  SyncV1.sendIndexRequest_call favorites st1 t1 = (t1', SyncV1.Awaiting request1 k1) ->
  succeeded outcome = true ->
  Sync.shouldIndex user st' (Sync.sendIndexRequest_settle k outcome object now) favorites
  = false /\
  SyncV1.shouldIndex st1 (SyncV1.sendIndexRequest_settle k1 outcome st1 now1) favorites
  = false.
Proof.
  intros Hcall Hcall1 Hok.
  destruct outcome as [status|]; [| discriminate]. simpl in Hok. split.
  - assert (Hst : Sync.getModelWeights st' = Sync.getModelWeights st).
    { pose proof (IndexerFacts.initAccountKeys_weights st) as Hw.
      unfold Sync.sendIndexRequest_call in Hcall.
      destruct (Sync.initAccountKeys st) as [st2 keys]. cbn [fst] in Hw.
      destruct (_ || _); [discriminate |].
      destruct (_ =? _)%nat; [discriminate |].
      destruct (_ =? _)%nat; [discriminate |].
      inversion Hcall; subst. exact Hw. }
    apply IndexerFacts.call_awaiting in Hcall as (_ & _ & Hnames & Hmodels & ->).
    unfold Sync.sendIndexRequest_settle. rewrite Hok.
    unfold Sync.shouldIndex. cbn.
    rewrite bool_decide_eq_true_2 by reflexivity. cbn [negb].
    rewrite (proj2 (SyncFacts.sameIds_eq _ _)) by (symmetry; exact Hnames).
    destruct (Sync.weightsLoop _ _) eqn:E; [| reflexivity].
    apply SyncFacts.weightsLoop_true in E as (m & w & Hin & Hw & Hnot). cbn in Hnot.
    exfalso. apply Hnot, addModels_In. rewrite Hmodels.
    apply SyncFacts.positiveModels_In. exists w. rewrite <- Hst. now split.
  - unfold SyncV1.sendIndexRequest_call in Hcall1.
    destruct (_ || _ || _); [discriminate |].
    destruct (length (Validator.validGifs favorites) =? 0)%nat; [discriminate |].
    destruct (length _ =? 0)%nat; [discriminate |].
    inversion Hcall1; subst; clear Hcall1.
    set (models := if gtb (SyncV1.X_CLIP_ranking st1) 0 then _ else _).
    set (after := SyncV1.sendIndexRequest_settle _ _ _ _).
    assert (H1 : SyncV1.lastIndexedFavorites after = Validator.getValidGifUrls favorites).
    { subst after. unfold SyncV1.sendIndexRequest_settle. rewrite Hok. cbn.
      apply IndexerFacts.names_validIds. }
    assert (H2 : forall m, In m models -> m ∈ SyncV1.indexedModels after).
    { intros m Hm. subst after. unfold SyncV1.sendIndexRequest_settle. rewrite Hok. cbn.
      apply IndexerFacts.fold_add_elem. now right. }
    unfold SyncV1.shouldIndex.
    rewrite SyncFacts.shouldIndexV1_weights, H1.
    rewrite (proj2 (SyncFacts.sameIds_eq _ _)) by reflexivity.
    apply orb_false_intro; apply andb_false_iff.
    + destruct (gtb (SyncV1.VideoCLIP_XL_v2_ranking st1) 0) eqn:E0; [right | now left].
      apply negb_false_iff, bool_decide_eq_true_2, H2. subst models.
      destruct (gtb (SyncV1.X_CLIP_ranking st1) 0); simpl; tauto.
    + destruct (gtb (SyncV1.X_CLIP_ranking st1) 0) eqn:E1; [right | now left].
      apply negb_false_iff, bool_decide_eq_true_2, H2. subst models.
      apply in_app_iff. right. now left.
Qed.

Lemma synced_after_success_witness :
  Sync.shouldIndex "A" (Sync.demoStore 1 0)
    (Sync.sendIndexRequest_settle Sync.demoContinuation (Responded 200)
                                  [("m1", 1%Q); ("m2", 0%Q)]
                                  Sync.initialTracking) [Sync.demoGif] = false.
Proof.
  exact (proj1 (synced_after_success
                  "A" [Sync.demoGif] (Responded 200)
                  (Sync.demoStore 1 0) (Sync.demoStore 1 0)
                  Sync.initialTracking (Sync.setPending true Sync.initialTracking)
                  Sync.initialTracking Sync.demoRequest Sync.demoContinuation
                  [("m1", 1%Q); ("m2", 0%Q)]
                  SyncV1.demoStore
                  SyncV1.initialTracking (SyncV1.setPending true SyncV1.initialTracking)
                  SyncV1.initialTracking SyncV1.demoRequest SyncV1.demoContinuation
                  eq_refl eq_refl eq_refl)).
Defined.

Lemma SyncExtra_returned (user : string) (favorites : list Gif) (st : Sync.Store)
    (t : Sync.Tracking) :
  snd (Sync.sendIndexRequest_call user favorites st t) = Sync.Returned ->
  snd (fst (Sync.sendIndexRequest_call user favorites st t)) = t.
Proof.
  unfold Sync.sendIndexRequest_call. destruct (Sync.initAccountKeys st) as [st1 keys].
  destruct (_ || _); [reflexivity |].
  destruct (_ =? _)%nat; [reflexivity |].
  destruct (_ =? _)%nat; [reflexivity | discriminate].
Qed.

Lemma initAccountKeys_idem (st : Sync.Store) :
  Sync.initAccountKeys (fst (Sync.initAccountKeys st)) = Sync.initAccountKeys st.
Proof.
  unfold Sync.initAccountKeys. destruct (Sync.accountKeys st) eqn:E; simpl; now rewrite ?E.
Qed.

Lemma call_store (user : string) (favorites : list Gif) (st : Sync.Store)
    (t : Sync.Tracking) :
  Sync.sendIndexRequest_call user favorites (fst (Sync.initAccountKeys st)) t
  = Sync.sendIndexRequest_call user favorites st t.
Proof.
  unfold Sync.sendIndexRequest_call. now rewrite initAccountKeys_idem.
Qed.

(** X8.  After a submission has failed (a non-2xx response or a rejected
    request), the tracking variables are what they were before the call,
    [shouldIndex] answers what it answered then, and the same call sends
    the same request again: the next check retries. *)
Theorem failed_submission_retries
    (user : string) (favorites : list Gif) (outcome : FetchOutcome)
    (st st' : Sync.Store) (t t' : Sync.Tracking)
    (request : Sync.IndexRequest) (k : Sync.Continuation)
    (object : list (string * Q)) :
  Sync.sendIndexRequest_call user favorites st t = (st', t', Sync.Awaiting request k) ->
  succeeded outcome = false ->
  let after := Sync.sendIndexRequest_settle k outcome object t' in
  after = t /\
  Sync.shouldIndex user st' after favorites = Sync.shouldIndex user st t favorites /\
  Sync.sendIndexRequest_call user favorites st' after
  = (st', t', Sync.Awaiting request k).
Proof.
  intros Hcall Hfail after.
  assert (Hst : st' = fst (Sync.initAccountKeys st)).
  { unfold Sync.sendIndexRequest_call in Hcall.
    destruct (Sync.initAccountKeys st) as [st2 keys].
    destruct (_ || _); [discriminate |].
    destruct (_ =? _)%nat; [discriminate |].
    destruct (_ =? _)%nat; [discriminate |].
    now inversion Hcall. }
  pose proof Hcall as Hcall'.
  apply IndexerFacts.call_awaiting in Hcall' as (Hp & Ht' & _).
  assert (Hafter : after = t).
  { subst after t'. unfold Sync.sendIndexRequest_settle.
    replace (match outcome with
             | Responded status => if responseOk status then _ else _
             | Rejected => _
             end) with (Sync.setPending true t).
    - destruct t; simpl in *. now subst.
    - destruct outcome as [status|]; simpl in Hfail; [now rewrite Hfail | reflexivity]. }
  rewrite Hafter. split; [reflexivity |]. split.
  - unfold Sync.shouldIndex. subst st'.
    now rewrite IndexerFacts.initAccountKeys_weights.
  - subst st'. rewrite call_store. exact Hcall.
Qed.

Lemma failed_submission_retries_witness :
  Sync.sendIndexRequest_call "A" [Sync.demoGif] (Sync.demoStore 1 0)
    (Sync.sendIndexRequest_settle Sync.demoContinuation (Responded 503)
                                  [("m1", 1%Q); ("m2", 0%Q)]
                                  (Sync.setPending true Sync.initialTracking))
  = (Sync.demoStore 1 0, Sync.setPending true Sync.initialTracking,
     Sync.Awaiting Sync.demoRequest Sync.demoContinuation).
Proof.
  exact (proj2 (proj2 (failed_submission_retries
                         "A" [Sync.demoGif] (Responded 503)
                         (Sync.demoStore 1 0) (Sync.demoStore 1 0)
                         Sync.initialTracking (Sync.setPending true Sync.initialTracking)
                         Sync.demoRequest Sync.demoContinuation
                         [("m1", 1%Q); ("m2", 0%Q)] eq_refl eq_refl))).
Defined.

Lemma filter_skip_rejected (pre post : list Gif) (g : Gif) :
  Validator.accepted g = false ->
  List.filter Validator.accepted (pre ++ g :: post)
  = List.filter Validator.accepted (pre ++ post).
Proof. intros H. rewrite !List.filter_app. simpl. now rewrite H. Qed.

(** X9.  A favourite that the validator rejects is invisible to the
    synchronisation: with it or without it, at any position,
    [shouldIndex] answers the same and [sendIndexRequest] does the same,
    in both revisions. *)
Theorem rejected_item_ignored (pre post : list Gif) (g : Gif) (user : string)
    (st : Sync.Store) (t : Sync.Tracking) (st1 : SyncV1.Store) (t1 : SyncV1.Tracking) :
  Validator.accepted g = false ->
  Sync.shouldIndex user st t (pre ++ g :: post)
  = Sync.shouldIndex user st t (pre ++ post) /\
  Sync.sendIndexRequest_call user (pre ++ g :: post) st t
  = Sync.sendIndexRequest_call user (pre ++ post) st t /\
  SyncV1.shouldIndex st1 t1 (pre ++ g :: post)
  = SyncV1.shouldIndex st1 t1 (pre ++ post) /\
  SyncV1.sendIndexRequest_call (pre ++ g :: post) st1 t1
  = SyncV1.sendIndexRequest_call (pre ++ post) st1 t1.
Proof.
  intros Hg.
  assert (Hids : Validator.getValidGifUrls (pre ++ g :: post)
                 = Validator.getValidGifUrls (pre ++ post)).
  { unfold Validator.getValidGifUrls.
    now rewrite !ValidatorFacts.runLoop_filter, filter_skip_rejected. }
  assert (Hvalid : Validator.validGifs (pre ++ g :: post)
                   = Validator.validGifs (pre ++ post))
    by now rewrite !IndexerFacts.validGifs_filter, filter_skip_rejected.
  unfold Sync.shouldIndex, Sync.sendIndexRequest_call, SyncV1.shouldIndex,
    SyncV1.sendIndexRequest_call.
  rewrite Hids, Hvalid. repeat split.
Qed.

Lemma rejected_item_ignored_witness :
  Sync.shouldIndex "A" (Sync.demoStore 1 0) Sync.initialTracking
    ([Sync.demoGif] ++ mkGif 1 "https://evil.example.com/x.gif" 0 0 0 "e" :: [])
  = Sync.shouldIndex "A" (Sync.demoStore 1 0) Sync.initialTracking ([Sync.demoGif] ++ []).
Proof.
  exact (proj1 (rejected_item_ignored
                  [Sync.demoGif] [] (mkGif 1 "https://evil.example.com/x.gif" 0 0 0 "e")
                  "A" (Sync.demoStore 1 0) Sync.initialTracking
                  SyncV1.demoStore SyncV1.initialTracking eq_refl)).
Defined.

Lemma run_flag (events : list Sync.Event) (w : Sync.World) :
  (Sync.pendingIndexRequest (Sync.tracking w) = true <-> Sync.inFlight w <> None) ->
  let w' := Sync.run w events in
  (Sync.pendingIndexRequest (Sync.tracking w') = true <-> Sync.inFlight w' <> None) /\
  (length (Sync.sent w') + Traffic.flag w
   <= length (Sync.sent w) + Traffic.settles events + Traffic.flag w')%nat.
Proof.
  revert w; induction events as [|e events IH]; intros w Hw; simpl.
  - split; [exact Hw | unfold Traffic.settles; simpl; lia].
  - assert (Hstep : (Sync.pendingIndexRequest (Sync.tracking (Sync.step w e)) = true <->
                     Sync.inFlight (Sync.step w e) <> None) /\
                    (length (Sync.sent (Sync.step w e)) + Traffic.flag w
                     <= length (Sync.sent w) + Traffic.settles [e]
                        + Traffic.flag (Sync.step w e))%nat).
    { unfold Traffic.flag, Traffic.settles. destruct e as [user favorites | outcome | st same]; simpl.
      - destruct (Sync.sendIndexRequest_call user favorites (Sync.store w) (Sync.tracking w))
          as [[st1 t1] [|request k]] eqn:Ecall; simpl.
        + pose proof (SyncExtra_returned user favorites (Sync.store w) (Sync.tracking w))
            as Hret. rewrite Ecall in Hret. simpl in Hret. rewrite (Hret eq_refl).
          split; [exact Hw | lia].
        + apply IndexerFacts.call_awaiting in Ecall as (Hp & -> & _). simpl.
          rewrite Hp. rewrite length_app. simpl. split; [split; congruence | lia].
      - destruct (Sync.inFlight w) as [k|] eqn:Ef; simpl.
        + split; [split; [discriminate | congruence] |].
          destruct (Sync.pendingIndexRequest (Sync.tracking w)); lia.
        + rewrite Ef. split; [exact Hw |].
          destruct (Sync.pendingIndexRequest (Sync.tracking w)); lia.
      - split; [exact Hw | lia]. }
    destruct Hstep as [H1 H2]. destruct (IH (Sync.step w e) H1) as [H3 H4].
    split; [exact H3 |].
    assert (Hs : Traffic.settles (e :: events)
                 = (Traffic.settles [e] + Traffic.settles events)%nat).
    { unfold Traffic.settles. simpl. destruct (negb (Sync.isCall e)); simpl; lia. }
    cbv zeta in H4. lia.
Qed.

(** X10.  In every state the indexer reaches, the in-flight flag is set
    exactly while a request is outstanding, and the requests sent are at
    most one more than the responses received (and no more than those
    when the flag is clear): the flag never blocks the indexer for good
    and no two requests overlap. *)
Theorem flag_tracks_outstanding_request (st : Sync.Store) (events : list Sync.Event) :
  let w := Sync.run (Sync.initialWorld st) events in
  (Sync.pendingIndexRequest (Sync.tracking w) = true <-> Sync.inFlight w <> None) /\
  (length (Sync.sent w)
   <= Traffic.settles events
      + (if Sync.pendingIndexRequest (Sync.tracking w) then 1 else 0))%nat.
Proof.
  destruct (run_flag events (Sync.initialWorld st)) as [H1 H2].
  - simpl. split; [discriminate | congruence].
  - split; [exact H1 |]. cbv zeta in H2. unfold Traffic.flag in H2. simpl in H2. lia.
Qed.

End SyncExtra.

(** ** Keys and [getFav] *)

Module PluginFacts.
Import Js Settings Plugin.

#[local] Arguments String.append !_ _ / : simpl nomatch.

Lemma allChars_append (p : ascii -> bool) (s t : string) :
  allChars p (s +:+ t) = allChars p s && allChars p t.
Proof.
  induction s as [|c s IH]; simpl; [reflexivity |]. now rewrite IH, andb_assoc.
Qed.

Lemma charAt_charset (j : nat) :
  (j < 62)%nat ->
  String.length (charAt charset j) = 1%nat /\
  allChars alphanumeric (charAt charset j) = true.
Proof.
  intros Hj.
  assert (Hall : forallb (fun j => (String.length (charAt charset j) =? 1)%nat
                                   && allChars alphanumeric (charAt charset j))
                         (seq 0 62) = true) by (vm_compute; reflexivity).
  rewrite forallb_forall in Hall.
  specialize (Hall j). rewrite in_seq in Hall.
  destruct (andb_prop _ _ (Hall ltac:(lia))) as [H1 H2].
  split; [now apply Nat.eqb_eq | exact H2].
Qed.

Lemma keyLoop_spec (draw : nat -> nat) (n i : nat) (key : string) :
  (forall j, (i <= j < i + n)%nat -> (draw j < 62)%nat) ->
  String.length (keyLoop draw i n key) = (String.length key + n)%nat /\
  allChars alphanumeric (keyLoop draw i n key) = allChars alphanumeric key.
Proof.
  revert i key; induction n as [|n IH]; intros i key Hdraw; simpl.
  - split; [lia | reflexivity].
  - destruct (IH (S i) (key +:+ charAt charset (draw i))) as [H1 H2].
    { intros j Hj. apply Hdraw. lia. }
    destruct (charAt_charset (draw i)) as [Hl Ha]; [apply Hdraw; lia |].
    rewrite H1, H2, JsStringFacts.length_append, allChars_append, Hl, Ha.
    split; [lia | apply andb_true_r].
Qed.

Lemma generateKey_spec (draw : nat -> nat) :
  (forall i, (i < 32)%nat -> (draw i < 62)%nat) ->
  String.length (generateKey draw) = 32%nat /\
  allChars alphanumeric (generateKey draw) = true.
Proof.
  intros Hdraw. destruct (keyLoop_spec draw 32 0 "") as [H1 H2].
  - intros j Hj. apply Hdraw. lia.
  - split; [exact H1 | exact H2].
Qed.

(** X11.  A generated key has 32 characters, all of them letters or
    digits, so the account it is stored under passes the key test of
    the indexer and of the search. *)
Theorem generateKey_wellformed (draw : nat -> nat) (keys : list (string * string))
    (user : string) :
  (forall i, (i < 32)%nat -> (draw i < 62)%nat) ->
  String.length (generateKey draw) = 32%nat /\
  allChars alphanumeric (generateKey draw) = true /\
  Sync.keyMissing (setProp keys user (generateKey draw)) user = false.
Proof.
  intros Hdraw. destruct (generateKey_spec draw Hdraw) as [H1 H2].
  split; [exact H1 | split; [exact H2 |]].
  unfold Sync.keyMissing. rewrite SettingsFacts.getProp_setProp, String.eqb_refl, H1.
  reflexivity.
Qed.

Lemma generateKey_wellformed_witness :
  String.length (generateKey (fun i => (7 * i) mod 62)%nat) = 32%nat.
Proof.
  refine (proj1 (generateKey_wellformed (fun i => (7 * i) mod 62)%nat [] "A" _)).
  intros i _. apply Nat.mod_upper_bound. discriminate.
Defined.

Lemma call_keeps_store (user : string) (favorites : list Gif) (st : Sync.Store)
    (t : Sync.Tracking) :
  Sync.accountKeys st <> None ->
  fst (fst (Sync.sendIndexRequest_call user favorites st t)) = st.
Proof.
  intros Hk. unfold Sync.sendIndexRequest_call, Sync.initAccountKeys.
  destruct (Sync.accountKeys st); [| congruence].
  destruct (_ || _); [reflexivity |].
  destruct (_ =? _)%nat; [reflexivity |].
  destruct (_ =? _)%nat; reflexivity.
Qed.

(** The store [getFav] leaves behind. *)
Lemma getFav_store (i : Orchestrator.State) (draw : nat -> nat) (user : string)
    (favorites : list Gif) (st : Sync.Store) (t : Sync.Tracking) :
  Orchestrator.dead i = false ->
  Sync.accountKeys (snd (fst (fst (getFav (Some i) draw user favorites st t))))
  = Some (match getProp (snd (Sync.initAccountKeys st)) user with
          | None => setProp (snd (Sync.initAccountKeys st)) user (generateKey draw)
          | Some _ => snd (Sync.initAccountKeys st)
          end).
Proof.
  intros Hlive. unfold getFav. rewrite Hlive.
  assert (Hinit : Sync.accountKeys (fst (Sync.initAccountKeys st))
                  = Some (snd (Sync.initAccountKeys st)))
    by (unfold Sync.initAccountKeys; destruct (Sync.accountKeys st) eqn:E; simpl;
        now rewrite ?E).
  destruct (Sync.initAccountKeys st) as [st1 keys]. cbn [fst snd] in *.
  set (st2 := match getProp keys user with None => _ | Some _ => st1 end).
  assert (Hst2 : Sync.accountKeys st2
                 = Some (match getProp keys user with
                         | None => setProp keys user (generateKey draw)
                         | Some _ => keys
                         end))
    by (subst st2; destruct (getProp keys user); [exact Hinit | reflexivity]).
  destruct (Sync.shouldIndex user st2 t favorites); [| exact Hst2].
  pose proof (call_keeps_store user favorites st2 t) as Hkeep.
  destruct (Sync.sendIndexRequest_call user favorites st2 t) as [[st3 t3] result].
  cbn [fst snd] in *. rewrite Hkeep; [exact Hst2 | congruence].
Qed.

(** X12.  After [getFav] for a live search bar the current account has a
    key: the key it had, untouched, or else a fresh key of 32 letters
    and digits; the keys of the other accounts are as they were. *)
Theorem getFav_provisions_key (i : Orchestrator.State) (draw : nat -> nat)
    (user : string) (favorites : list Gif) (st : Sync.Store) (t : Sync.Tracking) :
  Orchestrator.dead i = false ->
  (forall j, (j < 32)%nat -> (draw j < 62)%nat) ->
  let before := snd (Sync.initAccountKeys st) in
  exists after,
    Sync.accountKeys (snd (fst (fst (getFav (Some i) draw user favorites st t))))
    = Some after /\
    (forall key, getProp before user = Some key -> getProp after user = Some key) /\
    (getProp before user = None ->
     exists key, getProp after user = Some key /\ String.length key = 32%nat /\
                 allChars alphanumeric key = true) /\
    (forall other, other <> user -> getProp after other = getProp before other).
Proof.
  intros Hlive Hdraw before. eexists. split; [now apply getFav_store |].
  fold before. destruct (generateKey_spec draw Hdraw) as [Hl Ha].
  destruct (getProp before user) as [key0|] eqn:E.
  - split; [intros key Hk; now rewrite <- Hk |]. split; [discriminate | reflexivity].
  - split; [discriminate |]. split.
    + intros _. exists (generateKey draw).
      rewrite SettingsFacts.getProp_setProp, String.eqb_refl.
      split; [reflexivity | split; [exact Hl | exact Ha]].
    + intros other Hne. rewrite SettingsFacts.getProp_setProp.
      destruct (String.eqb user other) eqn:Eo; [| reflexivity].
      apply String.eqb_eq in Eo. congruence.
Qed.

Lemma getFav_provisions_key_witness :
  exists after,
    Sync.accountKeys
      (snd (fst (fst (getFav (Some Orchestrator.demoStart)
                             (fun i => (7 * i) mod 62)%nat "C" [Sync.demoGif]
                             (Sync.demoStore 1 0) Sync.initialTracking))))
    = Some after /\
    exists key, getProp after "C" = Some key /\ String.length key = 32%nat.
Proof.
  destruct (getFav_provisions_key
              Orchestrator.demoStart (fun i => (7 * i) mod 62)%nat "C" [Sync.demoGif]
              (Sync.demoStore 1 0) Sync.initialTracking eq_refl)
    as (after & H1 & _ & H2 & _).
  - intros j _. apply Nat.mod_upper_bound. discriminate.
  - exists after. split; [exact H1 |].
    destruct (H2 eq_refl) as (key & Hk & Hl & _). now exists key.
Defined.

Lemma saveUserKey_keys (id newKey : string) (st : Sync.Store) :
  Sync.initAccountKeys (saveUserKey id newKey st)
  = (saveUserKey id newKey st,
     setProp (snd (Sync.initAccountKeys st)) id newKey).
Proof.
  unfold saveUserKey. destruct (Sync.initAccountKeys st) as [st1 keys]. reflexivity.
Qed.

(** X13.  Saving a key touches the key of that account only and leaves
    the weights alone.  With a key of another length than 32, the
    indexer sends nothing for that account and changes nothing, and no
    search is started; with a key of 32 characters the key test
    passes. *)
Theorem saveUserKey_gates_traffic (id newKey : string) (st : Sync.Store) :
  let st' := saveUserKey id newKey st in
  Sync.modelWeights st' = Sync.modelWeights st /\
  (forall other, other <> id ->
     getProp (snd (Sync.initAccountKeys st')) other
     = getProp (snd (Sync.initAccountKeys st)) other) /\
  (String.length newKey <> 32%nat ->
     (forall favorites t,
        Sync.sendIndexRequest_call id favorites st' t = (st', t, Sync.Returned)) /\
     (forall s, Orchestrator.store s = st' -> Orchestrator.user s = id ->
        Orchestrator.pending (Orchestrator.performSearch_call s) = Orchestrator.pending s /\
        Orchestrator.abortControllerRef (Orchestrator.performSearch_call s)
        = Orchestrator.abortControllerRef s)) /\
  (String.length newKey = 32%nat ->
     Sync.keyMissing (snd (Sync.initAccountKeys st')) id = false).
Proof.
  intros st'. subst st'.
  assert (Hmiss : Sync.keyMissing (setProp (snd (Sync.initAccountKeys st)) id newKey) id
                  = negb (String.length newKey =? 32)%nat).
  { unfold Sync.keyMissing. now rewrite SettingsFacts.getProp_setProp, String.eqb_refl. }
  split.
  { unfold saveUserKey, Sync.initAccountKeys. now destruct (Sync.accountKeys st). }
  split.
  { intros other Hne. rewrite saveUserKey_keys. cbn [snd].
    rewrite SettingsFacts.getProp_setProp.
    destruct (String.eqb id other) eqn:E; [| reflexivity].
    apply String.eqb_eq in E. congruence. }
  split.
  - intros Hlen. apply Nat.eqb_neq in Hlen. rewrite Hlen in Hmiss. split.
    + intros favorites t. unfold Sync.sendIndexRequest_call.
      rewrite saveUserKey_keys, Hmiss, orb_true_r. reflexivity.
    + intros s Hst Hu. unfold Orchestrator.performSearch_call.
      rewrite Hst, Hu, saveUserKey_keys, Hmiss. split; reflexivity.
  - intros Hlen. rewrite saveUserKey_keys. cbn [snd]. rewrite Hmiss.
    apply Nat.eqb_eq in Hlen. now rewrite Hlen.
Qed.

Lemma step_dead (s : Orchestrator.State) (e : Orchestrator.Event) :
  Orchestrator.dead s = true -> Orchestrator.dead (Orchestrator.step s e) = true.
Proof.
  intros Hd. destruct e as [q | | | id | c o | p0 | st same | u0]; simpl.
  - unfold Orchestrator.onChange. destruct (String.eqb q ""); simpl; [| exact Hd].
    match goal with |- context [Orchestrator.setDebouncedQuery "" ?s1] =>
      destruct (OrchestratorFacts.setDebouncedQuery_spec "" s1)
        as (_ & _ & _ & _ & _ & H & _)
    end. simpl in *. now rewrite H.
  - unfold Orchestrator.onClear.
    match goal with |- context [Orchestrator.setDebouncedQuery "" ?s1] =>
      destruct (OrchestratorFacts.setDebouncedQuery_spec "" s1)
        as (_ & _ & _ & _ & _ & H & _)
    end. simpl in *.
    destruct (Orchestrator.favCopy _); simpl; now rewrite ?H.
  - reflexivity.
  - unfold Orchestrator.timerFires.
    destruct (find _ (Orchestrator.timers s)) as [[id' q]|]; [| exact Hd].
    match goal with |- context [Orchestrator.setDebouncedQuery q ?s1] =>
      destruct (OrchestratorFacts.setDebouncedQuery_spec q s1)
        as (_ & _ & _ & _ & _ & H & _)
    end. simpl in *. now rewrite H.
  - destruct (find _ (Orchestrator.pending s)) as [r|]; [| exact Hd].
    unfold Orchestrator.performSearch_settle.
    destruct (bool_decide _); [| destruct (Orchestrator.applyResponse _ _ _)]; exact Hd.
  - exact Hd.
  - destruct (same && Sync.hasWeights st); exact Hd.
  - exact Hd.
Qed.

(** X14.  Once the search bar has been torn down, whatever happens to it
    afterwards, [getFav] hands the host its own favourites back: it
    applies no filter, creates no key and triggers no indexing; the same
    holds when no search bar was ever rendered. *)
Theorem getFav_after_unmount (s : Orchestrator.State) (events : list Orchestrator.Event)
    (draw : nat -> nat) (user : string) (favorites : list Gif) (st : Sync.Store)
    (t : Sync.Tracking) :
  getFav (Some (Orchestrator.run (Orchestrator.step s Orchestrator.Unmount) events))
         draw user favorites st t
  = (favorites, st, t, Sync.Returned) /\
  getFav None draw user favorites st t = (favorites, st, t, Sync.Returned).
Proof.
  split; [| reflexivity].
  assert (Hd : Orchestrator.dead
                 (Orchestrator.run (Orchestrator.step s Orchestrator.Unmount) events)
               = true).
  { generalize (Orchestrator.step s Orchestrator.Unmount), (eq_refl : Orchestrator.dead (Orchestrator.step s Orchestrator.Unmount) = true).
    induction events as [|e events IH]; intros s0 H0; [exact H0 |].
    simpl. apply IH. now apply step_dead. }
  unfold getFav. now rewrite Hd.
Qed.

End PluginFacts.

(** ** The search sessions of the component *)

Module LivenessFacts.
Import Js Orchestrator Liveness.

Lemma performSearch_call_shape (s : State) :
  let s' := performSearch_call s in
  let keys := snd (Sync.initAccountKeys (store s)) in
  query s' = query s /\ debouncedQuery s' = debouncedQuery s /\
  debounceTimeoutRef s' = debounceTimeoutRef s /\ timers s' = timers s /\
  aborted s' = aborted s /\ props s' = props s /\
  forceUpdates s' = forceUpdates s /\ console s' = console s /\
  ((Sync.keyMissing keys (user s) = true /\ pending s' = pending s /\
    abortControllerRef s' = abortControllerRef s /\ nextId s' = nextId s) \/
   (exists key,
      getProp keys (user s) = Some key /\ String.length key = 32%nat /\
      pending s' = (pending s
                    ++ [mkRequest (nextId s) (searchUrl (store s) key (debouncedQuery s))
                                  (Sync.getModelWeights (store s))
                                  (if Sync.hasWeights (store s)
                                   then Some (weightsObject s) else None)
                                  (propsObject s) (favCopy (props s))])%list /\
      abortControllerRef s' = Some (nextId s) /\ nextId s' = S (nextId s))).
Proof.
  unfold performSearch_call.
  pose proof (IndexerFacts.initAccountKeys_weights (store s)) as Hw.
  assert (Hurl : Sync.api_url (fst (Sync.initAccountKeys (store s)))
                 = Sync.api_url (store s))
    by (unfold Sync.initAccountKeys; now destruct (Sync.accountKeys (store s))).
  pose proof (IndexerFacts.hasWeights_initAccountKeys (store s)) as Hh.
  destruct (Sync.initAccountKeys (store s)) as [st1 keys]. cbn [fst snd] in *.
  destruct (Sync.keyMissing keys (user s)) eqn:Ek; simpl.
  - repeat split. left. repeat split.
  - repeat split. right.
    destruct (proj1 (IndexerFacts.keyMissing_false keys (user s)) Ek) as (key & Hk & Hl).
    exists key. rewrite Hk, Hw, Hurl, Hh. unfold searchUrl, encodeModels, Settings.searchModels.
    rewrite SyncFacts.positiveModels_filter. repeat split; assumption.
Qed.

Lemma setDebouncedQuery_same (q : string) (s : State) :
  q = debouncedQuery s -> setDebouncedQuery q s = s.
Proof. intros ->. unfold setDebouncedQuery. now rewrite String.eqb_refl. Qed.

Lemma setDebouncedQuery_search (q : string) (s : State) :
  q <> debouncedQuery s -> q <> "" ->
  setDebouncedQuery q s
  = performSearch_call
      (mkState (query s) q (debounceTimeoutRef s) (timers s) (abortControllerRef s)
               (aborted s) (pending s) (nextId s) (props s) (dead s)
               (forceUpdates s) (console s) (store s) (user s)
               (propsObject s) (weightsObject s)).
Proof.
  intros H1 H2. unfold setDebouncedQuery.
  apply String.eqb_neq in H1, H2. now rewrite H1, H2.
Qed.

(** What [setDebouncedQuery] does to the ids. *)
Lemma setDebouncedQuery_ids (q : string) (s : State) :
  let s' := setDebouncedQuery q s in
  aborted s' = aborted s /\ timers s' = timers s /\
  ((pending s' = pending s /\ abortControllerRef s' = abortControllerRef s /\
    nextId s' = nextId s) \/
   (exists r, controller r = nextId s /\ pending s' = (pending s ++ [r])%list /\
              abortControllerRef s' = Some (nextId s) /\ nextId s' = S (nextId s))).
Proof.
  unfold setDebouncedQuery. destruct (String.eqb q (debouncedQuery s)).
  - repeat split. left. repeat split.
  - destruct (String.eqb q "").
    + simpl. repeat split. left. repeat split.
    + match goal with |- context [performSearch_call ?s1] =>
        destruct (performSearch_call_shape s1)
          as (_ & _ & _ & Ht & Ha & _ & _ & _ & Hcase)
      end.
      simpl in *. split; [exact Ha | split; [exact Ht |]].
      destruct Hcase as [(_ & H1 & H2 & H3) | (key & _ & _ & H1 & H2 & H3)].
      * left. repeat split; assumption.
      * right. eexists. split; [| split; [exact H1 | split; [exact H2 | exact H3]]].
        reflexivity.
Qed.

Lemma fresh_weaken (pending' : list Request) (ref' : option nat) (aborted' : gset nat)
    (n n' : nat) (s : State) :
  fresh s -> (nextId s <= n')%nat ->
  (forall r, In r pending' -> In r (pending s)) ->
  NoDup (map controller pending') ->
  (forall c, ref' = Some c -> (c < n')%nat) ->
  (forall c, c ∈ aborted' -> c ∈ aborted s \/ abortControllerRef s = Some c) ->
  (forall r, In r pending' -> (controller r < n')%nat) /\
  NoDup (map controller pending') /\
  (forall c, ref' = Some c -> (c < n')%nat) /\
  (forall c, c ∈ aborted' -> (c < n')%nat).
Proof.
  intros (F1 & F2 & F3 & F4) Hn Hsub Hnd Href Hab.
  split; [| split; [exact Hnd | split; [exact Href |]]].
  - intros r Hr. specialize (F1 r (Hsub r Hr)). lia.
  - intros c Hc. destruct (Hab c Hc) as [H | H]; [apply F4 in H | apply F3 in H]; lia.
Qed.

Lemma abortCurrent_elem (s : State) (c : nat) :
  c ∈ abortCurrent s -> c ∈ aborted s \/ abortControllerRef s = Some c.
Proof.
  unfold abortCurrent. destruct (abortControllerRef s) as [c'|]; [| tauto].
  rewrite elem_of_union, elem_of_singleton. intros [-> | H]; tauto.
Qed.

(** [setDebouncedQuery] keeps the ids fresh. *)
Lemma setDebouncedQuery_fresh (q : string) (s : State) :
  fresh s -> fresh (setDebouncedQuery q s).
Proof.
  intros Hf. pose proof Hf as (F1 & F2 & F3 & F4).
  destruct (setDebouncedQuery_ids q s) as (Ha & _ & Hcase).
  unfold fresh. rewrite Ha.
  destruct Hcase as [(H1 & H2 & H3) | (r & Hr & H1 & H2 & H3)];
    rewrite H1, H2, H3.
  - exact Hf.
  - split; [| split; [| split]].
    + intros r' Hr'. apply in_app_iff in Hr' as [Hr' | [<- | []]].
      * specialize (F1 r' Hr'). lia.
      * lia.
    + rewrite map_app. apply NoDup_app. split; [exact F2 |].
      split; [| apply NoDup_singleton].
      intros c Hc Hc'. apply list_elem_of_In in Hc'. destruct Hc' as [<- | []].
      apply list_elem_of_In, in_map_iff in Hc as (r' & Hc & Hr').
      specialize (F1 r' Hr'). lia.
    + intros c Hc. inversion Hc. lia.
    + intros c Hc. specialize (F4 c Hc). lia.
Qed.

Lemma NoDup_filter_controller (p : Request -> bool) (l : list Request) :
  NoDup (map controller l) -> NoDup (map controller (List.filter p l)).
Proof.
  induction l as [|r l IH]; simpl; [trivial |]. intros Hnd.
  inversion Hnd as [|? ? Hr Hl]; subst. destruct (p r); simpl; [| now apply IH].
  constructor; [| now apply IH]. intros Hin. apply Hr.
  apply list_elem_of_In, in_map_iff in Hin as (r' & Hc & Hr').
  apply filter_In in Hr' as [Hr' _]. apply list_elem_of_In, in_map_iff. now exists r'.
Qed.

Lemma step_fresh (s : State) (e : Event) : fresh s -> fresh (step s e).
Proof.
  intros Hf. pose proof Hf as (F1 & F2 & F3 & F4).
  assert (Hcleared : fresh (mkState (query s) (debouncedQuery s) (debounceTimeoutRef s)
                                    (clearDebounce s) (abortControllerRef s)
                                    (abortCurrent s) (pending s) (nextId s) (props s)
                                    (dead s) (forceUpdates s) (console s) (store s)
                                    (user s) (propsObject s) (weightsObject s))).
  { apply (fresh_weaken _ _ _ (nextId s) (nextId s) s Hf); simpl; auto.
    apply abortCurrent_elem. }
  destruct e as [q | | | id | c o | p0 | st same | u0]; simpl.
  - unfold onChange. destruct (String.eqb q "").
    + match goal with |- context [setDebouncedQuery "" ?s1] =>
        assert (Hs : fresh (setDebouncedQuery "" s1))
          by (apply setDebouncedQuery_fresh; exact Hcleared)
      end. exact Hs.
    + simpl. destruct Hcleared as (C1 & C2 & C3 & C4). simpl in *.
      split; [| split; [exact C2 | split]]; simpl.
      * intros r Hr. specialize (C1 r Hr). lia.
      * intros c Hc. specialize (C3 c Hc). lia.
      * intros c Hc. specialize (C4 c Hc). lia.
  - unfold onClear.
    match goal with |- context [setDebouncedQuery "" ?s1] =>
      assert (Hs : fresh (setDebouncedQuery "" s1))
        by (apply setDebouncedQuery_fresh; exact Hcleared)
    end.
    destruct (favCopy (props (setDebouncedQuery "" _))); exact Hs.
  - exact Hcleared.
  - unfold timerFires. destruct (find _ (timers s)) as [[id' q]|]; [| exact Hf].
    apply setDebouncedQuery_fresh. exact Hf.
  - destruct (find _ (pending s)) as [r|]; [| exact Hf].
    unfold performSearch_settle.
    assert (Hrest : forall x, In x (List.filter
                                      (fun r' => negb (controller r' =? controller r)%nat)
                                      (pending s)) -> In x (pending s))
      by (intros x Hx; now apply filter_In in Hx).
    destruct (bool_decide _); [| destruct (applyResponse _ _ _)];
      (apply (fresh_weaken _ _ _ (nextId s) (nextId s) s Hf); simpl;
       [lia | exact Hrest | now apply NoDup_filter_controller | exact F3 | tauto]).
  - exact Hf.
  - simpl. destruct (same && Sync.hasWeights st); [| exact Hf].
    assert (Hmap : map controller
                       (map (refresh (weightsObject s) (Sync.getModelWeights st)) (pending s))
                   = map controller (pending s)).
    { rewrite map_map. apply map_ext. intros r.
      apply OrchestratorFacts.refresh_controller. }
    split; [| split; [| split]]; simpl.
    + intros r Hr. apply OrchestratorFacts.In_map_refresh in Hr as (r' & Hr' & <-).
      now apply F1.
    + now rewrite Hmap.
    + exact F3.
    + exact F4.
  - exact Hf.
Qed.

Lemma step_debounced (s : State) (e : Event) :
  invariant s -> debounced s -> debounced (step s e).
Proof.
  intros Hinv [D1 D2]. pose proof Hinv as (Ha & _ & _).
  pose proof (OrchestratorFacts.clearDebounce_nil s Ha) as Hclear.
  assert (Hnil : forall l : list (nat * string),
             l = [] -> (length l <= 1)%nat /\ forall t, In t l -> snd t <> "")
    by (intros l ->; split; [simpl; lia | intros t []]).
  destruct e as [q | | | id | c o | p0 | st same | u0]; simpl.
  - unfold onChange. destruct (String.eqb q "") eqn:E.
    + match goal with |- context [setDebouncedQuery "" ?s1] =>
        destruct (setDebouncedQuery_ids "" s1) as (_ & Ht & _)
      end.
      unfold debounced. simpl in *. rewrite Ht. now apply Hnil.
    + apply String.eqb_neq in E. unfold debounced. simpl. rewrite Hclear. simpl.
      split; [lia |]. intros t [<- | []]. exact E.
  - unfold onClear.
    match goal with |- context [setDebouncedQuery "" ?s1] =>
      destruct (setDebouncedQuery_ids "" s1) as (_ & Ht & _)
    end.
    unfold debounced. simpl in *.
    destruct (favCopy (props (setDebouncedQuery "" _))); simpl; rewrite ?Ht;
      now apply Hnil.
  - unfold debounced. simpl. now apply Hnil.
  - unfold timerFires. destruct (find _ (timers s)) as [[id' q]|]; [| now split].
    match goal with |- context [setDebouncedQuery q ?s1] =>
      destruct (setDebouncedQuery_ids q s1) as (_ & Ht & _)
    end.
    unfold debounced. simpl in *. rewrite Ht. split.
    + etransitivity; [apply List.filter_length_le | exact D1].
    + intros t Ht'. apply filter_In in Ht' as [Ht' _]. now apply D2.
  - destruct (find _ (pending s)) as [r|]; [| now split].
    unfold performSearch_settle.
    destruct (bool_decide _); [| destruct (applyResponse _ _ _)]; now split.
  - now split.
  - simpl. destruct (same && Sync.hasWeights st); now split.
  - now split.
Qed.

(** The three invariants hold in every state the component reaches. *)
Lemma reachable (st : Sync.Store) (u : string) (p : Props) (events : list Event) :
  invariant (run (initial st u p) events) /\
  fresh (run (initial st u p) events) /\
  debounced (run (initial st u p) events).
Proof.
  enough (G : forall s, invariant s /\ fresh s /\ debounced s ->
                        invariant (run s events) /\ fresh (run s events)
                        /\ debounced (run s events)).
  { apply G. split; [apply OrchestratorFacts.initial_invariant |]. split.
    - repeat split; simpl; try (intros; contradiction); try discriminate.
      constructor.
    - split; [simpl; lia | intros t []]. }
  induction events as [|e events IH]; intros s Hs; [exact Hs |].
  simpl. apply IH. destruct Hs as (H1 & H2 & H3).
  split; [now apply OrchestratorFacts.step_invariant |].
  split; [now apply step_fresh | now apply step_debounced].
Qed.

Lemma live_nil (pending' : list Request) (aborted' : gset nat) :
  (forall r, In r pending' -> controller r ∈ aborted') ->
  List.filter (fun r => negb (bool_decide (controller r ∈ aborted'))) pending' = [].
Proof.
  intros H. induction pending' as [|r l IH]; [reflexivity |]. simpl.
  rewrite bool_decide_eq_true_2 by (apply H; now left). simpl.
  apply IH. intros r' Hr'. apply H. now right.
Qed.

(** X15.  An input change to a query that is not empty starts no search:
    it leaves exactly one timer, the new one with that query, aborts
    every search that has not settled, and leaves the debounced query
    and the view as they are. *)
Theorem input_schedules_one_timer (st : Sync.Store) (u : string) (p : Props)
    (events : list Event) (q : string) :
  q <> "" ->
  let s := run (initial st u p) events in
  let s' := step s (OnChange q) in
  timers s' = [(nextId s, q)] /\ debounceTimeoutRef s' = Some (nextId s) /\
  query s' = q /\ debouncedQuery s' = debouncedQuery s /\
  pending s' = pending s /\ live s' = [] /\
  props s' = props s /\ forceUpdates s' = forceUpdates s /\ console s' = console s.
Proof.
  intros Hq s s'.
  destruct (reachable st u p events) as (Hinv & _ & _). fold s in Hinv.
  pose proof Hinv as (Ha & _ & _).
  pose proof (OrchestratorFacts.clearDebounce_nil s Ha) as Hclear.
  destruct (OrchestratorFacts.supersede_aborts s (OnChange q) Hinv eq_refl)
    as (Hall & _ & _). fold s' in Hall.
  assert (Hlive : live s' = []) by (apply live_nil; exact Hall).
  subst s'. simpl in *. unfold onChange in *.
  apply String.eqb_neq in Hq. rewrite Hq in *. simpl in *. rewrite Hclear.
  repeat split. exact Hlive.
Qed.

Lemma input_schedules_one_timer_witness :
  timers (step (run (initial (Sync.demoStore 1 1) "A" demoProps)
                    [OnChange "c"; OnChange "ca"]) (OnChange "cat"))
  = [(2%nat, "cat")].
Proof.
  refine (proj1 (input_schedules_one_timer
                   (Sync.demoStore 1 1) "A" demoProps [OnChange "c"; OnChange "ca"]
                   "cat" _)).
  discriminate.
Defined.

Lemma single_timer (s : State) (id : nat) (q : string) :
  debounced s -> In (id, q) (timers s) -> timers s = [(id, q)] /\ q <> "".
Proof.
  intros [D1 D2] Hin. split; [| exact (D2 _ Hin)].
  destruct (timers s) as [|t [|t' l]]; simpl in *; [contradiction | | lia].
  destruct Hin as [-> | []]. reflexivity.
Qed.

(** What [encodeURIComponent] returns consists of the characters it
    leaves alone and of percent signs. *)
Lemma encodeChar_chars (c c' : ascii) :
  In c' (list_ascii_of_string (JsString.encodeChar c)) ->
  JsString.unreserved c' = true \/ c' = "%"%char.
Proof.
  intros H.
  destruct c as [[] [] [] [] [] [] [] []]; vm_compute in H;
    repeat (destruct H as [<- | H]; [vm_compute; auto |]); contradiction.
Qed.

Lemma list_ascii_of_string_app (a b : string) :
  list_ascii_of_string (a +:+ b)
  = (list_ascii_of_string a ++ list_ascii_of_string b)%list.
Proof. induction a as [|c a IH]; simpl; [reflexivity | now rewrite IH]. Qed.

Lemma encodeURIComponent_chars (q : string) (c : ascii) :
  In c (list_ascii_of_string (JsString.encodeURIComponent q)) ->
  JsString.unreserved c = true \/ c = "%"%char.
Proof.
  induction q as [|d q IH]; [intros [] |].
  cbn [JsString.encodeURIComponent]. rewrite list_ascii_of_string_app, in_app_iff.
  intros [H | H]; [now apply (encodeChar_chars d) | now apply IH].
Qed.

(** X16.  When the debounce timer fires with a query that differs from
    the debounced one, and the account has a key of 32 characters, one
    search is started: its URL names the key, the query and the models
    with a positive weight, the last two escaped by
    [encodeURIComponent] (so that they contribute unreserved characters
    and percent signs only); it holds the weights and the [props] object
    of that moment; its controller is new and becomes the current one,
    and it is the only search that is not aborted.  The view is left as
    it is until the response arrives. *)
Theorem timer_starts_search (st : Sync.Store) (u : string) (p : Props)
    (events : list Event) (id : nat) (q key : string) :
  let s := run (initial st u p) events in
  In (id, q) (timers s) ->
  q <> debouncedQuery s ->
  getProp (snd (Sync.initAccountKeys (store s))) (user s) = Some key ->
  String.length key = 32%nat ->
  let s' := step s (TimerFires id) in
  let r := mkRequest (nextId s) (searchUrl (store s) key q)
                     (Sync.getModelWeights (store s))
                     (if Sync.hasWeights (store s) then Some (weightsObject s) else None)
                     (propsObject s) (favCopy (props s)) in
  timers s' = [] /\ debouncedQuery s' = q /\
  pending s' = (pending s ++ [r])%list /\ live s' = [r] /\
  abortControllerRef s' = Some (nextId s) /\ props s' = props s /\
  requestUrl r
  = Sync.api_url (store s) +:+ "/" +:+ key +:+ "/search?text="
    +:+ JsString.encodeURIComponent q +:+ "&models="
    +:+ JsString.encodeURIComponent
          (String.concat "," (Sync.positiveModels (Sync.getModelWeights (store s))))
    +:+ "&k=10000" /\
  (forall text c,
     In c (list_ascii_of_string (JsString.encodeURIComponent text)) ->
     JsString.unreserved c = true \/ c = "%"%char).
Proof.
  intros s Hin Hq Hkey Hlen s' r.
  destruct (reachable st u p events) as (Hinv & Hf & Hd). fold s in Hinv, Hf, Hd.
  destruct (single_timer s id q Hd Hin) as [Ht Hne].
  destruct Hinv as (_ & _ & Hc). destruct Hf as (_ & _ & _ & F4).
  assert (Hold : forall r', In r' (pending s) -> controller r' ∈ aborted s)
    by (apply Hc; rewrite Ht; discriminate).
  assert (Hmain : timers s' = [] /\ debouncedQuery s' = q /\
                  pending s' = (pending s ++ [r])%list /\ live s' = [r] /\
                  abortControllerRef s' = Some (nextId s) /\ props s' = props s).
  { subst s'. simpl. unfold timerFires. rewrite Ht. simpl. rewrite Nat.eqb_refl. simpl.
    rewrite setDebouncedQuery_search by assumption. simpl.
    match goal with |- context [performSearch_call ?s1] =>
      destruct (performSearch_call_shape s1)
        as (_ & Hdq & _ & Htm & Hab & Hpr & _ & _ & Hcase)
    end.
    cbv zeta in Hcase. simpl in Hdq, Htm, Hab, Hpr, Hcase.
    destruct Hcase as [(Hmiss & _) | (key' & Hk' & _ & Hp & Hr & _)].
    { unfold Sync.keyMissing in Hmiss. rewrite Hkey, Hlen in Hmiss. discriminate. }
    assert (key' = key) by congruence. subst key'.
    unfold live. rewrite Htm, Hdq, Hp, Hr, Hab, Hpr.
    split; [reflexivity |]. split; [reflexivity |]. split; [reflexivity |].
    split; [| split; reflexivity].
    rewrite List.filter_app, (live_nil _ _ Hold). simpl.
    rewrite bool_decide_eq_false_2; [reflexivity |].
    intros Hin'. apply F4 in Hin'. lia. }
  destruct Hmain as (H1 & H2 & H3 & H4 & H5 & H6).
  repeat (split; [assumption |]).
  split; [| apply encodeURIComponent_chars].
  subst r. cbn [requestUrl]. unfold searchUrl, Settings.searchModels.
  now rewrite SyncFacts.positiveModels_filter.
Qed.

Lemma timer_starts_search_witness :
  map requestUrl
      (pending (step (run (initial (Sync.demoStore 1 1) "A" demoProps)
                          [OnChange "cat & dog"])
                     (TimerFires 0)))
  = ["https://gif-search.woodie.dev/ABCDEFGHIJKLMNOPQRSTUVWXYZ012345/search?text=cat%20%26%20dog&models=m1%2Cm2&k=10000"].
Proof.
  destruct (timer_starts_search
              (Sync.demoStore 1 1) "A" demoProps [OnChange "cat & dog"] 0%nat "cat & dog"
              Sync.demoKeyA (or_introl eq_refl))
    as (_ & _ & H & _).
  - discriminate.
  - reflexivity.
  - reflexivity.
  - rewrite H. vm_compute. reflexivity.
Defined.

(** X17.  When the timer fires with the query that is already the
    debounced one, or for an account without a key of 32 characters, no
    search is started: no request is added, no controller is created,
    no search is left that is not aborted, and the view stays. *)
Theorem timer_starts_no_search (st : Sync.Store) (u : string) (p : Props)
    (events : list Event) (id : nat) (q : string) :
  let s := run (initial st u p) events in
  In (id, q) (timers s) ->
  q = debouncedQuery s \/
  Sync.keyMissing (snd (Sync.initAccountKeys (store s))) (user s) = true ->
  let s' := step s (TimerFires id) in
  timers s' = [] /\ pending s' = pending s /\ live s' = [] /\
  abortControllerRef s' = abortControllerRef s /\ props s' = props s.
Proof.
  intros s Hin Hwhy s'.
  destruct (reachable st u p events) as (Hinv & Hf & Hd). fold s in Hinv, Hf, Hd.
  destruct (single_timer s id q Hd Hin) as [Ht Hne].
  destruct Hinv as (_ & _ & Hc).
  assert (Hold : forall r', In r' (pending s) -> controller r' ∈ aborted s)
    by (apply Hc; rewrite Ht; discriminate).
  subst s'. simpl. unfold timerFires. rewrite Ht. simpl. rewrite Nat.eqb_refl. simpl.
  destruct (String.eqb q (debouncedQuery s)) eqn:E.
  - apply String.eqb_eq in E. rewrite setDebouncedQuery_same by exact E.
    unfold live. simpl. rewrite (live_nil _ _ Hold). repeat split.
  - apply String.eqb_neq in E. destruct Hwhy as [Hsame | Hmiss]; [contradiction |].
    rewrite setDebouncedQuery_search by assumption. simpl.
    match goal with |- context [performSearch_call ?s1] =>
      destruct (performSearch_call_shape s1)
        as (_ & _ & _ & Htm & Hab & Hpr & _ & _ & Hcase)
    end.
    cbv zeta in Hcase. simpl in Htm, Hab, Hpr, Hcase.
    destruct Hcase as [(_ & Hp & Hr & _) | (key & Hk & Hl & _)].
    + unfold live. rewrite Htm, Hp, Hr, Hab, Hpr, (live_nil _ _ Hold). repeat split.
    + unfold Sync.keyMissing in Hmiss. rewrite Hk, Hl in Hmiss. discriminate.
Qed.

Lemma timer_starts_no_search_witness :
  pending (step (run (initial (Sync.demoStore 1 0) "Z" demoProps) [OnChange "cat"])
                (TimerFires 0)) = [].
Proof.
  destruct (timer_starts_no_search
              (Sync.demoStore 1 0) "Z" demoProps [OnChange "cat"] 0%nat "cat"
              (or_introl eq_refl) (or_intror eq_refl))
    as (_ & H & _).
  exact H.
Defined.

Lemma filter_at_most_one (P : Request -> bool) (c : nat) (l : list Request) :
  NoDup (map controller l) ->
  (forall r, In r l -> P r = true -> controller r = c) ->
  (length (List.filter P l) <= 1)%nat.
Proof.
  induction l as [|r l IH]; intros Hnd Hall; simpl; [lia |].
  inversion Hnd as [|? ? Hr Hl]; subst.
  destruct (P r) eqn:E.
  - assert (Hnone : List.filter P l = []).
    { apply IndexerFacts.filter_nil_iff. intros (x & Hx & HPx). apply Hr.
      rewrite (Hall r (or_introl eq_refl) E), <- (Hall x (or_intror Hx) HPx).
      apply list_elem_of_In, in_map. exact Hx. }
    rewrite Hnone. simpl. lia.
  - apply IH; [exact Hl |]. intros x Hx. apply Hall. now right.
Qed.

(** X18.  In every state the component reaches, at most one search is
    neither settled nor aborted, and it is the one whose controller the
    ref names: at most one response can ever be applied. *)
Theorem at_most_one_live_search (st : Sync.Store) (u : string) (p : Props)
    (events : list Event) :
  let s := run (initial st u p) events in
  (length (live s) <= 1)%nat /\
  forall r, In r (live s) -> abortControllerRef s = Some (controller r).
Proof.
  intros s. destruct (reachable st u p events) as (Hinv & Hf & _).
  fold s in Hinv, Hf. destruct Hinv as (_ & Hb & _). destruct Hf as (_ & F2 & _).
  assert (Hlive : forall r, In r (pending s) ->
                            negb (bool_decide (controller r ∈ aborted s)) = true ->
                            abortControllerRef s = Some (controller r)).
  { intros r Hr Hn. apply negb_true_iff, bool_decide_eq_false in Hn.
    destruct (Hb r Hr) as [H | H]; [contradiction | exact H]. }
  split.
  - unfold live. destruct (abortControllerRef s) as [c|] eqn:Ec.
    + apply (filter_at_most_one _ c); [exact F2 |].
      intros r Hr Hn. specialize (Hlive r Hr Hn). congruence.
    + apply (filter_at_most_one _ 0%nat); [exact F2 |].
      intros r Hr Hn. specialize (Hlive r Hr Hn). discriminate.
  - intros r Hr. apply filter_In in Hr as [Hr Hn]. now apply Hlive.
Qed.

Lemma find_pending (s : State) (r : Request) :
  fresh s -> In r (pending s) ->
  find (fun r' => (controller r' =? controller r)%nat) (pending s) = Some r.
Proof.
  intros (_ & F2 & _) Hin. induction (pending s) as [|x l IH]; [contradiction |].
  simpl in *. inversion F2 as [|? ? Hx Hl]; subst.
  destruct Hin as [-> | Hin]; [now rewrite Nat.eqb_refl |].
  destruct (controller x =? controller r)%nat eqn:E; [| now apply IH].
  apply Nat.eqb_eq in E. exfalso. apply Hx. rewrite E.
  apply list_elem_of_In, in_map. exact Hin.
Qed.

(** X19.  When a search that was not aborted fails (the request is
    rejected, the status is not 2xx, or the body cannot be used), the
    view is left as it is, the error is logged once, one update is
    forced, and the search is no longer pending. *)
Theorem failed_search_keeps_view (st : Sync.Store) (u : string) (p : Props)
    (events : list Event) (r : Request) (outcome : SearchOutcome) :
  let s := run (initial st u p) events in
  In r (live s) ->
  failure outcome = true ->
  let s' := step s (SearchSettles (controller r) outcome) in
  props s' = props s /\
  console s' = (console s ++ [ConsoleError "Error fetching search results:"])%list /\
  forceUpdates s' = S (forceUpdates s) /\
  ~ In r (pending s') /\
  query s' = query s /\ debouncedQuery s' = debouncedQuery s /\ timers s' = timers s.
Proof.
  intros s Hlive Hfail s'.
  destruct (reachable st u p events) as (_ & Hf & _). fold s in Hf.
  apply filter_In in Hlive as [Hin Hn].
  apply negb_true_iff in Hn.
  assert (Happly : applyResponse r outcome (favCopyOf r s) = None).
  { unfold applyResponse. destruct outcome as [status body|]; [| reflexivity].
    simpl in Hfail. destruct (responseOk status); [| reflexivity].
    destruct body; [discriminate | reflexivity]. }
  subst s'. simpl. rewrite (find_pending s r Hf Hin).
  unfold performSearch_settle. rewrite Hn, Happly. simpl.
  repeat split. intros Hr. apply filter_In in Hr as [_ Hr].
  now rewrite Nat.eqb_refl in Hr.
Qed.

Lemma failed_search_keeps_view_witness :
  let s := run (initial (Sync.demoStore 1 0) "A" demoProps)
               [OnChange "cat"; TimerFires 0] in
  map controller (live s) = [1%nat] /\
  props (step s (SearchSettles 1 (SearchResponded 500 None))) = props s.
Proof.
  intros s. split; [vm_compute; reflexivity |].
  refine (proj1 (failed_search_keeps_view
                   (Sync.demoStore 1 0) "A" demoProps [OnChange "cat"; TimerFires 0]
                   (mkRequest 1 (searchUrl (Sync.demoStore 1 0) Sync.demoKeyA "cat")
                              [("m1", 1%Q); ("m2", 0%Q)] (Some 0%nat) 0
                              (Some Fusion.exampleFavCopy))
                   (SearchResponded 500 None) _ eq_refl)).
  vm_compute. left. reflexivity.
Defined.

End LivenessFacts.

(** ** More about the fused view *)

Module FusionExtra.
Import Js Fusion SortFacts FusionFacts.

(** The fused items with the locators they were found for. *)
Lemma fuse_tagged (weights : list (string * Value))
    (modelResults : list (string * list (string * float))) (favCopy : list Gif) :
  exists tagged : list (string * (float * Gif)),
    fuse weights modelResults favCopy = map (fun t => snd (snd t)) tagged /\
    NoDup (map fst tagged) /\
    forall u e, In (u, e) tagged ->
                In u (allUrls modelResults) /\
                aggregate weights (rankingMaps modelResults) favCopy u = Some e.
Proof.
  set (f := aggregate weights (rankingMaps modelResults) favCopy).
  destruct (survivors_spec f (allUrls modelResults)) as (Hsnd & Hnd & Hin).
  set (tagged := filterBoolean
                   (map (fun u => option_map (pair u) (f u)) (allUrls modelResults)))
    in *.
  set (sortedT := sort (fun a b => byCombinedScore (snd a) (snd b)) tagged).
  assert (Hperm : Permutation sortedT tagged) by apply sort_perm.
  exists sortedT. split; [| split].
  - unfold fuse, fuseScored, aggregated. fold f. rewrite <- Hsnd.
    rewrite (sort_map snd byCombinedScore tagged). fold sortedT.
    now rewrite map_map.
  - rewrite Hperm. apply Hnd, allUrls_spec.
  - intros u e He. apply (Permutation_in _ Hperm), Hin in He. exact He.
Qed.

Lemma aggregate_find (weights : list (string * Value))
    (maps : list (string * gmap string nat)) (favCopy : list Gif) (u : string)
    (e : float * Gif) :
  aggregate weights maps favCopy u = Some e ->
  find (fun g => String.eqb (url g) u) favCopy = Some (snd e).
Proof.
  unfold aggregate. destruct (isZero _); [discriminate |].
  destruct (find _ favCopy) as [gif|]; [| discriminate].
  intros H. now inversion H.
Qed.

Lemma fuse_items (weights : list (string * Value))
    (modelResults : list (string * list (string * float))) (favCopy : list Gif) :
  let out := fuse weights modelResults favCopy in
  NoDup (map url out) /\
  (length out <= length (allUrls modelResults))%nat /\
  forall g, In g out ->
            In g favCopy /\ returned modelResults (url g) /\
            find (fun g' => String.eqb (url g') (url g)) favCopy = Some g.
Proof.
  destruct (fuse_tagged weights modelResults favCopy) as (tagged & Hout & Hnd & Hin).
  cbv zeta. rewrite Hout.
  assert (Hitem : forall t, In t tagged ->
                            url (snd (snd t)) = fst t /\
                            In (snd (snd t)) favCopy /\
                            In (fst t) (allUrls modelResults) /\
                            find (fun g' => String.eqb (url g') (fst t)) favCopy
                            = Some (snd (snd t))).
  { intros [u e] Ht. apply Hin in Ht as [Hu He]. simpl.
    apply aggregate_find in He as Hfind.
    pose proof (find_some _ _ Hfind) as [Hfc Heq]. apply String.eqb_eq in Heq.
    repeat split; assumption. }
  assert (Hurls : map url (map (fun t => snd (snd t)) tagged) = map fst tagged).
  { rewrite map_map. apply map_ext_in. intros t Ht. now apply Hitem. }
  split; [now rewrite Hurls |]. split.
  - rewrite length_map, <- (length_map fst).
    apply submseteq_length, NoDup_submseteq; [exact Hnd |].
    intros u Hu. apply list_elem_of_In, in_map_iff in Hu as (t & <- & Ht).
    apply list_elem_of_In. now apply Hitem.
  - intros g Hg. apply in_map_iff in Hg as (t & <- & Ht).
    destruct (Hitem t Ht) as (H1 & H2 & H3 & H4).
    split; [exact H2 |]. split; [| now rewrite H1].
    rewrite H1. now apply allUrls_spec.
Qed.

(** X20.  The fused view is a selection of [favCopy]: every item comes
    from [favCopy], is the first item of [favCopy] with its id, and has
    an id that some model returned; no id occurs twice; and there are at
    most as many items as distinct locators in the response. *)
Theorem fuse_selects_from_favCopy (weights : list (string * Value))
    (modelResults : list (string * list (string * float))) (favCopy : list Gif) :
  let out := fuse weights modelResults favCopy in
  NoDup (map url out) /\
  (length out <= length (allUrls modelResults))%nat /\
  forall g, In g out ->
            In g favCopy /\ returned modelResults (url g) /\
            find (fun g' => String.eqb (url g') (url g)) favCopy = Some g.
Proof. apply fuse_items. Qed.

Lemma getProp_In {T} (o : list (string * T)) (k : string) :
  In k (map fst o) -> exists v, getProp o k = Some v.
Proof.
  induction o as [|[k0 v0] o IH]; simpl; [intros [] |].
  intros [-> | H].
  - rewrite String.eqb_refl. now exists v0.
  - destruct (String.eqb k0 k); [now exists v0 | now apply IH].
Qed.

Lemma toLowerCase_empty (s : string) : toLowerCase s = "" -> s = "".
Proof. destruct s; [reflexivity | discriminate]. Qed.

Lemma getProp_assign {T} (o : list (string * T)) (k k' : string) (v : T) :
  getProp (assign o k v) k'
  = if String.eqb k "__proto__" then getProp o k'
    else if String.eqb k k' then Some v else getProp o k'.
Proof.
  unfold assign. destruct (String.eqb k "__proto__"); [reflexivity |].
  apply SettingsFacts.getProp_setProp.
Qed.

Lemma existsb_eqb_In (k : string) (names : list string) :
  existsb (String.eqb k) names = true <-> In k names.
Proof.
  rewrite existsb_exists. split.
  - intros (x & Hx & E). apply String.eqb_eq in E. now subst x.
  - intros H. exists k. split; [exact H | apply String.eqb_refl].
Qed.

(** The own properties of the weights object after the loop. *)
Lemma resolveWeights_fold (modelWeights : list (string * Value))
    (modelResults : list (string * list (string * float)))
    (acc : list (string * Value)) (modelId : string) :
  getProp (fold_left (fun weights '(m, _) => assign weights m (resolved modelWeights m))
                     modelResults acc) modelId
  = if existsb (String.eqb modelId) (map fst modelResults)
       && negb (String.eqb modelId "__proto__")
    then Some (resolved modelWeights modelId)
    else getProp acc modelId.
Proof.
  revert acc; induction modelResults as [|[m rs] rest IH]; intros acc; [reflexivity |].
  cbn [fold_left map fst existsb]. rewrite IH, getProp_assign.
  rewrite (String.eqb_sym modelId m).
  destruct (String.eqb modelId "__proto__") eqn:Ep.
  - rewrite !andb_false_r. destruct (String.eqb m "__proto__") eqn:Em; [reflexivity |].
    destruct (String.eqb m modelId) eqn:E; [| reflexivity].
    apply String.eqb_eq in E. congruence.
  - rewrite !andb_true_r.
    destruct (existsb (String.eqb modelId) (map fst rest)) eqn:Er.
    + now rewrite orb_true_r.
    + rewrite orb_false_r.
      destruct (String.eqb m modelId) eqn:E; [| now destruct (String.eqb m "__proto__")].
      apply String.eqb_eq in E; subst m. now rewrite Ep.
Qed.

(** X21.  The later revision gives a returned model id, as its weight,
    what the settings have under that very name: the configured weight,
    or, for a name that is not configured but is one of
    [Object.prototype]'s, the function or object found there (not a
    number); failing that, the weight of the first configured name that
    equals it up to the case of its letters; and 0.5 only when no
    configured name matches even so.  (The id ["__proto__"] gets no
    entry in [weights], and none in [rankingMaps].) *)
Theorem resolveWeights_cases (modelWeights : list (string * Value))
    (modelResults : list (string * list (string * float))) (modelId : string) :
  In modelId (map fst modelResults) ->
  modelId <> "__proto__" ->
  let weight := weightOf (resolveWeights modelWeights modelResults) modelId in
  (forall v, getProp modelWeights modelId = Some v -> weight = v) /\
  (getProp modelWeights modelId = None -> In modelId objectPrototype ->
   weight = Inherited) /\
  (getProp modelWeights modelId = None -> ~ In modelId objectPrototype ->
   forall found,
     find (fun k => String.eqb (toLowerCase k) (toLowerCase modelId))
          (map fst modelWeights) = Some found ->
     exists v, getProp modelWeights found = Some v /\ weight = v) /\
  (getProp modelWeights modelId = None -> ~ In modelId objectPrototype ->
   (forall k, In k (map fst modelWeights) -> toLowerCase k <> toLowerCase modelId) ->
   weight = Num 0.5%float) /\
  getProp (resolveWeights modelWeights modelResults) "__proto__" = None /\
  getProp (rankingMaps modelResults) "__proto__" = None.
Proof.
  intros Hin Hproto weight.
  assert (Hw : weight = resolved modelWeights modelId).
  { subst weight. unfold weightOf, get, resolveWeights.
    apply existsb_eqb_In in Hin. rewrite resolveWeights_fold, Hin.
    apply String.eqb_neq in Hproto. now rewrite Hproto. }
  rewrite Hw. unfold resolved, get.
  split; [intros v Hv; now rewrite Hv |].
  split.
  { intros Hnone Hinh. apply existsb_eqb_In in Hinh. now rewrite Hnone, Hinh. }
  assert (Hnot : ~ In modelId objectPrototype ->
                 existsb (String.eqb modelId) objectPrototype = false).
  { intros Hn. destruct (existsb _ objectPrototype) eqn:E; [| reflexivity].
    apply existsb_eqb_In in E. contradiction. }
  split.
  { intros Hnone Hn found Hfound. rewrite Hnone, (Hnot Hn), Hfound.
    apply find_some in Hfound as [Hf Heq]. apply String.eqb_eq in Heq.
    destruct (getProp_In modelWeights found Hf) as [v Hv].
    exists v. split; [exact Hv |]. rewrite Hv.
    destruct (JsString.isEmpty found) eqn:Ee; [| reflexivity].
    apply JsStringFacts.isEmpty_true in Ee. subst found.
    symmetry in Heq. apply toLowerCase_empty in Heq. subst modelId. congruence. }
  split.
  { intros Hnone Hn Hno. rewrite Hnone, (Hnot Hn).
    destruct (find _ (map fst modelWeights)) as [found|] eqn:F; [| reflexivity].
    apply find_some in F as [Hf Heq]. apply String.eqb_eq in Heq.
    now apply Hno in Hf. }
  split.
  - unfold resolveWeights. rewrite resolveWeights_fold. cbn. now rewrite andb_false_r.
  - unfold rankingMaps.
    enough (G : forall acc : list (string * gmap string nat),
               getProp acc "__proto__" = None ->
               getProp (fold_left (fun maps '(m, results) =>
                                     assign maps m (rankingMap results))
                                  modelResults acc) "__proto__" = None)
      by (now apply G).
    clear. induction modelResults as [|[m rs] rest IH]; intros acc Hacc; [exact Hacc |].
    cbn [fold_left]. apply IH. rewrite getProp_assign.
    destruct (String.eqb m "__proto__"); exact Hacc.
Qed.

Lemma resolveWeights_cases_witness :
  weightOf (resolveWeights (numbers [("VideoCLIP", (3 # 4)%Q)]) [("videoclip", [])])
           "videoclip"
  = Num 0.75%float.
Proof.
  destruct (resolveWeights_cases (numbers [("VideoCLIP", (3 # 4)%Q)]) [("videoclip", [])]
                                 "videoclip" (or_introl eq_refl))
    as (_ & _ & H & _).
  - discriminate.
  - destruct (H eq_refl) with (found := "VideoCLIP") as (v & Hv & ->).
    + apply (bool_decide_unpack _). vm_compute. exact I.
    + reflexivity.
    + vm_compute in Hv. congruence.
Defined.

(** The resolution on names outside A to Z and on a name of
    [Object.prototype]: the configured name is "ÉCLIP" with its
    first letter the code unit 201, the returned ids are the same name
    in lower case, ["constructor"] and ["__proto__"]. *)
Example resolveWeights_latin1 :
  let upper := String (ascii_of_nat 201) "CLIP" in
  let lower := String (ascii_of_nat 233) "clip" in
  resolveWeights (numbers [(upper, (3 # 4)%Q)])
                 [(lower, []); ("constructor", []); ("__proto__", [])]
  = [(lower, Num 0.75%float); ("constructor", Inherited)].
Proof. vm_compute. reflexivity. Qed.

End FusionExtra.

(** ** Rounding in the fusion step *)

Module Rounding.
Import Js Fusion.

(** X22.  With a single model the fused view need not be that model's
    ranking: under the weight 2^-1074 the weighted scores of the ranks 2
    and 3 both round to 0 in binary64, the two locators tie, and the
    tie is broken by the order of the response, which has the locator of
    rank 3 first.  Under the weight 1 the view of the same response is
    the ranking. *)
Theorem single_model_underflow_order :
  (0 <? smallest)%float = true /\
  map (fun u => rankingMap (snd underflowA) !! u) ["a"; "b"; "c"]
  = [Some 1%nat; Some 2%nat; Some 3%nat] /\
  allUrls [underflowA] = ["c"; "b"; "a"] /\
  map url (fuse [("A", Num smallest)] [underflowA] underflowFavCopy) = ["a"; "c"; "b"] /\
  map url (fuse [("A", Num 1%float)] [underflowA] underflowFavCopy) = ["a"; "b"; "c"].
Proof. vm_compute. repeat split; reflexivity. Qed.

(** X24.  A weight greater than 0 does not make the combined score
    greater than 0: under the weight 2^-1074 the locators of the ranks 2
    and 3 are kept, their total weight not being 0, with the combined
    score 0, while the locator of rank 1 has the combined score 1. *)
Theorem positive_weight_score_zero :
  let scored := fuseScored [("A", Num smallest)] [underflowA] underflowFavCopy in
  map (fun e => url (snd e)) scored = ["a"; "c"; "b"] /\
  map fst scored = [1; 0; 0]%float /\
  map (fun u => (specTotalWeight [("A", Num smallest)] [underflowA] u =? 0)%float)
      ["a"; "c"; "b"]
  = [false; false; false] /\
  map (specCombinedScore [("A", Num smallest)] [underflowA]) ["a"; "c"; "b"]
  = [1; 0; 0]%float.
Proof. vm_compute. repeat split; reflexivity. Qed.

End Rounding.

(** ** The view after a search *)

Module ViewFacts.
Import Js Orchestrator Liveness LivenessFacts.








(** The host renders again while the search is in flight: the response
    is fused, and the view that the host has set stays. *)
Example response_after_render :
  let s := run (initial (Sync.demoStore 1 0) "A" demoProps)
               [OnChange "cat"; TimerFires 0; HostSets (mkProps None None)] in
  props (step s (SearchSettles 1 demoResponse)) = mkProps None None.
Proof. vm_compute. reflexivity. Qed.

(** The weights editor replaces the weights object while the search is
    in flight: the response is fused under the weights the search
    read. *)
Example response_after_new_weights :
  let s := run (initial (Sync.demoStore 1 0) "A" demoProps)
               [OnChange "cat"; TimerFires 0; StoreSets (Sync.demoStore 0 1) false] in
  map r_modelWeights (pending s) = [[("m1", 1%Q); ("m2", 0%Q)]] /\
  Sync.getModelWeights (store s) = [("m1", 0%Q); ("m2", 1%Q)].
Proof. vm_compute. split; reflexivity. Qed.

End ViewFacts.
